(** * waygo-backend: ride lifecycle and wallet ledger, embedded in Rocq

    Shallow embedding of the ride handlers ([routes/rides.js]), the ride and
    wallet models ([models/Ride.js], [models/Wallet.js]), the wallet routes
    and the availability handlers of the user routes.

    Conventions of the embedding:
    - a MongoDB collection is a finite map from document id to document;
    - a JavaScript [Number] carrying money, distance or a rating is a
      rational ([Q]); [NaN] is [None] where the source tests for it;
    - a [Date] is an integer number of milliseconds ([Z]);
    - the [metadata] of a transaction keeps the paths its strict schema
      declares, and no other;
    - the trigonometry of [calculateDistance] is stated over the reals;
    - every [await] on the store is one atomic step on the store. *)

From Stdlib Require Import ZArith QArith Qround Lia Psatz String Bool List.
From Stdlib Require Import Reals Machin.
From stdpp Require Import base option list gmap strings pretty.

Set Default Proof Using "Type".

Local Open Scope Z_scope.

(** ** Shared vocabulary *)

Definition UserId := positive.
Definition RideId := positive.
Definition Date := Z.
Definition Number := Q.
Bind Scope positive_scope with UserId RideId.
Bind Scope Z_scope with Date.
Bind Scope Q_scope with Number.

(** [a >= b], [a < b], ... on JavaScript numbers. *)
Definition js_ge (a b : Number) : bool := Qle_bool b a.
Definition js_lt (a b : Number) : bool := negb (Qle_bool b a).
Definition js_le (a b : Number) : bool := Qle_bool a b.

(** The JSON answer of a handler: HTTP status and the [message] field. *)
Record Response := mkResponse {
  res_status : Z;
  res_message : string
}.

Definition ok (m : string) : Response := mkResponse 200 m.
Definition created (m : string) : Response := mkResponse 201 m.
Definition bad_request (m : string) : Response := mkResponse 400 m.
Definition forbidden (m : string) : Response := mkResponse 403 m.
Definition not_found (m : string) : Response := mkResponse 404 m.
Definition server_error (m : string) : Response := mkResponse 500 m.

Definition succeeded (r : Response) : bool :=
  (200 <=? res_status r) && (res_status r <? 300).

(** ** FareCalculator ([Ride.calculateFare], and the inline copy in
    [requestRide]) *)

Module Fare.

Record t := mk {
  base : Number;
  distance : Number;
  time : Number;
  total : Number
}.

Local Open Scope Q_scope.

Definition baseFare : Number := 500.
Definition perKmRate : Number := 200.
Definition perMinuteRate : Number := 10.

(** [rideSchema.methods.calculateFare], on the ride's stored [distance]
    and [duration]. *)
Definition calculateFare (dist dur : Number) : t :=
  let distanceFare := dist * perKmRate in
  let timeFare := dur * perMinuteRate in
  let totalFare := baseFare + distanceFare + timeFare in
  mk baseFare distanceFare timeFare totalFare.

(** [Math.ceil(distance * 3)] of [requestRide]. *)
Definition estimateDuration (dist : Number) : Number :=
  inject_Z (Qceiling (dist * 3)).

(** The fare block of [requestRide] (lines 170-196): duration from the
    distance, then the same three rates. *)
Definition requestFare (dist : Number) : Number * t :=
  let duration := estimateDuration dist in
  let distanceFare := dist * 200 in
  let timeFare := duration * 10 in
  let totalFare := 500 + distanceFare + timeFare in
  (duration, mk 500 distanceFare timeFare totalFare).

End Fare.

(** ** GeoIndex distance ([calculateDistance], rides.js lines 10-36) *)

Module Geo.

Local Open Scope R_scope.

(** [Math.atan2(y, x)]. *)
Definition atan2 (y x : R) : R :=
  if Rlt_dec 0 x then atan (y / x)
  else if Rlt_dec x 0 then
    (if Rle_dec 0 y then atan (y / x) + PI else atan (y / x) - PI)
  else if Rlt_dec 0 y then PI / 2
  else if Rlt_dec y 0 then - (PI / 2)
  else 0.

(** Earth's radius in kilometres. *)
Definition R_earth : R := 6371.

(** Points are [[longitude, latitude]] arrays; a point that does not have
    exactly two coordinates makes the function return [NaN] ([None]). *)
Definition calculateDistance (point1 point2 : list R) : option R :=
  match point1, point2 with
  | [lon1; lat1], [lon2; lat2] =>
      let dLat := (lat2 - lat1) * PI / 180 in
      let dLon := (lon2 - lon1) * PI / 180 in
      let a :=
        sin (dLat / 2) * sin (dLat / 2) +
        cos (lat1 * PI / 180) * cos (lat2 * PI / 180) *
        sin (dLon / 2) * sin (dLon / 2) in
      let c := 2 * atan2 (sqrt a) (sqrt (1 - a)) in
      Some (R_earth * c)
  | _, _ => None
  end.

(** The haversine great-circle distance, written from its textbook
    statement: [2 R asin (sqrt h)] with [h] the haversine of the central
    angle. *)
Definition hav (theta : R) : R := Rsqr (sin (theta / 2)).

Definition haversine (radius lon1 lat1 lon2 lat2 : R) : R :=
  let rad x := x * PI / 180 in
  let h := hav (rad lat2 - rad lat1) +
           cos (rad lat1) * cos (rad lat2) * hav (rad lon2 - rad lon1) in
  2 * radius * asin (sqrt h).

End Geo.

(** ** Data model ([models/Ride.js], [models/User.js], [models/Wallet.js]) *)

Inductive RideStatus := pending | accepted | in_progress | completed | cancelled.
Inductive CancelledBy := by_rider | by_driver | by_system.
Inductive PaymentMethod := pm_momo | pm_orange_money | pm_card | pm_cash | pm_wallet.
Inductive PaymentStatus := pay_pending | pay_completed | pay_failed.
Inductive VehicleType := standard | premium | bike.
Inductive Role := role_rider | role_driver | role_admin.

Global Instance RideStatus_eq_dec : EqDecision RideStatus.
Proof. solve_decision. Defined.
Global Instance CancelledBy_eq_dec : EqDecision CancelledBy.
Proof. solve_decision. Defined.
Global Instance PaymentMethod_eq_dec : EqDecision PaymentMethod.
Proof. solve_decision. Defined.
Global Instance Role_eq_dec : EqDecision Role.
Proof. solve_decision. Defined.

(** A rating sub-record ([driverRating] is the driver's rating of the rider,
    [riderRating] the rider's rating of the driver). *)
Record RatingData := mkRating {
  rating : Number;
  comment : string;
  rating_createdAt : Date
}.

Record Place := mkPlace {
  address : string;
  coordinates : list Number
}.

(** The part of a ride fixed at creation. *)
Record Trip := mkTrip {
  pickup : Place;
  destination : Place;
  distance : Number;
  duration : Number;
  fare : Fare.t;
  vehicleType : VehicleType
}.

Record Ride := mkRide {
  rider : UserId;
  driver : option UserId;
  status : RideStatus;
  trip : Trip;
  payment_method : PaymentMethod;
  payment_status : PaymentStatus;
  driverRating : option RatingData;
  riderRating : option RatingData;
  requestedAt : Date;
  acceptedAt : option Date;
  startedAt : option Date;
  completedAt : option Date;
  cancelledAt : option Date;
  cancelledBy : option CancelledBy;
  cancellationReason : option string
}.

Record User := mkUser {
  role : Role;
  isAvailable : bool;
  isActive : bool;
  location : option (list Number)
}.

(** Field assignments on a ride document. *)
Definition set_driver (d : UserId) (r : Ride) : Ride :=
  mkRide (rider r) (Some d) (status r) (trip r) (payment_method r)
    (payment_status r) (driverRating r) (riderRating r) (requestedAt r)
    (acceptedAt r) (startedAt r) (completedAt r) (cancelledAt r)
    (cancelledBy r) (cancellationReason r).

Definition set_status (s : RideStatus) (r : Ride) : Ride :=
  mkRide (rider r) (driver r) s (trip r) (payment_method r)
    (payment_status r) (driverRating r) (riderRating r) (requestedAt r)
    (acceptedAt r) (startedAt r) (completedAt r) (cancelledAt r)
    (cancelledBy r) (cancellationReason r).

Definition set_acceptedAt (t : Date) (r : Ride) : Ride :=
  mkRide (rider r) (driver r) (status r) (trip r) (payment_method r)
    (payment_status r) (driverRating r) (riderRating r) (requestedAt r)
    (Some t) (startedAt r) (completedAt r) (cancelledAt r)
    (cancelledBy r) (cancellationReason r).

Definition set_startedAt (t : Date) (r : Ride) : Ride :=
  mkRide (rider r) (driver r) (status r) (trip r) (payment_method r)
    (payment_status r) (driverRating r) (riderRating r) (requestedAt r)
    (acceptedAt r) (Some t) (completedAt r) (cancelledAt r)
    (cancelledBy r) (cancellationReason r).

Definition set_completedAt (t : Date) (r : Ride) : Ride :=
  mkRide (rider r) (driver r) (status r) (trip r) (payment_method r)
    (payment_status r) (driverRating r) (riderRating r) (requestedAt r)
    (acceptedAt r) (startedAt r) (Some t) (cancelledAt r)
    (cancelledBy r) (cancellationReason r).

Definition set_cancelledAt (t : Date) (r : Ride) : Ride :=
  mkRide (rider r) (driver r) (status r) (trip r) (payment_method r)
    (payment_status r) (driverRating r) (riderRating r) (requestedAt r)
    (acceptedAt r) (startedAt r) (completedAt r) (Some t)
    (cancelledBy r) (cancellationReason r).

Definition set_cancelledBy (b : option CancelledBy) (r : Ride) : Ride :=
  mkRide (rider r) (driver r) (status r) (trip r) (payment_method r)
    (payment_status r) (driverRating r) (riderRating r) (requestedAt r)
    (acceptedAt r) (startedAt r) (completedAt r) (cancelledAt r)
    b (cancellationReason r).

Definition set_cancellationReason (s : option string) (r : Ride) : Ride :=
  mkRide (rider r) (driver r) (status r) (trip r) (payment_method r)
    (payment_status r) (driverRating r) (riderRating r) (requestedAt r)
    (acceptedAt r) (startedAt r) (completedAt r) (cancelledAt r)
    (cancelledBy r) s.

Definition set_payment_status (s : PaymentStatus) (r : Ride) : Ride :=
  mkRide (rider r) (driver r) (status r) (trip r) (payment_method r)
    s (driverRating r) (riderRating r) (requestedAt r)
    (acceptedAt r) (startedAt r) (completedAt r) (cancelledAt r)
    (cancelledBy r) (cancellationReason r).

Definition set_driverRating (d : RatingData) (r : Ride) : Ride :=
  mkRide (rider r) (driver r) (status r) (trip r) (payment_method r)
    (payment_status r) (Some d) (riderRating r) (requestedAt r)
    (acceptedAt r) (startedAt r) (completedAt r) (cancelledAt r)
    (cancelledBy r) (cancellationReason r).

Definition set_riderRating (d : RatingData) (r : Ride) : Ride :=
  mkRide (rider r) (driver r) (status r) (trip r) (payment_method r)
    (payment_status r) (driverRating r) (Some d) (requestedAt r)
    (acceptedAt r) (startedAt r) (completedAt r) (cancelledAt r)
    (cancelledBy r) (cancellationReason r).

Definition set_isAvailable (b : bool) (u : User) : User :=
  mkUser (role u) b (isActive u) (location u).

(** [rideSchema.methods.updateStatus(newStatus, userId)], up to its final
    [save]: the status, the timestamp of the stage and, on cancellation,
    the second argument as [cancelledBy]. *)
Definition updateStatus (newStatus : RideStatus) (userId : option CancelledBy)
    (now : Date) (r : Ride) : Ride :=
  let r := set_status newStatus r in
  match newStatus with
  | accepted => set_acceptedAt now r
  | in_progress => set_startedAt now r
  | completed => set_completedAt now r
  | cancelled => set_cancelledBy userId (set_cancelledAt now r)
  | pending => r
  end.

(** *** Wallets *)

(** The [type] strings the code writes on a transaction. [ride_earning] is
    written by the pay-ride route although the schema's enum does not list
    it. *)
Inductive TxType :=
  deposit | withdrawal | transfer | ride_payment | refund | ride_earning.
Inductive TxStatus := tx_pending | tx_completed | tx_failed | tx_cancelled.

Global Instance TxType_eq_dec : EqDecision TxType.
Proof. solve_decision. Defined.
Global Instance TxStatus_eq_dec : EqDecision TxStatus.
Proof. solve_decision. Defined.

(** Values of the [metadata] object of a transaction. *)
Inductive MetaValue :=
| MStr (s : string)
| MId (i : positive)
| MBool (b : bool)
| MNull.

Global Instance MetaValue_eq_dec : EqDecision MetaValue.
Proof. solve_decision. Defined.

Record Transaction := mkTx {
  tx_type : TxType;
  amount : Number;
  tx_status : TxStatus;
  description : string;
  metadata : gmap string MetaValue;
  tx_createdAt : Date;
  tx_completedAt : option Date
}.

Record Wallet := mkWallet {
  userRole : Role;
  balance : Number;
  wallet_isActive : bool;
  transactions : list Transaction
}.

Definition set_balance (b : Number) (w : Wallet) : Wallet :=
  mkWallet (userRole w) b (wallet_isActive w) (transactions w).

Definition set_transactions (l : list Transaction) (w : Wallet) : Wallet :=
  mkWallet (userRole w) (balance w) (wallet_isActive w) l.

(** [wallet.transactions.push(t)]. *)
Definition push (t : Transaction) (w : Wallet) : Wallet :=
  set_transactions (transactions w ++ [t]) w.

Definition set_tx_status (s : TxStatus) (t : Transaction) : Transaction :=
  mkTx (tx_type t) (amount t) s (description t) (metadata t)
    (tx_createdAt t) (tx_completedAt t).

Definition set_tx_completedAt (d : Date) (t : Transaction) : Transaction :=
  mkTx (tx_type t) (amount t) (tx_status t) (description t) (metadata t)
    (tx_createdAt t) (Some d).

(** The transaction with [metadata[k]] set to [v]. *)
Definition set_meta (k : string) (v : MetaValue) (t : Transaction) : Transaction :=
  mkTx (tx_type t) (amount t) (tx_status t) (description t)
    (<[k := v]> (metadata t)) (tx_createdAt t) (tx_completedAt t).

(** [TransactionSchema.metadata] declares five paths ([Wallet.js], lines
    31-49) and the schema is strict: a path it does not declare is dropped
    from an object that becomes a transaction, is not stored when it is
    assigned on a transaction, and reads as [undefined] on a
    transaction. *)
Definition metadata_paths : list string :=
  ["rideId"; "fromUserId"; "toUserId"; "paymentMethod"; "transactionId"]%string.

(** The metadata a plain object keeps when it is cast to a transaction. *)
Definition strict (m : gmap string MetaValue) : gmap string MetaValue :=
  filter (fun kv => kv.1 ∈ metadata_paths) m.

(** [t.metadata[k]], read from a transaction of a wallet document. *)
Definition get_meta (k : string) (t : Transaction) : option MetaValue :=
  strict (metadata t) !! k.

(** [t.metadata[k] = v] on a transaction of a wallet document, as the next
    [save] stores it. *)
Definition assign_meta (k : string) (v : MetaValue) (t : Transaction) : Transaction :=
  if decide (k ∈ metadata_paths) then set_meta k v t else t.

(** *** The store: three collections, each keyed by its unique index
    ([_id] for rides and users, [userId] for wallets). *)
Record DB := mkDB {
  rides : gmap RideId Ride;
  users : gmap UserId User;
  wallets : gmap UserId Wallet
}.

Definition set_rides (m : gmap RideId Ride) (db : DB) : DB :=
  mkDB m (users db) (wallets db).
Definition set_users (m : gmap UserId User) (db : DB) : DB :=
  mkDB (rides db) m (wallets db).
Definition set_wallets (m : gmap UserId Wallet) (db : DB) : DB :=
  mkDB (rides db) (users db) m.

(** ** Thrown errors

    A computation that may [throw]: [inl msg] is a thrown
    [Error(msg)], caught by the handler's [catch]. *)
Definition Throws (A : Type) : Type := (string + A)%type.
Definition throw {A} (msg : string) : Throws A := inl msg.
Definition ret {A} (a : A) : Throws A := inr a.
Definition bind {A B} (m : Throws A) (k : A -> Throws B) : Throws B :=
  match m with
  | inl e => inl e
  | inr a => k a
  end.

Notation "'let*' x ':=' m 'in' k" := (bind m (fun x => k))
  (at level 10, x pattern, m at level 100, k at level 200, only parsing).

(** A schema validator run by [save]. *)
Definition validate (b : bool) (msg : string) : Throws unit :=
  if b then ret tt else throw msg.

(** ** WalletLedger ([models/Wallet.js] and the wallet routes) *)

Module Wallets.

Local Open Scope Q_scope.
Local Open Scope string_scope.

Definition role_name (r : Role) : string :=
  match r with
  | role_rider => "rider"
  | role_driver => "driver"
  | role_admin => "admin"
  end.

(** Schema validators: [type] has an [enum], [amount] and [balance] have
    [min: 0], [userRole] has an [enum]. *)
Definition type_in_enum (ty : TxType) : bool :=
  match ty with
  | ride_earning => false
  | _ => true
  end.

Definition tx_valid (t : Transaction) : bool :=
  type_in_enum (tx_type t) && js_le 0 (amount t).

Definition userRole_in_enum (r : Role) : bool :=
  match r with
  | role_rider | role_driver => true
  | role_admin => false
  end.

(** [WalletSchema.methods.canWithdraw]. *)
Definition canWithdraw (w : Wallet) (amt : Number) : bool :=
  js_ge (balance w) amt && wallet_isActive w.

(** [WalletSchema.methods.updateBalance], with the validation its [save]
    runs on the modified [balance]; writing the document to the store is
    left to the caller. *)
Definition updateBalance (amt : Number) (ty : TxType) (w : Wallet) : Throws Wallet :=
  let* w' :=
    match ty with
    | deposit | transfer | refund => ret (set_balance (balance w + amt) w)
    | withdrawal | ride_payment =>
        if js_ge (balance w) amt then ret (set_balance (balance w - amt) w)
        else throw "Insufficient balance"
    | ride_earning => ret w
    end in
  let* _ := validate (js_le 0 (balance w')) "Wallet validation failed: balance" in
  ret w'.

(** [WalletSchema.statics.createWallet]: [create] validates [userRole]. *)
Definition createWallet (userId : UserId) (r : Role)
    (ws : gmap UserId Wallet) : Throws (gmap UserId Wallet * Wallet) :=
  let w := mkWallet r 0 true [] in
  let* _ := validate (userRole_in_enum r) "Wallet validation failed: userRole" in
  ret (<[userId := w]> ws, w).

(** [Wallet.findOne({ userId })], creating the wallet when there is
    none. *)
Definition findOrCreate (userId : UserId) (r : Role)
    (ws : gmap UserId Wallet) : Throws (gmap UserId Wallet * Wallet) :=
  match ws !! userId with
  | Some w => ret (ws, w)
  | None => createWallet userId r ws
  end.

(** *** [transferFunds]

    The two documents are read and written inside one session; a [save]
    sends the paths modified since the document's last save ([$set] of
    [balance], [$push] on [transactions]) to the session's view of the
    collection, which [commitTransaction] installs and
    [abortTransaction] discards.  [fault] names the store operation of
    the call (counted from 0) at which the store itself fails, if any. *)
Section Transfer.

Variable fault : option nat.

Definition store_op (k : nat) : Throws unit :=
  if decide (fault = Some k) then throw "store operation failed" else ret tt.

Definition save_balance (k : nat) (userId : UserId) (doc : Wallet)
    (ws : gmap UserId Wallet) : Throws (gmap UserId Wallet) :=
  let* _ := store_op k in
  ret (alter (set_balance (balance doc)) userId ws).

Definition save_pushed (k : nat) (userId : UserId) (t : Transaction)
    (ws : gmap UserId Wallet) : Throws (gmap UserId Wallet) :=
  let* _ := validate (tx_valid t) "Wallet validation failed: transactions" in
  let* _ := store_op k in
  ret (alter (push t) userId ws).

Definition transfer_session (ws : gmap UserId Wallet)
    (fromUserId toUserId : UserId) (amt : Number) (rideId : option RideId)
    (now : Date) : Throws (gmap UserId Wallet * (Number * Number)) :=
  let* _ := store_op 0 in
  let fromWallet := ws !! fromUserId in
  let* _ := store_op 1 in
  let toWallet := ws !! toUserId in
  match fromWallet, toWallet with
  | Some fromWallet, Some toWallet =>
      if negb (canWithdraw fromWallet amt)
      then throw "Insufficient balance or wallet inactive"
      else
        let rideMeta := match rideId with Some i => MId i | None => MNull end in
        let fromTransaction :=
          mkTx transfer amt tx_completed
            ("Transfer to " +:+ role_name (userRole toWallet))
            (<["toUserId" := MId toUserId]> (<["rideId" := rideMeta]> ∅))
            now (Some now) in
        let toTransaction :=
          mkTx transfer amt tx_completed
            ("Payment from " +:+ role_name (userRole fromWallet))
            (<["fromUserId" := MId fromUserId]> (<["rideId" := rideMeta]> ∅))
            now (Some now) in
        let* fromWallet := updateBalance amt ride_payment fromWallet in
        let* ws := save_balance 2 fromUserId fromWallet ws in
        let* toWallet := updateBalance amt transfer toWallet in
        let* ws := save_balance 3 toUserId toWallet ws in
        let* ws := save_pushed 4 fromUserId fromTransaction ws in
        let* ws := save_pushed 5 toUserId toTransaction ws in
        let* _ := store_op 6 in
        ret (ws, (balance fromWallet, balance toWallet))
  | _, _ => throw "One or both wallets not found"
  end.

(** The [try]/[catch] around the session: commit on success, abort and
    rethrow on any error. *)
Definition transferFunds (ws : gmap UserId Wallet)
    (fromUserId toUserId : UserId) (amt : Number) (rideId : option RideId)
    (now : Date) : gmap UserId Wallet * Throws (Number * Number) :=
  match transfer_session ws fromUserId toUserId amt rideId now with
  | inr (ws', balances) => (ws', ret balances)
  | inl e => (ws, throw e)
  end.

End Transfer.

End Wallets.

(** ** The wallet routes *)

Module WalletRoutes.

Import Wallets.
Local Open Scope Q_scope.
Local Open Scope string_scope.

(** The payment gateway's answer to [collectPayment] / [withdrawPayment]:
    a payment id and a status, or a thrown error. *)
Inductive Gateway :=
| GatewayAccepted (paymentId gatewayStatus : string)
| GatewayError (msg : string).

(** [!amount || amount <= 0]. *)
Definition bad_amount (amt : Number) : bool := Qeq_bool amt 0 || js_le amt 0.

(** [`DEP_${Date.now()}_${req.user.id}`] and its [WIT_] sibling. *)
Definition externalReference (prefix : string) (now : Date) (userId : UserId) : string :=
  prefix +:+ pretty now +:+ "_" +:+ pretty userId.

(** The last element of [wallet.transactions], updated in place. *)
Definition alter_last (f : Transaction -> Transaction) (w : Wallet) : Wallet :=
  set_transactions (alter f (pred (length (transactions w))) (transactions w)) w.

Definition pending_tx (ty : TxType) (amt : Number) (descr paymentMethod phoneNumber ref : string)
    (now : Date) : Transaction :=
  mkTx ty amt tx_pending descr
    (strict (<["paymentMethod" := MStr paymentMethod]>
             (<["phoneNumber" := MStr phoneNumber]>
              (<["externalReference" := MStr ref]> ∅))))
    now None.

(** The gateway accepted the request: its reference and status are
    assigned on the pending transaction. *)
Definition note_gateway (paymentId gatewayStatus : string) (w : Wallet) : Wallet :=
  alter_last (fun t => assign_meta "campayStatus" (MStr gatewayStatus)
                        (assign_meta "campayReference" (MStr paymentId) t)) w.

(** The gateway threw: the fallback completes the transaction at once. *)
Definition complete_in_test_mode (msg : string) (now : Date) (w : Wallet) : Wallet :=
  alter_last (fun t => assign_meta "campayError" (MStr msg)
                        (assign_meta "testMode" (MBool true)
                          (set_tx_completedAt now (set_tx_status tx_completed t)))) w.

(** [POST /deposit]. *)
Definition deposit_route (ws : gmap UserId Wallet) (userId : UserId) (userRole : Role)
    (amt : Number) (paymentMethod phoneNumber : string) (now : Date)
    (gw : Gateway) : gmap UserId Wallet * Response :=
  if bad_amount amt then (ws, bad_request "Valid amount is required")
  else if decide (phoneNumber = EmptyString)
  then (ws, bad_request "Phone number is required for mobile money payments")
  else
    match findOrCreate userId userRole ws with
    | inl _ => (ws, server_error "Failed to process deposit")
    | inr (ws, wallet) =>
        let ref := externalReference "DEP_" now userId in
        let transaction :=
          pending_tx deposit amt ("Deposit via " +:+ paymentMethod)
            paymentMethod phoneNumber ref now in
        let wallet := push transaction wallet in
        if negb (tx_valid transaction)
        then (ws, server_error "Failed to process deposit")
        else
          let ws := <[userId := wallet]> ws in
          match gw with
          | GatewayAccepted paymentId gatewayStatus =>
              let wallet := note_gateway paymentId gatewayStatus wallet in
              (<[userId := wallet]> ws,
               ok "Payment initiated successfully. Please complete the payment on your phone.")
          | GatewayError msg =>
              let wallet := complete_in_test_mode msg now wallet in
              let wallet := set_balance (balance wallet + amt) wallet in
              if js_le 0 (balance wallet)
              then (<[userId := wallet]> ws,
                    ok "Test deposit completed successfully (Campay API unavailable - using test mode)")
              else (ws, server_error "Failed to process deposit")
          end
    end.

(** [POST /withdraw]. *)
Definition withdraw_route (ws : gmap UserId Wallet) (userId : UserId)
    (amt : Number) (paymentMethod phoneNumber : string) (now : Date)
    (gw : Gateway) : gmap UserId Wallet * Response :=
  if bad_amount amt then (ws, bad_request "Valid amount is required")
  else if decide (phoneNumber = EmptyString)
  then (ws, bad_request "Phone number is required for withdrawals")
  else
    match ws !! userId with
    | None => (ws, not_found "Wallet not found")
    | Some wallet =>
        if negb (canWithdraw wallet amt)
        then (ws, bad_request "Insufficient balance or wallet inactive")
        else
          let ref := externalReference "WIT_" now userId in
          let transaction :=
            pending_tx withdrawal amt ("Withdrawal to " +:+ paymentMethod)
              paymentMethod phoneNumber ref now in
          let wallet := push transaction wallet in
          if negb (tx_valid transaction)
          then (ws, server_error "Failed to process withdrawal")
          else
            let ws := <[userId := wallet]> ws in
            match gw with
            | GatewayAccepted paymentId gatewayStatus =>
                let wallet := note_gateway paymentId gatewayStatus wallet in
                (<[userId := wallet]> ws,
                 ok "Withdrawal initiated successfully. Money will be sent to your phone shortly.")
            | GatewayError msg =>
                let wallet := complete_in_test_mode msg now wallet in
                let wallet := set_balance (balance wallet - amt) wallet in
                if js_le 0 (balance wallet)
                then (<[userId := wallet]> ws,
                      ok "Test withdrawal completed successfully (Campay API unavailable - using test mode)")
                else (ws, server_error "Failed to process withdrawal")
            end
    end.

(** [POST /transfer]. *)
Definition transfer_route (db : DB) (userId : UserId) (toUserId : option UserId)
    (amt : Number) (rideId : option RideId) (now : Date)
    (fault : option nat) : DB * Response :=
  match toUserId with
  | None => (db, bad_request "Valid recipient and amount are required")
  | Some toUserId =>
      if bad_amount amt
      then (db, bad_request "Valid recipient and amount are required")
      else
        match users db !! toUserId with
        | None => (db, not_found "Recipient not found")
        | Some _ =>
            match transferFunds fault (wallets db) userId toUserId amt rideId now with
            | (ws, inr _) => (set_wallets ws db, ok "Transfer successful")
            | (ws, inl _) => (set_wallets ws db, server_error "Failed to process transfer")
            end
        end
  end.

(** [POST /pay-ride].  The two wallets are saved by two independent
    [save] calls under [Promise.all]: each validates and writes its own
    document, and the route answers 200 only when both succeed.  The
    names the source puts into the descriptions and the metadata are not
    part of the user model and are left out. *)
Definition save_paid (userId : UserId) (doc : Wallet) (t : Transaction)
    (ws : gmap UserId Wallet) : Throws (gmap UserId Wallet) :=
  let* _ := validate (js_le 0 (balance doc)) "Wallet validation failed: balance" in
  let* _ := validate (tx_valid t) "Wallet validation failed: transactions" in
  ret (alter (fun cur => push t (set_balance (balance doc) cur)) userId ws).

Definition pay_ride_route (db : DB) (userId : UserId) (userRole : Role)
    (rideId : option RideId) (driverId : option UserId) (amt : Number)
    (now : Date) : DB * Response :=
  match rideId, driverId with
  | Some rideId, Some driverId =>
      if bad_amount amt
      then (db, bad_request "Ride ID, driver ID, and valid amount are required")
      else if negb (bool_decide (userRole = role_rider))
      then (db, forbidden "Only riders can pay for rides")
      else
        match users db !! driverId with
        | None => (db, not_found "Driver not found")
        | Some driver =>
            if negb (bool_decide (role driver = role_driver))
            then (db, not_found "Driver not found")
            else
              match wallets db !! userId with
              | None => (db, not_found "Rider wallet not found")
              | Some riderWallet =>
                  if js_lt (balance riderWallet) amt
                  then (db, bad_request
                          "Insufficient wallet balance. Please add funds to your wallet.")
                  else
                    match findOrCreate driverId role_driver (wallets db) with
                    | inl _ => (db, server_error "Failed to process ride payment")
                    | inr (ws, driverWallet) =>
                        let meta :=
                          <["rideId" := MId rideId]>
                            (<["transactionReference" :=
                                 MStr ("RIDE_" +:+ pretty rideId +:+ "_" +:+ pretty now)]> ∅) in
                        let riderTransaction :=
                          mkTx ride_payment amt tx_completed "Payment for ride"
                            (strict (<["driverId" := MId driverId]> meta)) now (Some now) in
                        let driverTransaction :=
                          mkTx ride_earning amt tx_completed "Payment received"
                            (strict (<["riderId" := MId userId]> meta)) now (Some now) in
                        let riderWallet := set_balance (balance riderWallet - amt) riderWallet in
                        let driverWallet := set_balance (balance driverWallet + amt) driverWallet in
                        let riderSave := save_paid userId riderWallet riderTransaction ws in
                        let ws1 := match riderSave with inr ws' => ws' | inl _ => ws end in
                        let driverSave := save_paid driverId driverWallet driverTransaction ws1 in
                        let ws2 := match driverSave with inr ws' => ws' | inl _ => ws1 end in
                        match riderSave, driverSave with
                        | inr _, inr _ =>
                            (set_wallets ws2 db, ok "Ride payment completed successfully")
                        | _, _ =>
                            (set_wallets ws2 db, server_error "Failed to process ride payment")
                        end
                    end
              end
        end
  | _, _ => (db, bad_request "Ride ID, driver ID, and valid amount are required")
  end.

(** [POST /campay-webhook], for a delivery whose body carries an
    [external_reference] string.

    [t.metadata.externalReference === externalReference]. *)
Definition has_reference (ref : string) (t : Transaction) : Prop :=
  get_meta "externalReference" t = Some (MStr ref).

Global Instance has_reference_dec ref t : Decision (has_reference ref t).
Proof. unfold has_reference. apply _. Defined.

(** [Wallet.findOne({ 'transactions.metadata.externalReference': ref })]:
    the first wallet of the collection holding such a transaction, if
    there is one. *)
Definition findByReference (ref : string) (ws : gmap UserId Wallet)
    : option (UserId * Wallet) :=
  snd <$> list_find (fun p : UserId * Wallet =>
                       Exists (has_reference ref) (transactions (snd p)))
                    (map_to_list ws).

Definition set_transaction (i : nat) (t : Transaction) (w : Wallet) : Wallet :=
  set_transactions (<[i := t]> (transactions w)) w.

(** The three ways the handler rewrites the transaction it found. *)
Definition confirmed (gatewayStatus : string) (now : Date) (t : Transaction) : Transaction :=
  assign_meta "campayStatus" (MStr gatewayStatus)
    (set_tx_completedAt now (set_tx_status tx_completed t)).

Definition rejected (gatewayStatus : string) (t : Transaction) : Transaction :=
  assign_meta "campayStatus" (MStr gatewayStatus) (set_tx_status tx_failed t).

Definition noted (gatewayStatus : string) (t : Transaction) : Transaction :=
  assign_meta "campayStatus" (MStr gatewayStatus) t.

(** The balance update of a successful confirmation, by the type of the
    transaction. *)
Definition apply_confirmation (amt : Number) (ty : TxType) (wallet : Wallet) : Throws Wallet :=
  match ty with
  | deposit => updateBalance amt deposit wallet
  | withdrawal => updateBalance amt withdrawal wallet
  | _ => ret wallet
  end.

Definition campay_webhook (ws : gmap UserId Wallet) (ref gatewayStatus : string)
    (amt : Number) (now : Date) : gmap UserId Wallet * Response :=
  match findByReference ref ws with
  | None => (ws, not_found "Transaction not found")
  | Some (userId, wallet) =>
      match list_find (has_reference ref) (transactions wallet) with
      | None => (ws, not_found "Transaction not found")
      | Some (i, transaction) =>
          if decide (gatewayStatus = "SUCCESSFUL") then
            let transaction := confirmed gatewayStatus now transaction in
            let wallet := set_transaction i transaction wallet in
            match apply_confirmation amt (tx_type transaction) wallet with
            | inl _ => (ws, server_error "Failed to process webhook")
            | inr wallet => (<[userId := wallet]> ws, ok "Webhook processed successfully")
            end
          else if decide (gatewayStatus = "FAILED") then
            let transaction := rejected gatewayStatus transaction in
            (<[userId := set_transaction i transaction wallet]> ws,
             ok "Webhook processed successfully")
          else
            let transaction := noted gatewayStatus transaction in
            (<[userId := set_transaction i transaction wallet]> ws,
             ok "Webhook processed successfully")
      end
  end.

End WalletRoutes.

(** ** Ride handlers ([routes/rides.js])

    A handler receives the authenticated caller ([req.user.id]) from the
    [protect] middleware.  The socket broadcasts and the read-only queries
    whose result only goes into the response body (candidate drivers,
    earnings) are left out: they do not write to the store. *)

Module Rides.

Local Open Scope Q_scope.
Local Open Scope string_scope.

(** The second argument of [updateStatus] is a user id at most call
    sites and a party tag in [cancelRide]. *)
Inductive StatusActor :=
| ActorId (u : UserId)
| ActorParty (p : CancelledBy).

(** [ride.updateStatus(newStatus, userId)] with the validation of its
    [save]: [cancelledBy] must be one of the enum's tags. *)
Definition updateStatusBy (newStatus : RideStatus) (actor : StatusActor)
    (now : Date) (r : Ride) : Throws Ride :=
  match newStatus, actor with
  | cancelled, ActorParty p => ret (updateStatus cancelled (Some p) now r)
  | cancelled, ActorId _ => throw "Ride validation failed: cancelledBy"
  | _, _ => ret (updateStatus newStatus None now r)
  end.

Definition is_active (s : RideStatus) : bool :=
  match s with
  | pending | accepted | in_progress => true
  | completed | cancelled => false
  end.

(** *** [requestRide] *)

(** A [coordinates] value of the request body: an array whose elements
    are given by their [parseFloat] ([None] is [NaN]), or something that
    is not an array. *)
Inductive JsCoords :=
| CArray (l : list (option Number))
| CNotArray.

Record LocationReq := mkLocationReq {
  req_coordinates : option JsCoords
}.

Record PlaceReq := mkPlaceReq {
  req_address : option string;
  req_location : option LocationReq
}.

Record RideRequest := mkRideRequest {
  req_pickup : option PlaceReq;
  req_destination : option PlaceReq;
  req_vehicleType : option VehicleType;
  req_paymentMethod : option PaymentMethod
}.

(** Five minutes, in milliseconds. *)
Definition stale_after : Z := 5 * 60 * 1000.

(** The filter of the clean-up query: the rider's [pending] rides
    requested more than five minutes ago. *)
Definition stale_pending (userId : UserId) (now : Date) (r : Ride) : bool :=
  bool_decide (rider r = userId) && bool_decide (status r = pending)
  && (requestedAt r <? now - stale_after)%Z.

Definition deleteStale (userId : UserId) (now : Date)
    (rs : gmap RideId Ride) : gmap RideId Ride :=
  filter (fun p : RideId * Ride => stale_pending userId now (snd p) = false) rs.

Definition has_active_ride (userId : UserId) (rs : gmap RideId Ride) : bool :=
  bool_decide (map_Exists (fun _ r => rider r = userId /\ is_active (status r) = true) rs).

(** [Array.isArray(c) && c.length === 2]. *)
Definition pair_array (c : option JsCoords) : option (list (option Number)) :=
  match c with
  | Some (CArray [x; y]) => Some [x; y]
  | _ => None
  end.

(** The four [parseFloat] results, unless one of them is [NaN]. *)
Definition parsed (c : list (option Number)) : option (list Number) :=
  mapM (fun x => x) c.

Section Request.

(** The double that [calculateDistance] returns on two points
    ([None] is [NaN]). *)
Variable calculateDistance : list Number -> list Number -> option Number.

(** [newId] is the [_id] that [Ride.create] generates for the new
    document. *)
Definition requestRide (db : DB) (userId : UserId) (body : RideRequest)
    (now : Date) (newId : RideId) : DB * Response :=
  match req_pickup body, req_destination body with
  | Some pickup, Some destination =>
      (* clean up old pending rides of this rider *)
      let oldPendingRides :=
        filter (fun p : RideId * Ride => stale_pending userId now (snd p) = true)
               (rides db) in
      let db :=
        if decide (oldPendingRides = ∅) then db
        else set_rides (deleteStale userId now (rides db)) db in
      if has_active_ride userId (rides db)
      then (db, bad_request
              "You already have an active ride request. Please wait or cancel it first.")
      else
        (* pickup: the body's point, or the user's stored location *)
        let pickupData : Throws (Response + (option string * option JsCoords)) :=
          match req_location pickup ≫= req_coordinates with
          | Some c => ret (inr (req_address pickup, Some c))
          | None =>
              match users db !! userId with
              | None => throw "Cannot read properties of null"
              | Some user =>
                  match location user with
                  | None => ret (inl (bad_request
                      "User location not available. Please enable location services."))
                  | Some l =>
                      ret (inr (Some (default "Current Location" (req_address pickup)),
                                Some (CArray (Some <$> l))))
                  end
              end
          end in
        match pickupData with
        | inl _ => (db, server_error "Failed to request ride")
        | inr (inl res) => (db, res)
        | inr (inr (pickupAddress, pickupCoords)) =>
            match req_location destination with
            | None => (db, server_error "Failed to request ride")
            | Some destLocation =>
                let destAddress :=
                  default "Selected Destination" (req_address destination) in
                match pair_array pickupCoords with
                | None => (db, bad_request
                    "Invalid pickup coordinates format. Expected [longitude, latitude].")
                | Some p =>
                match pair_array (req_coordinates destLocation) with
                | None => (db, bad_request
                    "Invalid destination coordinates format. Expected [longitude, latitude].")
                | Some d =>
                match parsed p, parsed d with
                | Some p, Some d =>
                    match calculateDistance p d with
                    | None => (db, bad_request
                        "Invalid distance calculation. Please check coordinates.")
                    | Some dist =>
                        if js_le dist 0
                        then (db, bad_request
                                "Invalid distance calculation. Please check coordinates.")
                        else
                          let '(dur, fare) := Fare.requestFare dist in
                          if js_le dur 0
                          then (db, bad_request "Invalid duration calculation.")
                          else if js_le (Fare.total fare) 0
                          then (db, bad_request "Invalid fare calculation.")
                          else
                            (* Ride.create: [pickup.address] is required *)
                            match pickupAddress with
                            | None => (db, server_error "Failed to request ride")
                            | Some pickupAddress =>
                                let ride :=
                                  mkRide userId None pending
                                    (mkTrip (mkPlace pickupAddress p)
                                       (mkPlace destAddress d) dist dur fare
                                       (default standard (req_vehicleType body)))
                                    (default pm_cash (req_paymentMethod body))
                                    pay_pending
                                    None None now None None None None None None in
                                (set_rides (<[newId := ride]> (rides db)) db,
                                 created "Ride requested successfully")
                            end
                    end
                | _, _ => (db, bad_request
                    "Invalid coordinate values. Coordinates must be valid numbers.")
                end
                end
                end
            end
        end
  | _, _ => (db, bad_request "Pickup and destination are required")
  end.

End Request.

(** *** [acceptRide]

    The handler runs between its [await]s as a sequence of atomic steps
    on the store: load the ride, load the driver, save the ride, save
    the driver.  A [save] writes the paths the handler assigned
    ([driver], [status], [acceptedAt]; [isAvailable]) onto the stored
    document, whatever that document holds by then. *)
Inductive AcceptState :=
| AcceptStart
| AcceptRideLoaded (ride : option Ride)
| AcceptDriverLoaded (ride : Ride) (driver : option User)
| AcceptRideSaved (ride : Ride) (driver : User)
| AcceptDone (res : Response).

Definition accept_failed : Response := server_error "Failed to accept ride".
Definition accepted_ok : Response := ok "Ride accepted successfully".
Definition no_longer_available : Response :=
  bad_request "Ride is not available for acceptance".

Definition accept_step (rideId : RideId) (userId : UserId) (now : Date)
    (db : DB) (st : AcceptState) : DB * AcceptState :=
  match st with
  | AcceptStart =>
      (* await Ride.findById(req.params.id) *)
      (db, AcceptRideLoaded (rides db !! rideId))
  | AcceptRideLoaded None =>
      (db, AcceptDone (not_found "Ride not found"))
  | AcceptRideLoaded (Some ride) =>
      if negb (bool_decide (status ride = pending))
      then (db, AcceptDone no_longer_available)
      else
        (* await User.findById(req.user.id) *)
        (db, AcceptDriverLoaded ride (users db !! userId))
  | AcceptDriverLoaded ride None =>
      (db, AcceptDone accept_failed)
  | AcceptDriverLoaded ride (Some driver) =>
      if negb (isAvailable driver)
      then (db, AcceptDone (bad_request "You are not available for rides"))
      else
        let assign r := updateStatus accepted None now (set_driver userId r) in
        (* await ride.updateStatus('accepted', req.user.id) *)
        match rides db !! rideId with
        | None => (db, AcceptDone accept_failed)
        | Some stored =>
            (set_rides (<[rideId := assign stored]> (rides db)) db,
             AcceptRideSaved (assign ride) driver)
        end
  | AcceptRideSaved ride driver =>
      (* driver.isAvailable = false; await driver.save() *)
      match users db !! userId with
      | None => (db, AcceptDone accept_failed)
      | Some stored =>
          (set_users (<[userId := set_isAvailable false stored]> (users db)) db,
           AcceptDone accepted_ok)
      end
  | AcceptDone res => (db, AcceptDone res)
  end.

Fixpoint accept_run (fuel : nat) (rideId : RideId) (userId : UserId) (now : Date)
    (db : DB) (st : AcceptState) : DB * AcceptState :=
  match fuel with
  | O => (db, st)
  | S fuel =>
      let '(db, st) := accept_step rideId userId now db st in
      accept_run fuel rideId userId now db st
  end.

Definition accept_response (st : AcceptState) : Response :=
  match st with
  | AcceptDone res => res
  | _ => accept_failed
  end.

(** One call of the handler with nothing else running: its four steps
    back to back. *)
Definition acceptRide (db : DB) (rideId : RideId) (userId : UserId)
    (now : Date) : DB * Response :=
  let '(db, st) := accept_run 4 rideId userId now db AcceptStart in
  (db, accept_response st).

(** Several calls in flight: a schedule names, step after step, the call
    that runs next. *)
Record AcceptCall := mkAcceptCall {
  call_ride : RideId;
  call_driver : UserId;
  call_now : Date
}.

Definition Pool := list (AcceptCall * AcceptState).

Definition start_calls (calls : list AcceptCall) : Pool :=
  (fun c => (c, AcceptStart)) <$> calls.

Definition schedule_step (s : DB * Pool) (i : nat) : DB * Pool :=
  match snd s !! i with
  | None => s
  | Some (c, st) =>
      let '(db, st) := accept_step (call_ride c) (call_driver c) (call_now c) (fst s) st in
      (db, <[i := (c, st)]> (snd s))
  end.

Definition run_schedule (db : DB) (calls : list AcceptCall)
    (schedule : list nat) : DB * Pool :=
  foldl schedule_step (db, start_calls calls) schedule.

Definition call_result (p : AcceptCall * AcceptState) : option Response :=
  match snd p with
  | AcceptDone res => Some res
  | _ => None
  end.

(** The same calls one after the other. *)
Fixpoint accept_all (db : DB) (calls : list AcceptCall) : DB * list Response :=
  match calls with
  | [] => (db, [])
  | c :: calls =>
      let '(db, res) := acceptRide db (call_ride c) (call_driver c) (call_now c) in
      let '(db, rest) := accept_all db calls in
      (db, res :: rest)
  end.

(** *** [startRide], [completeRide], [cancelRide] *)

Definition startRide (db : DB) (rideId : RideId) (userId : UserId)
    (now : Date) : DB * Response :=
  match rides db !! rideId with
  | None => (db, not_found "Ride not found")
  | Some ride =>
      match driver ride with
      | None =>
          (* ride.driver.toString() on undefined: TypeError *)
          (db, server_error "Failed to start ride")
      | Some d =>
          if negb (bool_decide (d = userId))
          then (db, forbidden "Not authorized to start this ride")
          else if negb (bool_decide (status ride = accepted))
          then (db, bad_request "Ride must be accepted before starting")
          else
            match updateStatusBy in_progress (ActorId userId) now ride with
            | inl _ => (db, server_error "Failed to start ride")
            | inr ride =>
                (set_rides (<[rideId := ride]> (rides db)) db,
                 ok "Ride started successfully")
            end
      end
  end.

Definition completeRide (fault : option nat) (db : DB) (rideId : RideId)
    (userId : UserId) (now : Date) : DB * Response :=
  match rides db !! rideId with
  | None => (db, not_found "Ride not found")
  | Some ride =>
      match driver ride with
      | None => (db, server_error "Failed to complete ride")
      | Some d =>
          if negb (bool_decide (d = userId))
          then (db, forbidden "Not authorized to complete this ride")
          else if negb (bool_decide (status ride = in_progress))
          then (db, bad_request "Ride must be in progress to complete")
          else
            match updateStatusBy completed (ActorId userId) now ride with
            | inl _ => (db, server_error "Failed to complete ride")
            | inr ride =>
                let db := set_rides (<[rideId := ride]> (rides db)) db in
                (* wallet payment, or mark the payment completed *)
                let '(db, ride) :=
                  if bool_decide (payment_method ride = pm_wallet) then
                    match Wallets.transferFunds fault (wallets db) (rider ride) userId
                            (Fare.total (fare (trip ride))) (Some rideId) now with
                    | (ws, inr _) =>
                        (set_wallets ws db, set_payment_status pay_completed ride)
                    | (ws, inl _) =>
                        (set_wallets ws db, set_payment_status pay_failed ride)
                    end
                  else (db, set_payment_status pay_completed ride) in
                let db := set_rides (<[rideId := ride]> (rides db)) db in
                (* driver.isAvailable = true *)
                match users db !! userId with
                | None => (db, server_error "Failed to complete ride")
                | Some driver =>
                    (set_users (<[userId := set_isAvailable true driver]> (users db)) db,
                     ok "Ride completed successfully")
                end
            end
      end
  end.

Definition cancelRide (db : DB) (rideId : RideId) (userId : UserId)
    (reason : option string) (now : Date) : DB * Response :=
  match rides db !! rideId with
  | None => (db, not_found "Ride not found")
  | Some ride =>
      let isRider := bool_decide (rider ride = userId) in
      let isDriver := bool_decide (driver ride = Some userId) in
      if negb isRider && negb isDriver
      then (db, forbidden "Not authorized to cancel this ride")
      else if bool_decide (status ride = completed) || bool_decide (status ride = cancelled)
      then (db, bad_request "Ride cannot be cancelled")
      else
        let cancelledBy := if isRider then by_rider else by_driver in
        match updateStatusBy cancelled (ActorParty cancelledBy) now ride with
        | inl _ => (db, server_error "Failed to cancel ride")
        | inr ride =>
            let ride := set_cancellationReason reason ride in
            let db := set_rides (<[rideId := ride]> (rides db)) db in
            (* If driver cancelled, make them available again *)
            if isDriver then
              match users db !! userId with
              | None => (db, server_error "Failed to cancel ride")
              | Some driver =>
                  (set_users (<[userId := set_isAvailable true driver]> (users db)) db,
                   ok "Ride cancelled successfully")
              end
            else (db, ok "Ride cancelled successfully")
        end
  end.

(** *** [rateRide] *)

Inductive Rater := rater_driver | rater_rider.

Global Instance Rater_eq_dec : EqDecision Rater.
Proof. solve_decision. Defined.

(** [!rating || rating < 1 || rating > 5]. *)
Definition bad_rating (x : Number) : bool :=
  Qeq_bool x 0 || js_lt x 1 || js_lt 5 x.

(** [populate]: a reference resolves to its user, or to [null] when the
    reference is unset or the user is gone. *)
Definition populated (db : DB) (ref : option UserId) : option UserId :=
  ref ≫= fun u => match users db !! u with Some _ => Some u | None => None end.

(** [ride.driverRating = ratingData] or [ride.riderRating = ratingData],
    by the [ratedBy] of the request. *)
Definition assign_rating (ratedBy : Rater) (ratingData : RatingData) (r : Ride) : Ride :=
  match ratedBy with
  | rater_driver => set_driverRating ratingData r
  | rater_rider => set_riderRating ratingData r
  end.

(** The average-rating write that follows touches only the rated user's
    [rating] and is not part of the model; what is kept of it is the
    dereference of the rated user, which throws when that user is
    [null]. *)
Definition rateRide (db : DB) (rideId : RideId) (userId : UserId)
    (x : Number) (comment : option string) (ratedBy : option Rater)
    (now : Date) : DB * Response :=
  if bad_rating x then (db, bad_request "Rating must be between 1 and 5")
  else
    match ratedBy with
    | None => (db, bad_request "ratedBy must be either 'driver' or 'rider'")
    | Some ratedBy =>
        match rides db !! rideId with
        | None => (db, not_found "Ride not found")
        | Some ride =>
            let rideDriver := populated db (driver ride) in
            let rideRider := populated db (Some (rider ride)) in
            if negb (bool_decide (status ride = completed))
            then (db, bad_request "Can only rate completed rides")
            else
              let failed := (db, server_error "Failed to submit rating") in
              let authorized : Throws bool :=
                match ratedBy with
                | rater_driver =>
                    match rideDriver with
                    | None => throw "Cannot read properties of null"
                    | Some d => ret (bool_decide (d = userId))
                    end
                | rater_rider =>
                    match rideRider with
                    | None => throw "Cannot read properties of null"
                    | Some u => ret (bool_decide (u = userId))
                    end
                end in
              match authorized with
              | inl _ => failed
              | inr false =>
                  match ratedBy with
                  | rater_driver =>
                      (db, forbidden "Only the assigned driver can rate this ride")
                  | rater_rider =>
                      (db, forbidden "Only the rider can rate this ride")
                  end
              | inr true =>
                  let ratingData := mkRating x (default EmptyString comment) now in
                  let ride := assign_rating ratedBy ratingData ride in
                  let db := set_rides (<[rideId := ride]> (rides db)) db in
                  let targetUser :=
                    match ratedBy with
                    | rater_driver => rideRider
                    | rater_rider => rideDriver
                    end in
                  match targetUser with
                  | None => (db, server_error "Failed to submit rating")
                  | Some _ => (db, ok "Rating submitted successfully")
                  end
              end
        end
    end.

End Rides.

(** ** Driver availability ([toggleAvailability], [updateDriverStatus]) *)

Module Drivers.

Local Open Scope string_scope.

Definition toggleAvailability (db : DB) (userId : UserId) : DB * Response :=
  match users db !! userId with
  | None => (db, server_error "Failed to toggle availability")
  | Some user =>
      if negb (bool_decide (role user = role_driver))
      then (db, forbidden "Only drivers can toggle availability")
      else
        let user := set_isAvailable (negb (isAvailable user)) user in
        (set_users (<[userId := user]> (users db)) db,
         ok (if isAvailable user then "Driver available" else "Driver unavailable"))
  end.

(** [isAvailable] of the body is [None] when it is not a boolean. *)
Definition updateDriverStatus (db : DB) (userId : UserId)
    (available : option bool) : DB * Response :=
  match available with
  | None => (db, bad_request "isAvailable must be a boolean value")
  | Some b =>
      match users db !! userId with
      | None => (db, server_error "Failed to update driver status")
      | Some user =>
          if negb (bool_decide (role user = role_driver))
          then (db, forbidden "Only drivers can update availability status")
          else
            let user := set_isAvailable b user in
            (set_users (<[userId := user]> (users db)) db,
             ok (if isAvailable user then "Driver available" else "Driver unavailable"))
      end
  end.

End Drivers.

(** ** The ledger reading of a transaction log *)

Module Ledger.

Local Open Scope Q_scope.

(** A transfer entry names its counterparty: the receiver's entry carries
    [fromUserId], the sender's entry carries [toUserId]. *)
Definition incoming (t : Transaction) : bool :=
  bool_decide (is_Some (metadata t !! "fromUserId")).
Definition outgoing (t : Transaction) : bool :=
  bool_decide (is_Some (metadata t !! "toUserId")).

(** Credit-type and debit-type entries as the specification lists them:
    deposit, transfer-in and refund are credits; withdrawal and
    ride_payment are debits. *)
Definition credit_type (t : Transaction) : bool :=
  match tx_type t with
  | deposit | refund => true
  | transfer => incoming t
  | _ => false
  end.

Definition debit_type (t : Transaction) : bool :=
  match tx_type t with
  | withdrawal | ride_payment => true
  | _ => false
  end.


(** Debits as [transferFunds] books them: the sender's transfer entry is
    a debit too. *)
Definition debit_entry (t : Transaction) : bool :=
  debit_type t || (bool_decide (tx_type t = transfer) && outgoing t).

(** The amount an entry adds to the sum of the completed entries of a
    kind. *)
Definition contrib (kind : Transaction -> bool) (t : Transaction) : Number :=
  if kind t && bool_decide (tx_status t = tx_completed) then amount t else 0.

Definition total (kind : Transaction -> bool) (l : list Transaction) : Number :=
  foldr (fun t acc => contrib kind t + acc) 0 l.

Definition ledger (credit debit : Transaction -> bool) (l : list Transaction) : Number :=
  total credit l - total debit l.

(** Balance equal to completed credits minus completed debits, and not
    negative. *)
Definition balanced (credit debit : Transaction -> bool) (w : Wallet) : Prop :=
  balance w == ledger credit debit (transactions w) /\ 0 <= balance w.


Definition kept (w : Wallet) : Prop := balanced credit_type debit_entry w.

End Ledger.

(** ** Wallet operations as requests *)

Module WalletOps.

Import WalletRoutes.

Inductive WalletOp :=
| OpDeposit (userId : UserId) (userRole : Role) (amt : Number)
    (paymentMethod phoneNumber : string) (now : Date) (gw : Gateway)
| OpWithdraw (userId : UserId) (amt : Number)
    (paymentMethod phoneNumber : string) (now : Date) (gw : Gateway)
| OpTransfer (userId : UserId) (toUserId : option UserId) (amt : Number)
    (rideId : option RideId) (now : Date) (fault : option nat)
| OpPayRide (userId : UserId) (userRole : Role) (rideId : option RideId)
    (driverId : option UserId) (amt : Number) (now : Date)
| OpWebhook (ref gatewayStatus : string) (amt : Number) (now : Date).

Definition on_wallets (db : DB) (r : gmap UserId Wallet * Response) : DB * Response :=
  (set_wallets (fst r) db, snd r).

Definition run (db : DB) (op : WalletOp) : DB * Response :=
  match op with
  | OpDeposit userId userRole amt paymentMethod phoneNumber now gw =>
      on_wallets db
        (deposit_route (wallets db) userId userRole amt paymentMethod phoneNumber now gw)
  | OpWithdraw userId amt paymentMethod phoneNumber now gw =>
      on_wallets db
        (withdraw_route (wallets db) userId amt paymentMethod phoneNumber now gw)
  | OpTransfer userId toUserId amt rideId now fault =>
      transfer_route db userId toUserId amt rideId now fault
  | OpPayRide userId userRole rideId driverId amt now =>
      pay_ride_route db userId userRole rideId driverId amt now
  | OpWebhook ref gatewayStatus amt now =>
      on_wallets db (campay_webhook (wallets db) ref gatewayStatus amt now)
  end.


End WalletOps.

(** ** Sample data used by the examples *)

Module Samples.

Import Rides WalletRoutes WalletOps.

(** Two points in Yaounde, as [[longitude, latitude]]. *)
Definition yaounde_a : list R := [11.5174%R; 3.8480%R].
Definition yaounde_b : list R := [11.5274%R; 3.8580%R].

Definition sample_trip : Trip :=
  mkTrip (mkPlace "Bastos" [11.5174%Q; 3.8480%Q]) (mkPlace "Mvan" [11.5274%Q; 3.8580%Q])
    2.5 8 (Fare.calculateFare 2.5 8) standard.

Definition sample_ride (riderId : UserId) (driverId : option UserId)
    (st : RideStatus) (method : PaymentMethod) (requested : Date) : Ride :=
  mkRide riderId driverId st sample_trip method pay_pending None None requested
    None None None None None None.

Definition sample_user (r : Role) (available : bool) : User :=
  mkUser r available true (Some [11.5174%Q; 3.8480%Q]).

Definition sample_users : gmap UserId User :=
  <[ 1%positive := sample_user role_rider true ]>
    (<[ 2%positive := sample_user role_driver true ]>
       {[ 3%positive := sample_user role_driver true ]}).

(** One pending ride of rider 1, requested at 0; drivers 2 and 3 are
    available. *)
Definition db_pending : DB :=
  mkDB {[ 1%positive := sample_ride 1 None pending pm_cash 0 ]} sample_users ∅.

Definition racing_calls : list AcceptCall :=
  [mkAcceptCall 1 2 100; mkAcceptCall 1 3 101].

(** The ride accepted by driver 2, who is no longer available. *)
Definition db_accepted : DB :=
  mkDB {[ 1%positive := sample_ride 1 (Some 2%positive) accepted pm_cash 0 ]}
       (<[ 2%positive := sample_user role_driver false ]> sample_users)
       ∅.

(** The ride completed. *)
Definition db_completed : DB :=
  mkDB {[ 1%positive := sample_ride 1 (Some 2%positive) completed pm_cash 0 ]}
       sample_users ∅.

(** The distance the handler obtains for the sample points, about 1.57
    kilometres. *)
Definition sample_distance (p q : list Number) : option Number := Some 1.5707%Q.

Definition sample_request : RideRequest :=
  mkRideRequest
    (Some (mkPlaceReq (Some "Bastos")
       (Some (mkLocationReq (Some (CArray [Some 11.5174%Q; Some 3.8480%Q]))))))
    (Some (mkPlaceReq (Some "Mvan")
       (Some (mkLocationReq (Some (CArray [Some 11.5274%Q; Some 3.8580%Q]))))))
    None None.

(** Rider 1 has a pending ride requested at 0 and requests again six
    minutes later. *)
Definition db_stale : DB :=
  mkDB {[ 1%positive := sample_ride 1 None pending pm_cash 0 ]}
       {[ 1%positive := sample_user role_rider true ]}
       ∅.

(** A deposit of 1000 by user 1 at 0: accepted by the gateway, and
    completed at once when the gateway is unreachable. *)
Definition deposit_ref : string := externalReference "DEP_" 0 1.

Definition ws_initiated : gmap UserId Wallet :=
  fst (deposit_route ∅ 1 role_rider 1000 "mtn_momo" "677000000" 0
         (GatewayAccepted "pay-1" "PENDING")).

Definition ws_completed : gmap UserId Wallet :=
  fst (deposit_route ∅ 1 role_rider 1000 "mtn_momo" "677000000" 0
         (GatewayError "gateway unreachable")).

(** Rider 1 holds 1000 from a completed deposit; driver 2 has a wallet
    with a pending deposit. *)
Definition db_funded : DB :=
  mkDB ∅ sample_users
    (fst (deposit_route
            (fst (deposit_route ∅ 1 role_rider 1000 "mtn_momo" "677000000" 0
                    (GatewayError "gateway unreachable")))
            2 role_driver 50 "mtn_momo" "699000000" 1
            (GatewayAccepted "pay-2" "PENDING"))).


End Samples.

(** * Queries, listings, payment methods and routes *)

From Stdlib Require Import Sorted.

(** ** Ride handlers as requests *)

Module RideOps.

Import Rides.

Inductive RideOp :=
| OpRequest (userId : UserId) (body : RideRequest) (now : Date) (newId : RideId)
| OpAccept (rideId : RideId) (userId : UserId) (now : Date)
| OpStart (rideId : RideId) (userId : UserId) (now : Date)
| OpComplete (fault : option nat) (rideId : RideId) (userId : UserId) (now : Date)
| OpCancel (rideId : RideId) (userId : UserId) (reason : option string) (now : Date)
| OpRate (rideId : RideId) (userId : UserId) (x : Number) (comment : option string)
    (ratedBy : option Rater) (now : Date).

Section Run.

Variable calculateDistance : list Number -> list Number -> option Number.

(** One call, run on its own: the handler goes from its first read to
    its last write before any other call touches the store. *)
Definition run (db : DB) (op : RideOp) : DB * Response :=
  match op with
  | OpRequest userId body now newId =>
      requestRide calculateDistance db userId body now newId
  | OpAccept rideId userId now => acceptRide db rideId userId now
  | OpStart rideId userId now => startRide db rideId userId now
  | OpComplete fault rideId userId now => completeRide fault db rideId userId now
  | OpCancel rideId userId reason now => cancelRide db rideId userId reason now
  | OpRate rideId userId x comment ratedBy now =>
      rateRide db rideId userId x comment ratedBy now
  end.

End Run.

Definition is_request (op : RideOp) : bool :=
  match op with
  | OpRequest _ _ _ _ => true
  | _ => false
  end.

(** [Ride.create] is given an [_id] that no stored ride has. *)
Definition fresh_id (db : DB) (op : RideOp) : Prop :=
  match op with
  | OpRequest _ _ _ newId => rides db !! newId = None
  | _ => True
  end.

(** The moves of the status field that the handlers make. *)
Definition moves (s s' : RideStatus) : bool :=
  match s, s' with
  | pending, accepted
  | accepted, in_progress
  | in_progress, completed
  | (pending | accepted | in_progress), cancelled => true
  | _, _ => false
  end.

(** What a stored ride carries once it has reached a status. *)
Definition well_stamped (r : Ride) : Prop :=
  match status r with
  | pending => driver r = None
  | accepted => is_Some (driver r) /\ is_Some (acceptedAt r)
  | in_progress =>
      is_Some (driver r) /\ is_Some (acceptedAt r) /\ is_Some (startedAt r)
  | completed =>
      is_Some (driver r) /\ is_Some (acceptedAt r) /\ is_Some (startedAt r)
      /\ is_Some (completedAt r)
  | cancelled => is_Some (cancelledAt r) /\ is_Some (cancelledBy r)
  end.

(** No rider has two rides that are pending, accepted or in progress. *)
Definition single_active (rs : gmap RideId Ride) : Prop :=
  forall i j ri rj,
    rs !! i = Some ri -> rs !! j = Some rj ->
    rider ri = rider rj ->
    is_active (status ri) = true -> is_active (status rj) = true ->
    i = j.

(** The rewrites of a stored ride that the handlers perform. *)
Inductive Change : Ride -> Ride -> Prop :=
| change_accept r u now :
    status r = pending ->
    Change r (updateStatus accepted None now (set_driver u r))
| change_start r now :
    status r = accepted -> is_Some (driver r) ->
    Change r (updateStatus in_progress None now r)
| change_complete r now ps :
    status r = in_progress -> is_Some (driver r) ->
    Change r (set_payment_status ps (updateStatus completed None now r))
| change_cancel r now party reason :
    is_active (status r) = true ->
    Change r (set_cancellationReason reason (updateStatus cancelled (Some party) now r))
| change_rate r who data :
    status r = completed ->
    Change r (assign_rating who data r).

End RideOps.

(** ** Read handlers of [routes/rides.js] *)

Module RideQueries.

Import Rides.
Local Open Scope Q_scope.
Local Open Scope string_scope.

(** What a read handler sends: the [data] of a 200 answer, or a
    refusal. *)
Inductive Answer (A : Type) :=
| Served (a : A)
| Refused (res : Response).

Arguments Served {A} a.
Arguments Refused {A} res.

(** [getRide]: rider and driver are populated before the checks. *)
Definition getRide (db : DB) (rideId : RideId) (userId : UserId) : Answer Ride :=
  match rides db !! rideId with
  | None => Refused (not_found "Ride not found")
  | Some ride =>
      match populated db (Some (rider ride)) with
      | None =>
          (* ride.rider._id on null: TypeError *)
          Refused (server_error "Failed to get ride")
      | Some r =>
          let isRider := bool_decide (r = userId) in
          let isDriver :=
            match populated db (driver ride) with
            | Some d => bool_decide (d = userId)
            | None => false
            end in
          if negb isRider && negb isDriver
          then Refused (forbidden "Not authorized to view this ride")
          else Served ride
      end
  end.

(** [getRiderLocation]: the stored location of the ride's rider. *)
Definition getRiderLocation (db : DB) (rideId : RideId) (userId : UserId)
    : Answer (UserId * option (list Number)) :=
  match rides db !! rideId with
  | None => Refused (not_found "Ride not found")
  | Some ride =>
      if negb (bool_decide (driver ride = Some userId))
      then Refused (forbidden
             "Not authorized to access rider location. You must be the assigned driver.")
      else
        match populated db (Some (rider ride)) with
        | None => Refused (bad_request "No rider associated with this ride")
        | Some riderId =>
            match users db !! riderId with
            | None => Refused (not_found "Rider not found")
            | Some u => Served (riderId, location u)
            end
        end
  end.

(** [getDriverLocation]: the coordinates of the ride's driver. *)
Definition getDriverLocation (db : DB) (rideId : RideId) (userId : UserId)
    : Answer (list Number) :=
  match rides db !! rideId with
  | None => Refused (not_found "Ride not found")
  | Some ride =>
      if negb (bool_decide (rider ride = userId))
      then Refused (forbidden "Not authorized to view this driver location")
      else
        match populated db (driver ride) ≫= fun d => users db !! d with
        | None => Refused (not_found "No driver assigned to this ride")
        | Some d =>
            match location d with
            | None => Refused (not_found "Driver location not available")
            | Some coordinates => Served coordinates
            end
        end
  end.

(** The status names [getRiderInfo] lets through:
    [['accepted', 'started', 'completed'].includes(ride.status)]. *)
Definition status_name (s : RideStatus) : string :=
  match s with
  | pending => "pending"
  | accepted => "accepted"
  | in_progress => "in_progress"
  | completed => "completed"
  | cancelled => "cancelled"
  end.

Definition info_statuses : list string := ["accepted"; "started"; "completed"].

(** [getRiderInfo]: the ride's rider, for the contact details. *)
Definition getRiderInfo (db : DB) (rideId : RideId) (userId : UserId) : Answer UserId :=
  match rides db !! rideId with
  | None => Refused (not_found "Ride not found")
  | Some ride =>
      match driver ride with
      | None =>
          (* ride.driver.toString() on undefined: TypeError *)
          Refused (server_error "Failed to get rider information")
      | Some d =>
          if negb (bool_decide (d = userId))
          then Refused (forbidden "Not authorized to access this ride information")
          else if negb (bool_decide (status_name (status ride) ∈ info_statuses))
          then Refused (bad_request "Rider information only available for accepted rides")
          else
            match populated db (Some (rider ride)) with
            | None =>
                (* ride.rider.firstName on null: TypeError *)
                Refused (server_error "Failed to get rider information")
            | Some r => Served r
            end
      end
  end.

(** [getActiveRide]: the first stored ride the caller rides or drives
    that is pending, accepted or in progress. *)
Definition party (userId : UserId) (r : Ride) : bool :=
  bool_decide (rider r = userId) || bool_decide (driver r = Some userId).

Definition getActiveRide (db : DB) (userId : UserId) : option (RideId * Ride) :=
  snd <$> list_find (fun p : RideId * Ride =>
                       party userId (snd p) && is_active (status (snd p)) = true)
                    (map_to_list (rides db)).

(** The virtual [durationInMinutes] of the ride schema;
    [Math.round] is the floor of its argument plus one half. *)
Definition durationInMinutes (r : Ride) : option Z :=
  match completedAt r, startedAt r with
  | Some c, Some s => Some (Qfloor (inject_Z (c - s) / inject_Z (1000 * 60) + (1 # 2)))
  | _, _ => None
  end.

End RideQueries.

(** ** [Array.prototype.sort] with a consistent comparator

    The sort is stable: [le x y] says that the comparator does not put [y]
    before [x]. *)

Module JsArray.

Fixpoint insert_by {A} (le : A -> A -> bool) (x : A) (l : list A) : list A :=
  match l with
  | [] => [x]
  | y :: l' => if le x y then x :: l else y :: insert_by le x l'
  end.

Definition sort_by {A} (le : A -> A -> bool) (l : list A) : list A :=
  foldr (insert_by le) [] l.

(** [arr.slice(start, end)] on integers: a negative index counts from the
    end, and both are clamped to the array. *)
Definition slice_index (len i : Z) : Z :=
  if (i <? 0)%Z then Z.max (len + i) 0 else Z.min i len.

Definition slice {A} (l : list A) (start stop : Z) : list A :=
  let len := Z.of_nat (length l) in
  let k := slice_index len start in
  let final := slice_index len stop in
  take (Z.to_nat (final - k)) (drop (Z.to_nat k) l).

End JsArray.

(** ** [findNearbyDrivers] *)

Module Nearby.

Local Open Scope Q_scope.
Local Open Scope string_scope.

Section Find.

(** [calculateDistance] on two points whose coordinates are numbers;
    [None] is [NaN]. *)
Variable calculateDistance : list Number -> list Number -> option Number.

(** A query parameter as the handler reads it: [None] when the
    handler's test for a missing value holds ([!latitude],
    [!longitude]; for the radius, the default of the destructuring),
    otherwise the number read from the string ([parseFloat]; for the
    radius, the conversion made by [<=]), [None] being [NaN]. *)
Definition QueryNumber := option (option Number).

(** The distance from the search point to stored coordinates; a [NaN]
    latitude or longitude makes it [NaN]. *)
Definition distance_from (longitude latitude : option Number)
    (coordinates : list Number) : option Number :=
  match longitude, latitude with
  | Some lon, Some lat => calculateDistance [lon; lat] coordinates
  | _, _ => None
  end.

(** [distance <= radius], false when either side is [NaN]. *)
Definition within (distance radius : option Number) : bool :=
  match distance, radius with
  | Some d, Some r => js_le d r
  | _, _ => false
  end.

Definition nearby (longitude latitude radius : option Number)
    (p : UserId * User) : bool :=
  isAvailable (snd p)
  && match location (snd p) with
     | None => false
     | Some coordinates => within (distance_from longitude latitude coordinates) radius
     end.

Definition with_distance (longitude latitude : option Number)
    (p : UserId * User) : UserId * option Number :=
  (fst p,
   match location (snd p) with
   | None => None
   | Some coordinates => distance_from longitude latitude coordinates
   end).

(** [a.distance - b.distance <= 0]; a [NaN] difference leaves the two
    in place. *)
Definition closer (a b : UserId * option Number) : bool :=
  match snd a, snd b with
  | Some x, Some y => js_le x y
  | _, _ => true
  end.

Definition findNearbyDrivers (db : DB) (latitude longitude : QueryNumber)
    (radius : QueryNumber) : Response + list (UserId * option Number) :=
  match latitude, longitude with
  | Some latitude, Some longitude =>
      let radius := default (Some 10) radius in
      let allDrivers :=
        filter (fun p : UserId * User =>
                  role (snd p) = role_driver /\ isActive (snd p) = true)
               (map_to_list (users db)) in
      let nearbyDrivers :=
        filter (fun p => nearby longitude latitude radius p = true) allDrivers in
      let driversWithDistance := with_distance longitude latitude <$> nearbyDrivers in
      inr (JsArray.sort_by closer driversWithDistance)
  | _, _ => inl (bad_request "Latitude and longitude are required")
  end.

End Find.

End Nearby.

(** ** [calculateDistance] on coordinates that may be [NaN] *)

Module JsDistance.

Local Open Scope R_scope.

(** A coordinate as the arithmetic of [calculateDistance] reads it: a
    real number, or [None] for what that arithmetic turns into [NaN]
    ([NaN] itself, [undefined], a string that is not numeric, an
    infinity under [Math.sin] and [Math.cos]).  [NaN] spreads through
    every operation. *)
Definition JsNumber : Type := option R.

Definition num (x : R) : JsNumber := Some x.

Definition op1 (f : R -> R) (x : JsNumber) : JsNumber := f <$> x.

Definition op2 (f : R -> R -> R) (x y : JsNumber) : JsNumber :=
  match x, y with
  | Some a, Some b => Some (f a b)
  | _, _ => None
  end.

(** [point[i]]. *)
Definition at_index (point : list JsNumber) (i : nat) : JsNumber :=
  default None (point !! i).

Definition calculateDistance (point1 point2 : list JsNumber) : JsNumber :=
  if bool_decide (length point1 <> 2%nat) || bool_decide (length point2 <> 2%nat)
  then None
  else
    let radians x := op2 Rdiv (op2 Rmult x (num PI)) (num 180) in
    let half x := op2 Rdiv x (num 2) in
    let dLat := radians (op2 Rminus (at_index point2 1) (at_index point1 1)) in
    let dLon := radians (op2 Rminus (at_index point2 0) (at_index point1 0)) in
    let a :=
      op2 Rplus
        (op2 Rmult (op1 sin (half dLat)) (op1 sin (half dLat)))
        (op2 Rmult
           (op2 Rmult
              (op2 Rmult (op1 cos (radians (at_index point1 1)))
                         (op1 cos (radians (at_index point2 1))))
              (op1 sin (half dLon)))
           (op1 sin (half dLon))) in
    let c :=
      op2 Rmult (num 2) (op2 Geo.atan2 (op1 sqrt a) (op1 sqrt (op2 Rminus (num 1) a))) in
    op2 Rmult (num Geo.R_earth) c.

End JsDistance.

(** ** The transaction listing ([GET /transactions]) *)

Module Listing.

Local Open Scope Z_scope.
Local Open Scope string_scope.

(** [parseInt(q) || fallback]: [None] is [NaN]. *)
Definition parsed_or (q : option Z) (fallback : Z) : Z :=
  match q with
  | None | Some 0 => fallback
  | Some n => n
  end.

(** [new Date(b.createdAt) - new Date(a.createdAt) <= 0]. *)
Definition newer (a b : Transaction) : bool :=
  (tx_createdAt b <=? tx_createdAt a)%Z.

Record Pagination := mkPagination {
  page : Z;
  limit : Z;
  total : Z;
  pages : Z
}.

Definition transactions_route (ws : gmap UserId Wallet) (userId : UserId)
    (queryPage queryLimit : option Z) : Response + list Transaction * Pagination :=
  match ws !! userId with
  | None => inl (not_found "Wallet not found")
  | Some wallet =>
      let page := parsed_or queryPage 1 in
      let limit := parsed_or queryLimit 20 in
      let skip := (page - 1) * limit in
      let sorted := JsArray.sort_by newer (transactions wallet) in
      let length := Z.of_nat (length (transactions wallet)) in
      inr (JsArray.slice sorted skip (skip + limit),
           mkPagination page limit length
             (Qceiling (inject_Z length / inject_Z limit)))
  end.

End Listing.

(** ** Payment methods of a wallet ([/payment-methods]) *)

Module PaymentMethods.

Local Open Scope string_scope.

Definition MethodId := positive.

Record Method := mkMethod {
  method_id : MethodId;
  method_type : string;
  accountNumber : string;
  accountName : string;
  isDefault : bool;
  isVerified : bool
}.

(** A wallet document with its [paymentMethods] array. *)
Record WalletDoc := mkWalletDoc {
  doc_wallet : Wallet;
  paymentMethods : list Method
}.

Definition set_paymentMethods (l : list Method) (w : WalletDoc) : WalletDoc :=
  mkWalletDoc (doc_wallet w) l.

Definition set_isDefault (b : bool) (m : Method) : Method :=
  mkMethod (method_id m) (method_type m) (accountNumber m) (accountName m) b
    (isVerified m).

(** The [enum] of [paymentMethods.type]. *)
Definition method_types : list string := ["mtn_momo"; "orange_money"; "card"; "bank"].

(** [!x] on a field of the body that is absent or a string. *)
Definition blank (x : option string) : bool :=
  match x with
  | None => true
  | Some s => bool_decide (s = EmptyString)
  end.

(** [wallet.paymentMethods.id(methodId)]. *)
Definition by_id (methodId : MethodId) (l : list Method) : option (nat * Method) :=
  list_find (fun m => method_id m = methodId) l.

(** [POST /payment-methods]; [newId] is the [_id] the new subdocument
    receives. *)
Definition add_route (ws : gmap UserId WalletDoc) (userId : UserId) (userRole : Role)
    (type accountNumber accountName : option string) (newId : MethodId)
    : gmap UserId WalletDoc * Response :=
  if blank type || blank accountNumber || blank accountName
  then (ws, bad_request "Payment method details are required")
  else
    let found :=
      match ws !! userId with
      | Some wallet => Some (ws, wallet)
      | None =>
          if Wallets.userRole_in_enum userRole
          then let wallet := mkWalletDoc (mkWallet userRole 0 true []) [] in
               Some (<[userId := wallet]> ws, wallet)
          else None
      end in
    match found with
    | None => (ws, server_error "Failed to add payment method")
    | Some (ws, wallet) =>
        let type := default EmptyString type in
        let accountNumber := default EmptyString accountNumber in
        let accountName := default EmptyString accountName in
        let existingMethod :=
          list_find (fun m => method_type m = type /\ PaymentMethods.accountNumber m = accountNumber)
                    (paymentMethods wallet) in
        match existingMethod with
        | Some _ => (ws, bad_request "Payment method already exists")
        | None =>
            let newPaymentMethod :=
              mkMethod newId type accountNumber accountName
                (bool_decide (length (paymentMethods wallet) = 0%nat)) false in
            if negb (bool_decide (type ∈ method_types))
            then (ws, server_error "Failed to add payment method")
            else
              (<[userId := set_paymentMethods
                             (paymentMethods wallet ++ [newPaymentMethod]) wallet]> ws,
               ok "Payment method added successfully")
        end
    end.

(** [PUT /payment-methods/:methodId/default]. *)
Definition default_route (ws : gmap UserId WalletDoc) (userId : UserId)
    (methodId : MethodId) : gmap UserId WalletDoc * Response :=
  match ws !! userId with
  | None => (ws, not_found "Wallet not found")
  | Some wallet =>
      match by_id methodId (paymentMethods wallet) with
      | None => (ws, not_found "Payment method not found")
      | Some (i, _) =>
          let cleared := set_isDefault false <$> paymentMethods wallet in
          let methods := alter (set_isDefault true) i cleared in
          (<[userId := set_paymentMethods methods wallet]> ws,
           ok "Default payment method updated")
      end
  end.

(** [DELETE /payment-methods/:methodId]. *)
Definition remove_route (ws : gmap UserId WalletDoc) (userId : UserId)
    (methodId : MethodId) : gmap UserId WalletDoc * Response :=
  match ws !! userId with
  | None => (ws, not_found "Wallet not found")
  | Some wallet =>
      match by_id methodId (paymentMethods wallet) with
      | None => (ws, not_found "Payment method not found")
      | Some (i, paymentMethod) =>
          if isDefault paymentMethod && (1 <? length (paymentMethods wallet))%nat
          then (ws, bad_request
                  "Cannot remove default payment method. Set another as default first.")
          else
            (<[userId := set_paymentMethods (delete i (paymentMethods wallet)) wallet]> ws,
             ok "Payment method removed successfully")
      end
  end.

Inductive MethodOp :=
| OpAdd (userId : UserId) (userRole : Role)
    (type accountNumber accountName : option string) (newId : MethodId)
| OpDefault (userId : UserId) (methodId : MethodId)
| OpRemove (userId : UserId) (methodId : MethodId).

Definition run (ws : gmap UserId WalletDoc) (op : MethodOp)
    : gmap UserId WalletDoc * Response :=
  match op with
  | OpAdd userId userRole type accountNumber accountName newId =>
      add_route ws userId userRole type accountNumber accountName newId
  | OpDefault userId methodId => default_route ws userId methodId
  | OpRemove userId methodId => remove_route ws userId methodId
  end.



End PaymentMethods.

(** ** Reading two states of the wallet collection as a history *)

Module Audit.

(** The later entry records the same movement as the earlier one. *)
Definition same_record (t t' : Transaction) : Prop :=
  tx_type t' = tx_type t /\ amount t' = amount t
  /\ description t' = description t /\ tx_createdAt t' = tx_createdAt t.

(** The later wallet has the earlier one's entries, in their places, and
    possibly more after them. *)
Definition extends (w w' : Wallet) : Prop :=
  userRole w' = userRole w
  /\ exists kept added,
       transactions w' = kept ++ added
       /\ Forall2 same_record (transactions w) kept.

Definition log_kept (ws ws' : gmap UserId Wallet) : Prop :=
  forall u w, ws !! u = Some w -> exists w', ws' !! u = Some w' /\ extends w w'.

End Audit.

(** ** The route table of [routes/rides.js]

    Express tries the routes of a router in the order of their
    registration and hands the request to the first one whose method and
    path pattern match; none of the middlewares and handlers registered
    here passes a request on to a later route. *)

Module Router.

Local Open Scope string_scope.

Inductive Method := GET | POST | PUT.

Global Instance Method_eq_dec : EqDecision Method.
Proof. solve_decision. Defined.

Inductive Segment :=
| Lit (s : string)
| Param (name : string).

Inductive Handler :=
| requestRide | findNearbyDrivers | getNearbyRequests | getActiveRide | getMyRides
| updateDriverLocation | acceptRide | startRide | completeRide | cancelRide | getRide
| testNearbyDrivers | testUser | testRideRequests | testDistance
| getRiderLocation | getDriverLocation | rateRide | getRiderInfo.

Global Instance Handler_eq_dec : EqDecision Handler.
Proof. solve_decision. Defined.

Record Route := mkRoute {
  line : nat;
  method : Method;
  pattern : list Segment;
  protect : bool;
  authorize : option Role;
  handler : Handler
}.

Definition routes : list Route :=
  [ mkRoute 1086 POST [Lit "request"] true None requestRide;
    mkRoute 1087 GET [Lit "nearby-drivers"] true None findNearbyDrivers;
    mkRoute 1088 GET [Lit "nearby-requests"] true (Some role_driver) getNearbyRequests;
    mkRoute 1089 GET [Lit "active"] true None getActiveRide;
    mkRoute 1090 GET [Lit "my-rides"] true None getMyRides;
    mkRoute 1093 PUT [Param "id"; Lit "driver-location"] true (Some role_driver)
      updateDriverLocation;
    mkRoute 1094 PUT [Param "id"; Lit "accept"] true (Some role_driver) acceptRide;
    mkRoute 1095 PUT [Param "id"; Lit "start"] true (Some role_driver) startRide;
    mkRoute 1096 PUT [Param "id"; Lit "complete"] true (Some role_driver) completeRide;
    mkRoute 1097 PUT [Param "id"; Lit "cancel"] true None cancelRide;
    mkRoute 1098 GET [Param "id"] true None getRide;
    mkRoute 1101 GET [Lit "test-nearby-drivers"] false None testNearbyDrivers;
    mkRoute 1104 GET [Lit "nearby"] true (Some role_driver) getNearbyRequests;
    mkRoute 1107 GET [Lit "test-user"] true None testUser;
    mkRoute 1135 GET [Lit "test-ride-requests"] false None testRideRequests;
    mkRoute 1157 POST [Lit "test-distance"] false None testDistance;
    mkRoute 1264 GET [Param "id"; Lit "rider-location"] true None getRiderLocation;
    mkRoute 1337 GET [Param "id"; Lit "driver-location"] true None getDriverLocation;
    mkRoute 1532 POST [Param "id"; Lit "rate"] true None rateRide;
    mkRoute 1533 GET [Param "id"; Lit "rider-info"] true (Some role_driver) getRiderInfo ].

(** Route paths are matched without regard to letter case. *)
Definition lower_ascii (c : Ascii.ascii) : Ascii.ascii :=
  let n := Ascii.nat_of_ascii c in
  if ((65 <=? n) && (n <=? 90))%nat then Ascii.ascii_of_nat (n + 32) else c.

Fixpoint lower (s : string) : string :=
  match s with
  | EmptyString => EmptyString
  | String c s => String (lower_ascii c) (lower s)
  end.

(** A literal matches its own text; a parameter matches any segment
    that is not empty. *)
Definition segment_matches (p : Segment) (s : string) : bool :=
  match p with
  | Lit l => bool_decide (lower s = lower l)
  | Param _ => negb (bool_decide (s = EmptyString))
  end.

Fixpoint path_matches (p : list Segment) (path : list string) : bool :=
  match p, path with
  | [], [] => true
  | seg :: p, s :: path => segment_matches seg s && path_matches p path
  | _, _ => false
  end.

Definition route_matches (m : Method) (path : list string) (r : Route) : bool :=
  bool_decide (method r = m) && path_matches (pattern r) path.

(** The route that serves a request, if any. *)
Definition dispatch (m : Method) (path : list string) : option Route :=
  snd <$> list_find (fun r => route_matches m path r = true) routes.

End Router.

(** ** More sample data *)

Module Scenes.

Import Samples.
Local Open Scope string_scope.

(** The ride of [db_pending] once driver 2 has accepted it at 100. *)
Definition ride_accepted : Ride :=
  updateStatus accepted None 100 (set_driver 2 (sample_ride 1 None pending pm_cash 0)).

Definition db_taken : DB :=
  mkDB {[ 1%positive := ride_accepted ]}
       (<[ 2%positive := sample_user role_driver false ]> sample_users)
       ∅.

(** Driver 2 is on the way with rider 1, who pays from the wallet. *)
Definition ride_in_progress : Ride :=
  mkRide 1 (Some 2%positive) in_progress sample_trip pm_wallet pay_pending None None 0
    (Some 100) (Some 200) None None None None.

Definition db_in_progress : DB :=
  mkDB {[ 1%positive := ride_in_progress ]}
       (<[ 2%positive := sample_user role_driver false ]> sample_users)
       (wallets db_funded).

(** A ride of eleven and a half minutes. *)
Definition ride_done : Ride :=
  mkRide 1 (Some 2%positive) completed sample_trip pm_cash pay_completed None None 0
    (Some 100) (Some 200) (Some 690200) None None None.

(** Riders 1 and 4 each wait for a driver. *)
Definition db_two_pending : DB :=
  mkDB (<[ 1%positive := sample_ride 1 None pending pm_cash 0 ]>
          {[ 2%positive := sample_ride 4 None pending pm_cash 0 ]})
       sample_users ∅.


(** Three entries, not stored in the order of their dates. *)
Definition wallet_three : Wallet :=
  mkWallet role_rider 10 true
    [mkTx deposit 5 tx_completed "first" ∅ 10 (Some 11);
     mkTx deposit 7 tx_completed "third" ∅ 30 (Some 31);
     mkTx withdrawal 2 tx_completed "second" ∅ 20 (Some 21)].

Definition ws_three : gmap UserId Wallet := {[ 1%positive := wallet_three ]}.

Definition db_three : DB := mkDB ∅ sample_users ws_three.


End Scenes.

(** * Properties *)

Import Samples.

(** * Distance *)

Section Distance.

Local Open Scope R_scope.

Lemma PI_bounds : 3.14 < PI < 3.15.
Proof.
pose proof (PI_2_3_7_ineq 1) as H.
unfold PI_2_3_7_tg, tg_alt, Ratan_seq in H. simpl in H.
lra.
Qed.

Lemma sin_lower (x : R) : 0 <= x <= 4 -> x - x ^ 3 / 6 <= sin x.
Proof.
intros [H0 H4]. destruct (pre_sin_bound x 0 H0 H4) as [Hl _].
unfold sin_approx, sin_term in Hl. simpl in Hl. lra.
Qed.

Lemma cos_lower (x : R) : -2 <= x <= 2 -> 1 - x ^ 2 / 2 <= cos x.
Proof.
intros [H0 H4]. destruct (pre_cos_bound x 0 H0 H4) as [Hl _].
unfold cos_approx, cos_term in Hl. simpl in Hl. lra.
Qed.

Lemma sin_upper (x : R) : 0 <= x -> sin x <= x.
Proof.
intros [H | <-]; [left; by apply sin_lt_x | rewrite sin_0; lra].
Qed.

(** [atan t] lies above any angle whose tangent lies below [t]. *)
Lemma atan_lower (u t : R) :
0 < u < 1 -> u <= t * (1 - u ^ 2 / 2) -> u <= atan t.
Proof.
intros [Hu0 Hu1] Ht.
assert (Hpi : u < PI / 2) by (pose proof PI2_1; lra).
assert (Hc : 1 - u ^ 2 / 2 <= cos u) by (apply cos_lower; lra).
assert (Hcpos : 0 < 1 - u ^ 2 / 2) by nra.
assert (Hs : sin u < u) by (by apply sin_lt_x).
assert (Htpos : 0 < t) by nra.
assert (Htan : tan u < t).
{ unfold tan. apply (Rmult_lt_reg_r (cos u)); [lra|].
  unfold Rdiv. rewrite Rmult_assoc, Rinv_l by lra. 
  apply Rlt_le_trans with u; [lra|].
  apply Rle_trans with (t * (1 - u ^ 2 / 2)); [lra|].
  apply Rmult_le_compat_l; lra. }
rewrite <- (atan_tan u) by lra.
left. by apply atan_increasing.
Qed.

(** [atan t] lies below any angle whose sine lies above [t]. *)
Lemma atan_upper (u t : R) :
0 < u < 1 -> 0 <= t -> t < u - u ^ 3 / 6 -> atan t <= u.
Proof.
intros [Hu0 Hu1] Ht0 Ht.
assert (Hpi : u < PI / 2) by (pose proof PI2_1; lra).
assert (Hs : u - u ^ 3 / 6 <= sin u) by (apply sin_lower; lra).
assert (Hc : 0 < cos u) by (apply cos_gt_0; lra).
assert (Hc1 : cos u <= 1) by apply COS_bound.
assert (Htan : t < tan u).
{ unfold tan. apply (Rmult_lt_reg_r (cos u)); [lra|].
  unfold Rdiv. rewrite Rmult_assoc, Rinv_l by lra.
  apply Rle_lt_trans with t; [|lra].
  rewrite <- (Rmult_1_r t) at 2. apply Rmult_le_compat_l; lra. }
rewrite <- (atan_tan u) by lra.
left. by apply atan_increasing.
Qed.

Lemma atan2_pos_x (y x : R) : 0 < x -> Geo.atan2 y x = atan (y / x).
Proof. intros Hx. unfold Geo.atan2. by destruct (Rlt_dec 0 x). Qed.

Lemma example_distance_bounds :
exists d, Geo.calculateDistance yaounde_a yaounde_b = Some d /\
          1.5543 <= d <= 1.5857.
Proof.
eexists; split; [reflexivity|].
pose proof PI_bounds as [Hpl Hpu].
replace ((3.8580 - 3.8480) * PI / 180 / 2) with (PI / 36000) by lra.
replace ((11.5274 - 11.5174) * PI / 180 / 2) with (PI / 36000) by lra.
set (x := PI / 36000).
set (c1 := cos (3.8480 * PI / 180)). set (c2 := cos (3.8580 * PI / 180)).
set (s := sin x).
set (a := s * s + c1 * c2 * s * s).
assert (Hx : 0.0000872 < x < 0.0000875) by (unfold x; lra).
assert (Hs : 0.00008719 <= s <= 0.0000875).
{ split.
  - apply Rle_trans with (x - x ^ 3 / 6); [nra | apply sin_lower; lra].
  - apply Rle_trans with x; [apply sin_upper; lra | lra]. }
assert (Hc1 : 0.9977 <= c1 <= 1).
{ split; [|apply COS_bound].
  apply Rle_trans with (1 - (3.8480 * PI / 180) ^ 2 / 2);
    [nra | apply cos_lower; lra]. }
assert (Hc2 : 0.9977 <= c2 <= 1).
{ split; [|apply COS_bound].
  apply Rle_trans with (1 - (3.8580 * PI / 180) ^ 2 / 2);
    [nra | apply cos_lower; lra]. }
assert (Hss : 0.0000000076 <= s * s <= 0.00000000766) by nra.
assert (Hcc : 0.995 <= c1 * c2 <= 1) by nra.
assert (Ha : 0.00000001516 <= a <= 0.00000001532).
{ unfold a. replace (s * s + c1 * c2 * s * s) with ((s * s) * (1 + c1 * c2)) by ring.
  nra. }
assert (Hsa : 0.0001231 <= sqrt a <= 0.0001238).
{ split.
  - rewrite <- (sqrt_pow2 0.0001231) by lra. apply sqrt_le_1_alt. lra.
  - rewrite <- (sqrt_pow2 0.0001238) by lra. apply sqrt_le_1_alt. lra. }
assert (Hs1 : 0.9999999 <= sqrt (1 - a) <= 1).
{ split.
  - rewrite <- (sqrt_pow2 0.9999999) by lra. apply sqrt_le_1_alt. lra.
  - apply Rle_trans with (sqrt 1); [apply sqrt_le_1_alt; lra | rewrite sqrt_1; lra]. }
rewrite atan2_pos_x by lra.
set (t := sqrt a / sqrt (1 - a)).
assert (Ht : 0.0001231 <= t <= 0.00012381).
{ unfold t. split.
  - apply (Rmult_le_reg_r (sqrt (1 - a))); [lra|].
    unfold Rdiv. rewrite Rmult_assoc, Rinv_l by lra. nra.
  - apply (Rmult_le_reg_r (sqrt (1 - a))); [lra|].
    unfold Rdiv. rewrite Rmult_assoc, Rinv_l by lra. nra. }
assert (Hlo : 0.000123 <= atan t) by (apply atan_lower; [lra | nra]).
assert (Hhi : atan t <= 0.000124) by (apply atan_upper; [lra | lra | nra]).
unfold Geo.R_earth. lra.
Qed.

(** The quantity under the square root is a haversine: it lies in [0, 1]. *)
Lemma hav_range (p1 p2 dl : R) :
0 <= sin ((p2 - p1) / 2) * sin ((p2 - p1) / 2) +
     cos p1 * cos p2 * sin (dl / 2) * sin (dl / 2) <= 1.
Proof.
set (m := (p1 + p2) / 2). set (h := (p2 - p1) / 2).
assert (Hc : cos p1 * cos p2
             = (cos m * cos h + sin m * sin h) * (cos m * cos h - sin m * sin h)).
{ rewrite <- cos_minus, <- cos_plus. unfold m, h. f_equal; f_equal; lra. }
rewrite Hc.
pose proof (sin2_cos2 m) as Hm. pose proof (sin2_cos2 h) as Hh.
pose proof (sin2_cos2 (dl / 2)) as Hd. unfold Rsqr in *.
set (sm := sin m) in *. set (cm := cos m) in *.
set (sh := sin h) in *. set (ch := cos h) in *.
set (sd := sin (dl / 2)) in *. set (cd := cos (dl / 2)) in *.
assert (E : sh * sh + (cm * ch + sm * sh) * (cm * ch - sm * sh) * sd * sd
            = (sh * sh) * (cd * cd) + (cm * cm) * (sd * sd)).
{ replace (cd * cd) with (1 - sd * sd) by lra.
  transitivity (sh * sh + ((cm * cm) * (ch * ch) - (sm * sm) * (sh * sh)) * (sd * sd));
    [ring|].
  replace (ch * ch) with (1 - sh * sh) by lra.
  replace (sm * sm) with (1 - cm * cm) by lra. ring. }
rewrite E.
assert (0 <= sh * sh <= 1) by nra. assert (0 <= cm * cm <= 1) by nra.
assert (0 <= sd * sd <= 1) by nra. assert (0 <= cd * cd <= 1) by nra.
replace (cd * cd) with (1 - sd * sd) by lra.
nra.
Qed.

Lemma atan2_sqrt_asin (a : R) :
0 <= a <= 1 -> Geo.atan2 (sqrt a) (sqrt (1 - a)) = asin (sqrt a).
Proof.
intros [H0 H1]. destruct (Rle_lt_or_eq_dec a 1 H1) as [Hlt | ->].
- assert (Hs : 0 < sqrt (1 - a)) by (apply sqrt_lt_R0; lra).
  rewrite atan2_pos_x by done.
  assert (Hsa : 0 <= sqrt a < 1).
  { split; [apply sqrt_pos|]. rewrite <- sqrt_1 at 1. apply sqrt_lt_1_alt. lra. }
  rewrite asin_atan by lra. by rewrite Rsqr_sqrt.
- replace (1 - 1) with 0 by lra. rewrite sqrt_0, sqrt_1, asin_1.
  unfold Geo.atan2. destruct (Rlt_dec 0 0); [lra|].
  destruct (Rlt_dec 0 1); [done | lra].
Qed.

Lemma calculateDistance_haversine (lon1 lat1 lon2 lat2 : R) :
Geo.calculateDistance [lon1; lat1] [lon2; lat2]
= Some (Geo.haversine 6371 lon1 lat1 lon2 lat2).
Proof.
unfold Geo.calculateDistance, Geo.haversine, Geo.hav, Geo.R_earth, Rsqr.
f_equal.
replace ((lat2 - lat1) * PI / 180 / 2) with ((lat2 * PI / 180 - lat1 * PI / 180) / 2) by lra.
replace ((lon2 - lon1) * PI / 180 / 2) with ((lon2 * PI / 180 - lon1 * PI / 180) / 2) by lra.
set (p1 := lat1 * PI / 180). set (p2 := lat2 * PI / 180).
set (dl := lon2 * PI / 180 - lon1 * PI / 180).
pose proof (hav_range p1 p2 dl) as Hr.
rewrite atan2_sqrt_asin by done.
replace (cos p1 * cos p2 * (sin (dl / 2) * sin (dl / 2)))
  with (cos p1 * cos p2 * sin (dl / 2) * sin (dl / 2)) by ring.
ring.
Qed.

(** C9, the example as stated: the distance the function computes between
  the two sample points lies above 1.48 km by more than 1%. *)
Lemma example_distance_not_1_48 :
exists d, Geo.calculateDistance yaounde_a yaounde_b = Some d
          /\ 1.48 + 1.48 / 100 < d.
Proof.
destruct example_distance_bounds as (d & Hd & Hlo & _).
exists d. split; [done | lra].
Qed.

(** C9 (amended). [calculateDistance] is the haversine great-circle
  distance with Earth radius 6371 km on [[longitude, latitude]] points,
  and between (11.5174, 3.8480) and (11.5274, 3.8580) it is within 1% of
  1.57 km. *)
Theorem distance_is_haversine :
(forall lon1 lat1 lon2 lat2 : R,
    Geo.calculateDistance [lon1; lat1] [lon2; lat2]
    = Some (Geo.haversine 6371 lon1 lat1 lon2 lat2))
/\ exists d, Geo.calculateDistance yaounde_a yaounde_b = Some d
             /\ Rabs (d - 1.57) <= 1.57 / 100.
Proof.
split; [apply calculateDistance_haversine|].
destruct example_distance_bounds as (d & Hd & Hlo & Hhi).
exists d. split; [done|]. apply Rabs_le. lra.
Qed.

End Distance.

(** * Fare, and rides without a driver *)

(** C8. The fare is a function of distance and duration alone:
    total = 500 + distance * 200 + duration * 10; [requestRide] derives the
    duration as the ceiling of three times the distance and charges the same
    rates; and the fare of 2.5 km and 15 minutes is 1150. *)
Theorem fare_formula :
  (forall dist dur : Number,
     (Fare.total (Fare.calculateFare dist dur) == 500 + dist * 200 + dur * 10)%Q)
  /\ (forall dist : Number,
        Fare.requestFare dist
        = (Fare.estimateDuration dist,
           Fare.calculateFare dist (Fare.estimateDuration dist)))
  /\ (forall dist : Number,
        exists n : Z,
          Fare.estimateDuration dist = inject_Z n /\
          (inject_Z (n - 1) < dist * 3)%Q /\ (dist * 3 <= inject_Z n)%Q)
  /\ (Fare.total (Fare.calculateFare 2.5 15) == 1150)%Q.
Proof.
  split; [|split; [|split]].
  - intros dist dur. unfold Fare.calculateFare, Fare.baseFare, Fare.perKmRate,
      Fare.perMinuteRate. simpl. reflexivity.
  - reflexivity.
  - intros dist. exists (Qceiling (dist * 3)). split; [reflexivity|]. split.
    + apply Qceiling_lt.
    + apply Qle_ceiling.
  - reflexivity.
Qed.

(** C10. On a ride with no driver assigned, [startRide] and [completeRide]
    fail with the handler's generic 500 answer (the dereference of the absent
    driver precedes the status guard) and leave the store unchanged. *)
Theorem driverless_start_complete (db : DB) (rideId : RideId) (userId : UserId)
    (now : Date) (fault : option nat) (ride : Ride) :
  rides db !! rideId = Some ride ->
  driver ride = None ->
  Rides.startRide db rideId userId now = (db, server_error "Failed to start ride")
  /\ Rides.completeRide fault db rideId userId now
     = (db, server_error "Failed to complete ride").
Proof.
  intros Hride Hdrv. unfold Rides.startRide, Rides.completeRide.
  by rewrite Hride, Hdrv.
Qed.

Lemma driverless_start_complete_witness :
  Rides.startRide db_pending 1 2 100 = (db_pending, server_error "Failed to start ride")
  /\ Rides.completeRide None db_pending 1 2 100
     = (db_pending, server_error "Failed to complete ride").
Proof.
  apply (driverless_start_complete db_pending 1 2 100 None
           (sample_ride 1 None pending pm_cash 0)); reflexivity.
Defined.

(** * Acceptance *)

(** C1, as stated: two accept calls whose steps interleave on one pending
    ride both answer 200; the ride keeps the driver of the later save and
    both drivers are marked unavailable. *)
Lemma racing_accepts_both_succeed :
  let '(db', pool) :=
    Rides.run_schedule db_pending racing_calls [0; 1; 0; 1; 0; 1; 0; 1]%nat in
  Rides.call_result <$> pool = [Some Rides.accepted_ok; Some Rides.accepted_ok]
  /\ status <$> rides db' !! 1%positive = Some accepted
  /\ driver <$> rides db' !! 1%positive = Some (Some 3%positive)
  /\ isAvailable <$> users db' !! 2%positive = Some false
  /\ isAvailable <$> users db' !! 3%positive = Some false.
Proof. vm_compute. done. Qed.

(** The four steps always bring a call to its answer. *)
Lemma acceptRide_completes (db : DB) (rideId : RideId) (userId : UserId) (now : Date) :
  exists res, snd (Rides.accept_run 4 rideId userId now db Rides.AcceptStart)
              = Rides.AcceptDone res.
Proof.
  simpl. destruct (rides db !! rideId) as [r|] eqn:Hr; simpl; [|eauto].
  destruct (bool_decide (status r = pending)); simpl; [|eauto].
  destruct (users db !! userId) as [u|] eqn:Hu; simpl; [|eauto].
  destruct (isAvailable u); simpl; [|eauto].
  rewrite Hr. simpl. rewrite Hu. simpl. eauto.
Qed.

Lemma accept_pending (db : DB) (rideId : RideId) (userId : UserId) (now : Date)
    (ride : Ride) (u : User) :
  rides db !! rideId = Some ride ->
  status ride = pending ->
  users db !! userId = Some u ->
  isAvailable u = true ->
  Rides.acceptRide db rideId userId now
  = (set_users (<[userId := set_isAvailable false u]> (users db))
       (set_rides (<[rideId := updateStatus accepted None now (set_driver userId ride)]>
                     (rides db)) db),
     Rides.accepted_ok).
Proof.
  intros Hr Hs Hu Ha. unfold Rides.acceptRide. simpl.
  rewrite Hr. simpl. rewrite (bool_decide_eq_true_2 _ Hs). simpl.
  rewrite Hu. simpl. rewrite Ha. simpl. rewrite Hr. simpl. by rewrite Hu.
Qed.

Lemma accept_not_pending (db : DB) (rideId : RideId) (userId : UserId) (now : Date)
    (ride : Ride) :
  rides db !! rideId = Some ride ->
  status ride <> pending ->
  Rides.acceptRide db rideId userId now = (db, Rides.no_longer_available).
Proof.
  intros Hr Hs. unfold Rides.acceptRide. simpl.
  rewrite Hr. simpl. by rewrite (bool_decide_eq_false_2 _ Hs).
Qed.

Lemma accept_all_not_pending (db : DB) (rideId : RideId) (ride : Ride)
    (calls : list Rides.AcceptCall) :
  rides db !! rideId = Some ride ->
  status ride <> pending ->
  Forall (fun c => Rides.call_ride c = rideId) calls ->
  Rides.accept_all db calls = (db, (fun _ => Rides.no_longer_available) <$> calls).
Proof.
  intros Hr Hs. induction 1 as [|c calls Hc _ IH]; [done|].
  simpl. rewrite Hc, (accept_not_pending _ _ _ _ _ Hr Hs), IH. done.
Qed.

(** C1 (amended). When accept calls on one pending ride run one after the
    other, the first call, made by an available driver, succeeds, sets the
    status to accepted, assigns that driver and marks them unavailable;
    every later call fails with "Ride is not available for acceptance" and
    changes nothing: the store after the whole sequence is the store the
    first call left. *)
Theorem accept_one_after_the_other (db : DB) (rideId : RideId) (ride : Ride)
    (first : Rides.AcceptCall) (later : list Rides.AcceptCall) (u : User) :
  rides db !! rideId = Some ride ->
  status ride = pending ->
  Rides.call_ride first = rideId ->
  users db !! Rides.call_driver first = Some u ->
  isAvailable u = true ->
  Forall (fun c => Rides.call_ride c = rideId) later ->
  let ride' :=
    updateStatus accepted None (Rides.call_now first)
      (set_driver (Rides.call_driver first) ride) in
  let db' :=
    set_users (<[Rides.call_driver first := set_isAvailable false u]> (users db))
      (set_rides (<[rideId := ride']> (rides db)) db) in
  Rides.acceptRide db rideId (Rides.call_driver first) (Rides.call_now first)
  = (db', Rides.accepted_ok)
  /\ Forall (fun c =>
              Rides.acceptRide db' (Rides.call_ride c) (Rides.call_driver c)
                (Rides.call_now c)
              = (db', Rides.no_longer_available)) later
  /\ Rides.accept_all db (first :: later)
     = (db', Rides.accepted_ok :: ((fun _ => Rides.no_longer_available) <$> later))
  /\ rides db' !! rideId = Some ride'
  /\ status ride' = accepted
  /\ driver ride' = Some (Rides.call_driver first)
  /\ acceptedAt ride' = Some (Rides.call_now first)
  /\ isAvailable <$> users db' !! Rides.call_driver first = Some false.
Proof.
  intros Hr Hs Hc Hu Ha Hlater ride' db'.
  assert (Hr' : rides db' !! rideId = Some ride') by apply lookup_insert_eq.
  assert (Hs' : status ride' <> pending) by done.
  split; [by apply accept_pending|].
  split.
  { eapply Forall_impl; [exact Hlater|]. intros c Hcall. simpl in Hcall.
    rewrite Hcall. by apply accept_not_pending with ride'. }
  split.
  { simpl. rewrite Hc, (accept_pending _ _ _ _ _ _ Hr Hs Hu Ha).
    fold ride' db'. by rewrite (accept_all_not_pending _ _ _ _ Hr' Hs' Hlater). }
  repeat split; try done.
  subst db'. simpl. by rewrite lookup_insert_eq.
Qed.

Lemma accept_one_after_the_other_witness :
  Rides.accept_all db_pending racing_calls
  = (set_users (<[2%positive := set_isAvailable false (sample_user role_driver true)]>
                  (users db_pending))
       (set_rides
          (<[1%positive := updateStatus accepted None 100
                             (set_driver 2 (sample_ride 1 None pending pm_cash 0))]>
             (rides db_pending))
          db_pending),
     [Rides.accepted_ok; Rides.no_longer_available]).
Proof.
  apply (accept_one_after_the_other db_pending 1 (sample_ride 1 None pending pm_cash 0)
           (Rides.mkAcceptCall 1 2 100) [Rides.mkAcceptCall 1 3 101]
           (sample_user role_driver true));
    try reflexivity.
  repeat constructor.
Defined.

(** * Cancellation and driver availability *)

Lemma is_active_cases (s : RideStatus) :
  Rides.is_active s = true -> s <> completed /\ s <> cancelled.
Proof. by destruct s. Qed.

(** C5, as stated: the rider cancels an accepted ride; the cancel succeeds
    and the assigned driver stays unavailable. *)
Lemma rider_cancel_leaves_driver_unavailable :
  let '(db', res) := Rides.cancelRide db_accepted 1 1 None 1000 in
  succeeded res = true
  /\ status <$> rides db' !! 1%positive = Some cancelled
  /\ driver <$> rides db' !! 1%positive = Some (Some 2%positive)
  /\ isAvailable <$> users db' !! 2%positive = Some false.
Proof. vm_compute. done. Qed.

(** C5 (amended). A cancel of a pending, accepted or in-progress ride by
    its rider or its assigned driver succeeds and sets [cancelledAt] and
    [cancelledBy]; the driver is marked available again when the caller is
    the assigned driver, and the users are untouched otherwise.  A successful
    accept marks the accepting driver unavailable, a successful complete
    marks the completing driver available, and a driver's
    [toggleAvailability] flips the flag at any moment. *)
Theorem cancel_and_availability (db : DB) (rideId : RideId) (userId : UserId)
    (reason : option string) (now : Date) (fault : option nat) (ride : Ride) :
  rides db !! rideId = Some ride ->
  Rides.is_active (status ride) = true ->
  rider ride = userId \/ driver ride = Some userId ->
  (driver ride = Some userId -> is_Some (users db !! userId)) ->
  (exists db' ride',
      Rides.cancelRide db rideId userId reason now
      = (db', ok "Ride cancelled successfully")
      /\ rides db' !! rideId = Some ride'
      /\ status ride' = cancelled
      /\ cancelledAt ride' = Some now
      /\ cancelledBy ride'
         = Some (if decide (rider ride = userId) then by_rider else by_driver)
      /\ (driver ride = Some userId ->
          isAvailable <$> users db' !! userId = Some true)
      /\ (driver ride <> Some userId -> users db' = users db))
  /\ (forall db' res d,
        Rides.acceptRide db d userId now = (db', res) ->
        succeeded res = true ->
        isAvailable <$> users db' !! userId = Some false)
  /\ (forall db' res d,
        Rides.completeRide fault db d userId now = (db', res) ->
        succeeded res = true ->
        isAvailable <$> users db' !! userId = Some true)
  /\ (forall u,
        users db !! userId = Some u ->
        role u = role_driver ->
        isAvailable <$> users (fst (Drivers.toggleAvailability db userId)) !! userId
        = Some (negb (isAvailable u))).
Proof.
  intros Hride Hact Hcaller Huser. split; [|split; [|split]].
  - unfold Rides.cancelRide. rewrite Hride.
    apply is_active_cases in Hact as [Hc1 Hc2].
    rewrite (bool_decide_eq_false_2 _ Hc1), (bool_decide_eq_false_2 _ Hc2). simpl.
    destruct (decide (driver ride = Some userId)) as [Hd | Hd].
    + rewrite (bool_decide_eq_true_2 _ Hd). rewrite andb_false_r.
      destruct (Huser Hd) as [u Hu]. simpl. rewrite Hu.
      eexists _, _. split; [reflexivity|]. simpl.
      rewrite lookup_insert_eq. repeat split; try done.
      * simpl. by destruct (decide (rider ride = userId)) as [e|e];
          [rewrite (bool_decide_eq_true_2 _ e) | rewrite (bool_decide_eq_false_2 _ e)].
      * intros _. by rewrite lookup_insert_eq.
    + rewrite (bool_decide_eq_false_2 _ Hd).
      destruct Hcaller as [Hr | Hr]; [|done].
      rewrite (bool_decide_eq_true_2 _ Hr). simpl.
      eexists _, _. split; [reflexivity|]. simpl.
      rewrite lookup_insert_eq. repeat split; try done.
      simpl. by destruct (decide (rider ride = userId)).
  - intros db' res d. unfold Rides.acceptRide. simpl.
    destruct (rides db !! d) as [r|] eqn:Hr; simpl.
    2:{ intros [= <- <-]. done. }
    destruct (bool_decide (status r = pending)); simpl.
    2:{ intros [= <- <-]. done. }
    destruct (users db !! userId) as [u|] eqn:Hu; simpl.
    2:{ intros [= <- <-]. done. }
    destruct (isAvailable u); simpl.
    2:{ intros [= <- <-]. done. }
    rewrite Hr. simpl. rewrite Hu. intros [= <- <-] _. simpl.
    by rewrite lookup_insert_eq.
  - intros db' res d. unfold Rides.completeRide.
    destruct (rides db !! d) as [r|] eqn:Hr.
    2:{ intros [= <- <-]. done. }
    destruct (driver r) as [dr|].
    2:{ intros [= <- <-]. done. }
    destruct (bool_decide (dr = userId)); simpl.
    2:{ intros [= <- <-]. done. }
    destruct (bool_decide (status r = in_progress)); simpl.
    2:{ intros [= <- <-]. done. }
    destruct (bool_decide _).
    + destruct (Wallets.transferFunds _ _ _ _ _ _ _) as [ws [e|bal]]; simpl;
        (destruct (users db !! userId) as [u|] eqn:Hu;
         [ intros [= <- <-] _; simpl; by rewrite lookup_insert_eq
         | intros [= <- <-]; done ]).
    + simpl. destruct (users db !! userId) as [u|] eqn:Hu.
      * intros [= <- <-] _. simpl. by rewrite lookup_insert_eq.
      * intros [= <- <-]. done.
  - intros u Hu Hrole. unfold Drivers.toggleAvailability.
    rewrite Hu, (bool_decide_eq_true_2 _ Hrole). simpl.
    by rewrite lookup_insert_eq.
Qed.

Lemma cancel_and_availability_witness :
  exists db' ride',
    Rides.cancelRide db_accepted 1 2 (Some "changed plans") 500
    = (db', ok "Ride cancelled successfully")
    /\ rides db' !! 1%positive = Some ride'
    /\ status ride' = cancelled
    /\ cancelledAt ride' = Some 500
    /\ cancelledBy ride' = Some by_driver
    /\ isAvailable <$> users db' !! 2%positive = Some true.
Proof.
  destruct (cancel_and_availability db_accepted 1 2 (Some "changed plans") 500 None
              (sample_ride 1 (Some 2%positive) accepted pm_cash 0))
    as [(db' & ride' & Hrun & Hride & Hst & Hat & Hby & Havail & _) _].
  - reflexivity.
  - reflexivity.
  - right. reflexivity.
  - intros _. vm_compute. eauto.
  - exists db', ride'. repeat split; try done. by apply Havail.
Defined.

(** * Ride records are kept *)

Lemma set_rides_id (db : DB) : set_rides (rides db) db = db.
Proof. by destruct db. Qed.

Lemma deleteStale_lookup (userId : UserId) (now : Date) (rs : gmap RideId Ride) (i : RideId) :
  Rides.deleteStale userId now rs !! i
  = r ← rs !! i; if Rides.stale_pending userId now r then None else Some r.
Proof.
  unfold Rides.deleteStale. destruct (rs !! i) as [r|] eqn:Hi; simpl.
  - destruct (Rides.stale_pending userId now r) eqn:Hs.
    + apply map_lookup_filter_None. right. intros r' Hr'. simpl.
      rewrite Hi in Hr'. injection Hr' as <-. congruence.
    + apply map_lookup_filter_Some. done.
  - apply map_lookup_filter_None. by left.
Qed.

Lemma deleteStale_none (userId : UserId) (now : Date) (rs : gmap RideId Ride) :
  filter (fun p : RideId * Ride => Rides.stale_pending userId now (snd p) = true) rs = ∅ ->
  Rides.deleteStale userId now rs = rs.
Proof.
  intros He. apply map_eq. intros i. rewrite deleteStale_lookup.
  destruct (rs !! i) as [r|] eqn:Hi; [|done]. simpl.
  destruct (Rides.stale_pending userId now r) eqn:Hs; [|done].
  assert (Hin : filter (fun p : RideId * Ride =>
                  Rides.stale_pending userId now (snd p) = true) rs !! i = Some r)
    by (by apply map_lookup_filter_Some).
  rewrite He in Hin. by rewrite lookup_empty in Hin.
Qed.

(** What [requestRide] leaves in the ride collection: the collection after
    the clean-up, with at most the new ride added. *)
Lemma requestRide_rides calc (db : DB) (userId : UserId) (body : Rides.RideRequest)
    (now : Date) (newId : RideId) :
  let kept :=
    match Rides.req_pickup body, Rides.req_destination body with
    | Some _, Some _ => Rides.deleteStale userId now (rides db)
    | _, _ => rides db
    end in
  let db' := fst (Rides.requestRide calc db userId body now newId) in
  rides db' = kept \/ exists ride, rides db' = <[newId := ride]> kept.
Proof.
  unfold Rides.requestRide.
  destruct (Rides.req_pickup body) as [pickup|]; [|by left].
  destruct (Rides.req_destination body) as [destination|]; [|by left].
  set (stale := filter _ (rides db)).
  assert (Hclean : rides (if decide (stale = ∅) then db
                          else set_rides (Rides.deleteStale userId now (rides db)) db)
                   = Rides.deleteStale userId now (rides db)).
  { destruct (decide (stale = ∅)) as [He|]; [|done]. by rewrite deleteStale_none. }
  revert Hclean. generalize (if decide (stale = ∅) then db
       else set_rides (Rides.deleteStale userId now (rides db)) db).
  intros db1 <-. cbv zeta.
  repeat case_match; simpl; eauto.
Qed.

(** C6, as stated: a request made six minutes after an unanswered one
    deletes the earlier ride record of the same rider. *)
Lemma request_deletes_stale_ride :
  let '(db', res) :=
    Rides.requestRide sample_distance db_stale 1 sample_request 360000 2 in
  rides db_stale !! 1%positive = Some (sample_ride 1 None pending pm_cash 0)
  /\ succeeded res = true
  /\ rides db' !! 1%positive = None
  /\ is_Some (rides db' !! 2%positive).
Proof. vm_compute. repeat split; eauto. Qed.

Lemma accept_keeps_rides (db : DB) (rideId : RideId) (userId : UserId) (now : Date) :
  dom (rides (fst (Rides.acceptRide db rideId userId now))) = dom (rides db).
Proof.
  unfold Rides.acceptRide. simpl.
  destruct (rides db !! rideId) as [r|] eqn:Hr; simpl; [|done].
  destruct (bool_decide (status r = pending)); simpl; [|done].
  destruct (users db !! userId) as [u|] eqn:Hu; simpl; [|done].
  destruct (isAvailable u); simpl; [|done].
  rewrite Hr. simpl. rewrite Hu. simpl. by apply dom_insert_lookup_L.
Qed.

Lemma start_keeps_rides (db : DB) (rideId : RideId) (userId : UserId) (now : Date) :
  dom (rides (fst (Rides.startRide db rideId userId now))) = dom (rides db).
Proof.
  unfold Rides.startRide.
  destruct (rides db !! rideId) as [r|] eqn:Hr; [|done].
  repeat case_match; simpl; try done. by apply dom_insert_lookup_L.
Qed.

Lemma complete_keeps_rides fault (db : DB) (rideId : RideId) (userId : UserId) (now : Date) :
  dom (rides (fst (Rides.completeRide fault db rideId userId now))) = dom (rides db).
Proof.
  unfold Rides.completeRide.
  destruct (rides db !! rideId) as [r|] eqn:Hr; [|done].
  destruct (driver r) as [d|]; [|done].
  destruct (bool_decide (d = userId)); simpl; [|done].
  destruct (bool_decide (status r = in_progress)); simpl; [|done].
  destruct (bool_decide _).
  - destruct (Wallets.transferFunds _ _ _ _ _ _ _) as [ws [e|bal]]; simpl;
      destruct (users db !! userId); simpl; rewrite insert_insert_eq;
      by apply dom_insert_lookup_L.
  - simpl. destruct (users db !! userId); simpl; rewrite insert_insert_eq;
      by apply dom_insert_lookup_L.
Qed.

Lemma cancel_keeps_rides (db : DB) (rideId : RideId) (userId : UserId) reason (now : Date) :
  dom (rides (fst (Rides.cancelRide db rideId userId reason now))) = dom (rides db).
Proof.
  unfold Rides.cancelRide.
  destruct (rides db !! rideId) as [r|] eqn:Hr; [|done].
  repeat case_match; simpl; try done; by apply dom_insert_lookup_L.
Qed.

Lemma rate_keeps_rides (db : DB) (rideId : RideId) (userId : UserId) x comment ratedBy (now : Date) :
  dom (rides (fst (Rides.rateRide db rideId userId x comment ratedBy now))) = dom (rides db).
Proof.
  unfold Rides.rateRide.
  repeat case_match; simpl; try done; by apply dom_insert_lookup_L.
Qed.

(** C6 (amended). [requestRide] deletes exactly the requesting rider's
    pending rides requested more than five minutes before the call (when the
    body names a pickup and a destination) and keeps every other ride record;
    accept, start, complete, cancel and rate delete no ride record. *)
Theorem rides_kept calc (db : DB) (userId : UserId) (body : Rides.RideRequest)
    (now : Date) (newId id : RideId) (r : Ride) (fault : option nat)
    (reason comment : option string) (x : Number) (ratedBy : option Rides.Rater) :
  rides db !! newId = None ->
  rides db !! id = Some r ->
  rides (fst (Rides.requestRide calc db userId body now newId)) !! id
  = (if bool_decide (is_Some (Rides.req_pickup body) /\ is_Some (Rides.req_destination body))
        && Rides.stale_pending userId now r
     then None else Some r)
  /\ dom (rides (fst (Rides.acceptRide db id userId now))) = dom (rides db)
  /\ dom (rides (fst (Rides.startRide db id userId now))) = dom (rides db)
  /\ dom (rides (fst (Rides.completeRide fault db id userId now))) = dom (rides db)
  /\ dom (rides (fst (Rides.cancelRide db id userId reason now))) = dom (rides db)
  /\ dom (rides (fst (Rides.rateRide db id userId x comment ratedBy now))) = dom (rides db).
Proof.
  intros Hnew Hid.
  assert (Hne : id <> newId) by congruence.
  split; [|auto using accept_keeps_rides, start_keeps_rides, complete_keeps_rides,
                     cancel_keeps_rides, rate_keeps_rides].
  pose proof (requestRide_rides calc db userId body now newId) as Hr. simpl in Hr.
  set (kept := match Rides.req_pickup body with Some _ => _ | None => _ end) in Hr.
  assert (Hk : rides (fst (Rides.requestRide calc db userId body now newId)) !! id
               = kept !! id).
  { destruct Hr as [-> | [ride ->]]; [done | by rewrite lookup_insert_ne]. }
  rewrite Hk. unfold kept. clear Hr Hk kept.
  destruct (Rides.req_pickup body) as [p|], (Rides.req_destination body) as [d|].
  - rewrite bool_decide_eq_true_2 by (split; eauto). simpl.
    rewrite deleteStale_lookup, Hid. done.
  - rewrite bool_decide_eq_false_2; [done|]. intros [_ [? ?]]; done.
  - rewrite bool_decide_eq_false_2; [done|]. intros [[? ?] _]; done.
  - rewrite bool_decide_eq_false_2; [done|]. intros [[? ?] _]; done.
Qed.

Lemma rides_kept_witness :
  rides (fst (Rides.requestRide sample_distance db_stale 1 sample_request 360000 2))
    !! 1%positive = None
  /\ rides (fst (Rides.requestRide sample_distance db_stale 1 sample_request 60000 2))
       !! 1%positive = Some (sample_ride 1 None pending pm_cash 0).
Proof.
  split.
  - apply (rides_kept sample_distance db_stale 1 sample_request 360000 2 1
             (sample_ride 1 None pending pm_cash 0) None None None 5 None);
      reflexivity.
  - apply (rides_kept sample_distance db_stale 1 sample_request 60000 2 1
             (sample_ride 1 None pending pm_cash 0) None None None 5 None);
      reflexivity.
Defined.

(** * Ratings *)

(** C7, as stated: the rider rates a completed ride twice; the second
    submission succeeds and replaces the first rating. *)
Lemma second_rating_overwrites :
  let '(db1, res1) := Rides.rateRide db_completed 1 1 5 None (Some Rides.rater_rider) 100 in
  let '(db2, res2) := Rides.rateRide db1 1 1 1 None (Some Rides.rater_rider) 200 in
  succeeded res1 = true
  /\ riderRating <$> rides db1 !! 1%positive = Some (Some (mkRating 5 EmptyString 100))
  /\ succeeded res2 = true
  /\ riderRating <$> rides db2 !! 1%positive = Some (Some (mkRating 1 EmptyString 200)).
Proof. vm_compute. done. Qed.

Lemma bad_rating_false (x : Number) :
  Rides.bad_rating x = false -> (1 <= x)%Q /\ (x <= 5)%Q.
Proof.
  unfold Rides.bad_rating, js_lt. rewrite !orb_false_iff, !negb_false_iff.
  intros [[_ H1] H5]. by rewrite <- !Qle_bool_iff.
Qed.

(** C7 (amended). A rating submission succeeds, or changes a ride, only
    when the ride is completed, the rating lies between 1 and 5 and the
    caller is the matching party (the assigned driver for the driver-side
    rating, the rider for the rider-side rating); it then sets that side's
    sub-record to the submitted rating, whatever was stored before, and
    leaves everything else of the ride and the store as it was. *)
Theorem rating_guard (db db' : DB) (rideId : RideId) (userId : UserId)
    (x : Number) (comment : option string) (ratedBy : option Rides.Rater)
    (now : Date) (res : Response) :
  Rides.rateRide db rideId userId x comment ratedBy now = (db', res) ->
  succeeded res = true \/ rides db' <> rides db ->
  exists ride who,
    ratedBy = Some who
    /\ rides db !! rideId = Some ride
    /\ status ride = completed
    /\ match who with
       | Rides.rater_driver => driver ride = Some userId
       | Rides.rater_rider => rider ride = userId
       end
    /\ (1 <= x)%Q /\ (x <= 5)%Q
    /\ rides db' = <[rideId := Rides.assign_rating who (mkRating x (default EmptyString comment) now) ride]>
                     (rides db)
    /\ users db' = users db /\ wallets db' = wallets db.
Proof.
  unfold Rides.rateRide. intros Hrun Hok.
  assert (Hno : forall m, (db, m) = (db', res) -> succeeded m = false -> False).
  { intros m [= <- <-] Hm. destruct Hok as [Hs | Hr]; [congruence | done]. }
  destruct (Rides.bad_rating x) eqn:Hx; [by (exfalso; eapply Hno; [exact Hrun | reflexivity])|].
  apply bad_rating_false in Hx as [Hx1 Hx5].
  destruct ratedBy as [who|]; [|by (exfalso; eapply Hno; [exact Hrun | reflexivity])].
  destruct (rides db !! rideId) as [ride|] eqn:Hride; [|by (exfalso; eapply Hno; [exact Hrun | reflexivity])].
  destruct (decide (status ride = completed)) as [Hst | Hst].
  2:{ rewrite (bool_decide_eq_false_2 _ Hst) in Hrun. by (exfalso; eapply Hno; [exact Hrun | reflexivity]). }
  rewrite (bool_decide_eq_true_2 _ Hst) in Hrun. simpl in Hrun.
  exists ride, who.
  destruct who; simpl in Hrun.
  - unfold Rides.populated in Hrun. simpl in Hrun.
    destruct (driver ride) as [d|] eqn:Hd; simpl in Hrun; [|by (exfalso; eapply Hno; [exact Hrun | reflexivity])].
    destruct (users db !! d); simpl in Hrun; [|by (exfalso; eapply Hno; [exact Hrun | reflexivity])].
    destruct (decide (d = userId)) as [-> | Hne].
    2:{ rewrite (bool_decide_eq_false_2 _ Hne) in Hrun. by (exfalso; eapply Hno; [exact Hrun | reflexivity]). }
    rewrite (bool_decide_eq_true_2 _ eq_refl) in Hrun.
    destruct (users db !! rider ride); simpl in Hrun;
      injection Hrun as <- <-; by repeat split.
  - unfold Rides.populated in Hrun. simpl in Hrun.
    destruct (users db !! rider ride) eqn:Hu; simpl in Hrun; [|by (exfalso; eapply Hno; [exact Hrun | reflexivity])].
    destruct (decide (rider ride = userId)) as [Hr | Hne].
    2:{ rewrite (bool_decide_eq_false_2 _ Hne) in Hrun. by (exfalso; eapply Hno; [exact Hrun | reflexivity]). }
    rewrite (bool_decide_eq_true_2 _ Hr) in Hrun.
    destruct (driver ride ≫= _); simpl in Hrun;
      injection Hrun as <- <-; by repeat split.
Qed.

Lemma rating_guard_witness :
  exists ride who,
    Some Rides.rater_rider = Some who
    /\ rides db_completed !! 1%positive = Some ride
    /\ status ride = completed
    /\ match who with
       | Rides.rater_driver => driver ride = Some 1%positive
       | Rides.rater_rider => rider ride = 1%positive
       end
    /\ (1 <= 4)%Q /\ (4 <= 5)%Q
    /\ rides (fst (Rides.rateRide db_completed 1 1 4 (Some "smooth ride")
                     (Some Rides.rater_rider) 900))
       = <[1%positive := Rides.assign_rating who (mkRating 4 "smooth ride" 900) ride]>
           (rides db_completed)
    /\ users (fst (Rides.rateRide db_completed 1 1 4 (Some "smooth ride")
                     (Some Rides.rater_rider) 900)) = users db_completed
    /\ wallets (fst (Rides.rateRide db_completed 1 1 4 (Some "smooth ride")
                     (Some Rides.rater_rider) 900)) = wallets db_completed.
Proof.
  apply (rating_guard db_completed _ 1 1 4 (Some "smooth ride") (Some Rides.rater_rider) 900
           (snd (Rides.rateRide db_completed 1 1 4 (Some "smooth ride")
                   (Some Rides.rater_rider) 900))).
  - apply surjective_pairing.
  - left. reflexivity.
Defined.

(** * Transfers *)

(** Inversion of the error monad. *)
Lemma bind_inr {A B} (m : Throws A) (k : A -> Throws B) (b : B) :
  bind m k = inr b -> exists a, m = inr a /\ k a = inr b.
Proof. destruct m as [e|a]; simpl; [done | eauto]. Qed.

Lemma validate_inr (c : bool) (msg : string) (u : unit) :
  validate c msg = inr u -> c = true.
Proof. by destruct c. Qed.

Tactic Notation "invert_bind" hyp(H) "as" simple_intropattern(a) simple_intropattern(Ha) :=
  apply bind_inr in H as (a & Ha & H).

Lemma updateBalance_inr (amt : Number) (ty : TxType) (w w' : Wallet) :
  Wallets.updateBalance amt ty w = inr w' ->
  js_le 0 (balance w') = true
  /\ userRole w' = userRole w /\ wallet_isActive w' = wallet_isActive w
  /\ transactions w' = transactions w
  /\ balance w' = match ty with
                  | deposit | transfer | refund => (balance w + amt)%Q
                  | withdrawal | ride_payment => (balance w - amt)%Q
                  | ride_earning => balance w
                  end
  /\ match ty with
     | withdrawal | ride_payment => js_ge (balance w) amt = true
     | _ => True
     end.
Proof.
  unfold Wallets.updateBalance. intros H.
  invert_bind H as w1 Hw1. invert_bind H as [] Hv. apply validate_inr in Hv.
  injection H as <-. split; [done|].
  destruct ty; simpl in Hw1;
    try (injection Hw1 as <-; by repeat split);
    destruct (js_ge (balance w) amt) eqn:Hg; try done;
    injection Hw1 as <-; by repeat split.
Qed.

Section TransferFacts.

Context (fault : option nat).

Lemma transfer_failure_restores (ws : gmap UserId Wallet) (fromUserId toUserId : UserId)
    (amt : Number) (rideId : option RideId) (now : Date) (e : string)
    (ws' : gmap UserId Wallet) :
  Wallets.transferFunds fault ws fromUserId toUserId amt rideId now = (ws', inl e) ->
  ws' = ws.
Proof.
  unfold Wallets.transferFunds.
  destruct (Wallets.transfer_session _ _ _ _ _ _ _) as [?|[??]]; by intros [= <- _].
Qed.

Lemma transfer_success (ws ws' : gmap UserId Wallet) (fromUserId toUserId : UserId)
    (amt : Number) (rideId : option RideId) (now : Date) (bf bt : Number) :
  Wallets.transferFunds fault ws fromUserId toUserId amt rideId now
  = (ws', inr (bf, bt)) ->
  exists fw tw tf tt,
    ws !! fromUserId = Some fw /\ ws !! toUserId = Some tw
    /\ Wallets.canWithdraw fw amt = true
    /\ js_le 0 (balance tw + amt) = true
    /\ js_le 0 amt = true
    /\ bf = (balance fw - amt)%Q /\ bt = (balance tw + amt)%Q
    /\ tx_type tf = transfer /\ tx_type tt = transfer
    /\ tx_status tf = tx_completed /\ tx_status tt = tx_completed
    /\ amount tf = amt /\ amount tt = amt
    /\ metadata tf !! "toUserId" = Some (MId toUserId)
    /\ metadata tf !! "fromUserId" = None
    /\ metadata tt !! "fromUserId" = Some (MId fromUserId)
    /\ metadata tt !! "toUserId" = None
    /\ ws' = alter (push tt) toUserId
               (alter (push tf) fromUserId
                  (alter (set_balance bt) toUserId
                     (alter (set_balance bf) fromUserId ws))).
Proof.
  unfold Wallets.transferFunds.
  destruct (Wallets.transfer_session _ _ _ _ _ _ _) as [?|[ws1 [b1 b2]]] eqn:E;
    [done|]. intros [= -> -> ->].
  unfold Wallets.transfer_session in E.
  invert_bind E as [] _. invert_bind E as [] _.
  destruct (ws !! fromUserId) as [fw|] eqn:Hf; [|done].
  destruct (ws !! toUserId) as [tw|] eqn:Ht; [|done].
  destruct (Wallets.canWithdraw fw amt) eqn:Hcw; [|done]. simpl in E.
  invert_bind E as fw1 Hfw1.
  apply updateBalance_inr in Hfw1 as (_ & _ & _ & _ & Hbf & _).
  invert_bind E as ws2 Hs2. unfold Wallets.save_balance in Hs2.
  invert_bind Hs2 as [] _. injection Hs2 as <-.
  invert_bind E as tw1 Htw1.
  apply updateBalance_inr in Htw1 as (Hpos & _ & _ & _ & Hbt & _).
  invert_bind E as ws3 Hs3. unfold Wallets.save_balance in Hs3.
  invert_bind Hs3 as [] _. injection Hs3 as <-.
  invert_bind E as ws4 Hs4. unfold Wallets.save_pushed in Hs4.
  invert_bind Hs4 as [] Hvalid. invert_bind Hs4 as [] _. injection Hs4 as <-.
  apply validate_inr in Hvalid.
  invert_bind E as ws5 Hs5. unfold Wallets.save_pushed in Hs5.
  invert_bind Hs5 as [] _. invert_bind Hs5 as [] _. injection Hs5 as <-.
  invert_bind E as [] _. injection E as <- <- <-.
  unfold Wallets.tx_valid in Hvalid. simpl in Hvalid.
  rewrite Hbf, Hbt in *.
  eexists fw, tw, _, _. repeat split; try done.
Qed.

(** C2. A transfer between two wallets either debits the source by the
    amount, credits the destination by the amount and appends one
    completed entry to each of the two logs, leaving every other wallet
    alone, or, on any failure (also one after the debit), leaves the
    whole collection as it was. *)
Theorem transfer_all_or_nothing (ws : gmap UserId Wallet) (fromUserId toUserId : UserId)
    (amt : Number) (rideId : option RideId) (now : Date) :
  fromUserId <> toUserId ->
  match Wallets.transferFunds fault ws fromUserId toUserId amt rideId now with
  | (ws', inr _) =>
      exists fw tw tf tt,
        ws !! fromUserId = Some fw /\ ws !! toUserId = Some tw
        /\ ws' !! fromUserId = Some (push tf (set_balance (balance fw - amt) fw))
        /\ ws' !! toUserId = Some (push tt (set_balance (balance tw + amt) tw))
        /\ (tx_status tf = tx_completed /\ amount tf = amt)
        /\ (tx_status tt = tx_completed /\ amount tt = amt)
        /\ (forall u, u <> fromUserId -> u <> toUserId -> ws' !! u = ws !! u)
  | (ws', inl _) => ws' = ws
  end.
Proof.
  intros Hne.
  destruct (Wallets.transferFunds _ _ _ _ _ _ _) as [ws' [e|[bf bt]]] eqn:E.
  - by eapply transfer_failure_restores.
  - apply transfer_success in E
      as (fw & tw & tf & tt & Hf & Ht & _ & _ & _ & -> & -> & _ & _ & Hsf & Hst
          & Haf & Hat & _ & _ & _ & _ & ->).
    exists fw, tw, tf, tt. repeat split; try done.
    + rewrite lookup_alter_ne by done. rewrite lookup_alter_eq.
      rewrite lookup_alter_ne by done. rewrite lookup_alter_eq, Hf. done.
    + rewrite lookup_alter_eq. rewrite lookup_alter_ne by done.
      rewrite lookup_alter_eq. rewrite lookup_alter_ne by done. rewrite Ht. done.
    + intros u Hu1 Hu2. by rewrite !lookup_alter_ne.
Qed.

End TransferFacts.

Lemma transfer_all_or_nothing_witness :
  match Wallets.transferFunds None (wallets db_funded) 1 2 300 None 10 with
  | (ws', inr _) =>
      exists fw tw tf tt,
        wallets db_funded !! 1%positive = Some fw
        /\ wallets db_funded !! 2%positive = Some tw
        /\ ws' !! 1%positive = Some (push tf (set_balance (balance fw - 300) fw))
        /\ ws' !! 2%positive = Some (push tt (set_balance (balance tw + 300) tw))
        /\ (tx_status tf = tx_completed /\ amount tf = 300%Q)
        /\ (tx_status tt = tx_completed /\ amount tt = 300%Q)
        /\ (forall u, u <> 1%positive -> u <> 2%positive ->
                      ws' !! u = wallets db_funded !! u)
  | (ws', inl _) => ws' = wallets db_funded
  end.
Proof.
  apply (transfer_all_or_nothing None (wallets db_funded) 1 2 300 None 10). done.
Defined.

(** The store fails at the credit, after the debit was written in the
    session: the caller sees the collection as it was. *)
Example transfer_fault_after_debit :
  Wallets.transferFunds (Some 3%nat) (wallets db_funded) 1 2 300 None 10
  = (wallets db_funded, throw "store operation failed").
Proof. vm_compute. reflexivity. Qed.

(** The sender holds 1000 and is asked for 1150. *)
Example transfer_insufficient_balance :
  Wallets.transferFunds None (wallets db_funded) 1 2 1150 None 10
  = (wallets db_funded, throw "Insufficient balance or wallet inactive").
Proof. vm_compute. reflexivity. Qed.

(** * Gateway confirmations *)

Import WalletRoutes.

(** The lookup of the webhook reads a path that the strict schema of a
    transaction does not declare. *)
Lemma get_meta_undeclared (k : string) (t : Transaction) :
  k ∉ metadata_paths -> get_meta k t = None.
Proof.
  intros Hk. unfold get_meta, strict. apply map_lookup_filter_None.
  right. intros v _. exact Hk.
Qed.

Lemma externalReference_undeclared : "externalReference" ∉ metadata_paths.
Proof. apply (bool_decide_unpack _). by vm_compute. Qed.

Lemma no_reference (ref : string) (t : Transaction) : ~ has_reference ref t.
Proof.
  unfold has_reference.
  by rewrite (get_meta_undeclared _ _ externalReference_undeclared).
Qed.

Lemma findByReference_None (ref : string) (ws : gmap UserId Wallet) :
  findByReference ref ws = None.
Proof.
  unfold findByReference.
  destruct (list_find _ _) as [[i [u w]]|] eqn:E; [|done].
  apply list_find_Some in E as (_ & Hex & _). simpl in Hex.
  apply Exists_exists in Hex as (t & _ & Ht). by apply no_reference in Ht.
Qed.

Lemma campay_webhook_not_found (ws : gmap UserId Wallet) (ref st : string)
    (amt : Number) (now : Date) :
  campay_webhook ws ref st amt now = (ws, not_found "Transaction not found").
Proof. unfold campay_webhook. by rewrite findByReference_None. Qed.

(** A deposit of 1000 that the fallback completed at 0 stands at a balance
    of 1000; the gateway's confirmation for the reference issued to it is
    answered 404 and changes nothing, and neither does a confirmation for
    the deposit that is still pending. *)
Example confirmation_of_completed_deposit :
  (fun w => tx_status <$> transactions w) <$> ws_completed !! 1%positive
  = Some [tx_completed]
  /\ balance <$> ws_completed !! 1%positive = Some 1000%Q
  /\ campay_webhook ws_completed deposit_ref "SUCCESSFUL" 1000 20
     = (ws_completed, not_found "Transaction not found")
  /\ campay_webhook ws_initiated deposit_ref "SUCCESSFUL" 1000 20
     = (ws_initiated, not_found "Transaction not found").
Proof.
  split; [by vm_compute|]. split; [by vm_compute|].
  split; apply campay_webhook_not_found.
Qed.

(** C4. A gateway webhook delivered for an external reference leaves every
    wallet as it is, whatever the state of the transaction the reference
    was issued for, so also when that transaction is completed or failed:
    no balance changes and no log entry is appended, and replaying the
    delivery changes nothing either.  The handler looks the transaction up
    by [metadata.externalReference], which a stored transaction never
    carries, and answers 404. *)
Theorem webhook_is_noop (ws : gmap UserId Wallet) (ref st : string) (amt : Number)
    (now now' : Date) :
  let delivered := campay_webhook ws ref st amt now in
  let replayed := campay_webhook (fst delivered) ref st amt now' in
  fst delivered = ws
  /\ fst replayed = ws
  /\ snd delivered = not_found "Transaction not found"
  /\ snd replayed = not_found "Transaction not found"
  /\ (forall u, balance <$> fst replayed !! u = balance <$> ws !! u)
  /\ (forall u, transactions <$> fst replayed !! u = transactions <$> ws !! u).
Proof.
  cbv zeta. rewrite !(campay_webhook_not_found ws). cbn [fst snd].
  by rewrite ?campay_webhook_not_found.
Qed.

(** * The ledger invariant *)

Import Ledger.

Lemma js_le_true (a b : Number) : js_le a b = true <-> (a <= b)%Q.
Proof. apply Qle_bool_iff. Qed.

Lemma js_ge_true (a b : Number) : js_ge a b = true <-> (b <= a)%Q.
Proof. apply Qle_bool_iff. Qed.



Section Totals.

Context (kind : Transaction -> bool).
Local Open Scope Q_scope.




End Totals.

Lemma alter_last_push (f : Transaction -> Transaction) (t : Transaction) (w : Wallet) :
  alter_last f (push t w) = push (f t) w.
Proof.
  unfold alter_last, push, set_transactions. simpl. f_equal.
  rewrite length_app. simpl. rewrite Nat.add_1_r. simpl.
  rewrite alter_app_r_alt by lia. by rewrite Nat.sub_diag.
Qed.


Section Balanced.

Local Open Scope Q_scope.






End Balanced.

Lemma findOrCreate_inr (u : UserId) (r : Role) (ws ws1 : gmap UserId Wallet) (w : Wallet) :
  Wallets.findOrCreate u r ws = inr (ws1, w) ->
  ws1 !! u = Some w
  /\ (ws1 = ws \/ (ws !! u = None /\ w = mkWallet r 0 true [] /\ ws1 = <[u := w]> ws)).
Proof.
  unfold Wallets.findOrCreate, Wallets.createWallet.
  destruct (ws !! u) as [w0|] eqn:Hu.
  - intros [= <- <-]. auto.
  - destruct (Wallets.userRole_in_enum r); [|done]. simpl.
    intros [= <- <-]. split; [apply lookup_insert_eq | auto].
Qed.




Lemma note_gateway_push (paymentId gatewayStatus : string) (t : Transaction) (w : Wallet) :
  note_gateway paymentId gatewayStatus (push t w) = push t w.
Proof. unfold note_gateway. by rewrite alter_last_push. Qed.

Lemma complete_in_test_mode_push (msg : string) (now : Date) (t : Transaction) (w : Wallet) :
  complete_in_test_mode msg now (push t w)
  = push (set_tx_completedAt now (set_tx_status tx_completed t)) w.
Proof. unfold complete_in_test_mode. by rewrite alter_last_push. Qed.

Section Deposit.

Context (ws : gmap UserId Wallet) (userId : UserId) (userRole : Role) (amt : Number)
        (paymentMethod phoneNumber : string) (now : Date) (gw : Gateway).



End Deposit.

Section Withdraw.

Context (ws : gmap UserId Wallet) (userId : UserId) (amt : Number)
        (paymentMethod phoneNumber : string) (now : Date) (gw : Gateway).



End Withdraw.


Section TransferInvariants.

Context (fault : option nat) (ws : gmap UserId Wallet) (fromUserId toUserId : UserId)
        (amt : Number) (rideId : option RideId) (now : Date).



End TransferInvariants.

Section PayRide.

Context (db : DB) (userId : UserId) (userRole : Role) (rideId : option RideId)
        (driverId : option UserId) (amt : Number) (now : Date).


End PayRide.

Import WalletOps.


(** Rider 1 pays driver 2 a fare of 300 through the pay-ride route: the
    rider's wallet is saved, the driver's save is rejected by the [enum] of
    the transaction type, and the route answers 500. *)
Example pay_ride_driver_save_rejected :
  let '(db', res) :=
    pay_ride_route db_funded 1 role_rider (Some 1%positive) (Some 2%positive) 300 20 in
  res_status res = 500
  /\ balance <$> wallets db' !! 1%positive = Some 700%Q
  /\ wallets db' !! 2%positive = wallets db_funded !! 2%positive.
Proof. vm_compute. done. Qed.

(** Why the transfer of the amended claim goes to another user: rider 1
    transfers 300 to themselves; the route answers 200, the balance goes
    from 1000 to 1300 and the log gains one outgoing and one incoming entry
    of 300, so credits minus debits stay at 1000. *)
Example self_transfer_breaks_ledger :
  match wallets db_funded !! 1%positive,
        wallets (fst (run db_funded (OpTransfer 1 (Some 1%positive) 300 None 10 None)))
          !! 1%positive with
  | Some before, Some after =>
      kept before
      /\ (balance after == 1300)%Q
      /\ (ledger credit_type debit_entry (transactions after) == 1000)%Q
      /\ ~ kept after
  | _, _ => False
  end.
Proof.
  vm_compute. repeat split; try done. intros [H _]. vm_compute in H. done.
Qed.




Import Scenes.

(** * The ride handlers as a state machine *)

Import RideOps.

(** Every handler but [requestRide] leaves the ride collection as it is or
    rewrites one stored ride by one of the listed changes. *)
Lemma handler_change calc (db : DB) (op : RideOp) :
  is_request op = false ->
  rides (fst (run calc db op)) = rides db
  \/ exists i r r',
       rides db !! i = Some r /\ Change r r'
       /\ rides (fst (run calc db op)) = <[i := r']> (rides db).
Proof.
  intros Hop. destruct op as [u b n i| rideId userId now | rideId userId now
                              | fault rideId userId now | rideId userId reason now
                              | rideId userId x comment ratedBy now]; simpl.
  - done.
  - unfold Rides.acceptRide. simpl.
    destruct (rides db !! rideId) as [r|] eqn:Hr; simpl; [|by left].
    destruct (decide (status r = pending)) as [Hs|Hs].
    2:{ rewrite (bool_decide_eq_false_2 _ Hs). by left. }
    rewrite (bool_decide_eq_true_2 _ Hs). simpl.
    destruct (users db !! userId) as [u|] eqn:Hu; simpl; [|by left].
    destruct (isAvailable u); simpl; [|by left].
    rewrite Hr. simpl. rewrite Hu. simpl.
    right. eexists rideId, r, _. split; [done|]. split; [|done]. by constructor.
  - unfold Rides.startRide.
    destruct (rides db !! rideId) as [r|] eqn:Hr; [|by left].
    destruct (driver r) as [d|] eqn:Hd; [|by left].
    destruct (bool_decide (d = userId)); simpl; [|by left].
    destruct (decide (status r = accepted)) as [Hs|Hs].
    2:{ rewrite (bool_decide_eq_false_2 _ Hs). by left. }
    rewrite (bool_decide_eq_true_2 _ Hs). simpl.
    right. eexists rideId, r, _. split; [done|]. split; [|done].
    constructor; [done | by rewrite Hd].
  - unfold Rides.completeRide.
    destruct (rides db !! rideId) as [r|] eqn:Hr; [|by left].
    destruct (driver r) as [d|] eqn:Hd; [|by left].
    destruct (bool_decide (d = userId)); simpl; [|by left].
    destruct (decide (status r = in_progress)) as [Hs|Hs].
    2:{ rewrite (bool_decide_eq_false_2 _ Hs). by left. }
    rewrite (bool_decide_eq_true_2 _ Hs). simpl.
    assert (HC : forall ps, Change r (set_payment_status ps (updateStatus completed None now r))).
    { intros ps. constructor; [done | by rewrite Hd]. }
    right. exists rideId, r.
    destruct (bool_decide _).
    + destruct (Wallets.transferFunds _ _ _ _ _ _ _) as [ws [e|bal]]; simpl;
        destruct (users db !! userId); simpl; rewrite insert_insert_eq; eauto.
    + simpl. destruct (users db !! userId); simpl; rewrite insert_insert_eq; eauto.
  - unfold Rides.cancelRide.
    destruct (rides db !! rideId) as [r|] eqn:Hr; [|by left].
    destruct (negb _ && negb _); [by left|].
    destruct (bool_decide (status r = completed) || bool_decide (status r = cancelled))
      eqn:Hterm; [by left|].
    assert (Hact : Rides.is_active (status r) = true).
    { apply orb_false_iff in Hterm as [H1 H2].
      apply bool_decide_eq_false in H1. apply bool_decide_eq_false in H2.
      by destruct (status r). }
    simpl. right. exists rideId, r.
    destruct (bool_decide (driver r = Some userId)); simpl.
    + destruct (users db !! userId); simpl; eexists; (split; [done|]);
        (split; [by constructor | done]).
    + eexists. split; [done|]. split; [by constructor | done].
  - unfold Rides.rateRide.
    destruct (Rides.bad_rating x); [by left|].
    destruct ratedBy as [who|]; [|by left].
    destruct (rides db !! rideId) as [r|] eqn:Hr; [|by left].
    destruct (decide (status r = completed)) as [Hs|Hs].
    2:{ rewrite (bool_decide_eq_false_2 _ Hs). by left. }
    rewrite (bool_decide_eq_true_2 _ Hs). simpl.
    match goal with |- context [match ?a with inl _ => _ | inr _ => _ end] =>
      destruct a as [e|[|]] end; [by left | | by destruct who; left].
    right. eexists rideId, r, _. split; [done|]. split; [by constructor|].
    by destruct (match who with Rides.rater_driver => _ | Rides.rater_rider => _ end).
Qed.

Lemma Change_fixed (r r' : Ride) :
  Change r r' ->
  rider r' = rider r /\ trip r' = trip r /\ requestedAt r' = requestedAt r
  /\ payment_method r' = payment_method r.
Proof. by destruct 1 as [????|???|????|????|?[]??]. Qed.

Lemma Change_moves (r r' : Ride) :
  Change r r' -> status r' = status r \/ moves (status r) (status r') = true.
Proof.
  destruct 1 as [??? Hs|?? Hs ?|??? Hs ?|???? Hs|?[]? Hs]; simpl; rewrite ?Hs; auto.
Qed.

Lemma Change_stamped (r r' : Ride) :
  Change r r' -> well_stamped r -> well_stamped r'.
Proof.
  destruct 1 as [??? Hs|?? Hs Hd|??? Hs Hd|???? Hs|?[]? Hs];
    unfold well_stamped; simpl; rewrite ?Hs; try done; intuition eauto.
Qed.

Lemma Change_driver (r r' : Ride) (d : UserId) :
  Change r r' -> well_stamped r -> driver r = Some d -> driver r' = Some d.
Proof.
  destruct 1 as [??? Hs|?? Hs Hd|??? Hs Hd|???? Hs|?[]? Hs];
    unfold well_stamped; simpl; rewrite ?Hs; try done. congruence.
Qed.

Lemma moves_from_active (s s' : RideStatus) :
  moves s s' = true -> Rides.is_active s = true.
Proof. by destruct s, s'. Qed.

Lemma deleteStale_subseteq (userId : UserId) (now : Date) (rs : gmap RideId Ride)
    (i : RideId) (r : Ride) :
  Rides.deleteStale userId now rs !! i = Some r -> rs !! i = Some r.
Proof.
  rewrite deleteStale_lookup. destruct (rs !! i) as [r0|]; simpl; [|done].
  by destruct (Rides.stale_pending userId now r0).
Qed.

Lemma has_active_ride_false (userId : UserId) (rs : gmap RideId Ride) (i : RideId) (r : Ride) :
  Rides.has_active_ride userId rs = false ->
  rs !! i = Some r -> rider r = userId -> Rides.is_active (status r) = false.
Proof.
  unfold Rides.has_active_ride. intros H Hi Hr.
  apply bool_decide_eq_false in H.
  destruct (Rides.is_active (status r)) eqn:Ha; [|done].
  destruct H. exists i, r. done.
Qed.

(** What a request does to the store. *)
Lemma requestRide_outcome calc (db : DB) (userId : UserId) (body : Rides.RideRequest)
    (now : Date) (newId : RideId) :
  let db' := fst (Rides.requestRide calc db userId body now newId) in
  let res := snd (Rides.requestRide calc db userId body now newId) in
  users db' = users db /\ wallets db' = wallets db /\
  ((res_status res <> 201 /\
    rides db' = match Rides.req_pickup body, Rides.req_destination body with
                | Some _, Some _ => Rides.deleteStale userId now (rides db)
                | _, _ => rides db
                end)
   \/ exists p d dist tr,
        res = created "Ride requested successfully"
        /\ Rides.has_active_ride userId (Rides.deleteStale userId now (rides db)) = false
        /\ calc p d = Some dist /\ js_le dist 0 = false
        /\ tr = mkTrip (pickup tr) (destination tr) dist (Fare.estimateDuration dist)
                  (Fare.calculateFare dist (Fare.estimateDuration dist)) (vehicleType tr)
        /\ rides db'
           = <[newId := mkRide userId None pending tr
                          (default pm_cash (Rides.req_paymentMethod body))
                          pay_pending None None now None None None None None None]>
               (Rides.deleteStale userId now (rides db))).
Proof.
  unfold Rides.requestRide.
  destruct (Rides.req_pickup body) as [pickup|]; [|by auto].
  destruct (Rides.req_destination body) as [destination|]; [|by auto].
  set (stale := filter _ (rides db)).
  assert (Hclean : (if decide (stale = ∅) then db
                    else set_rides (Rides.deleteStale userId now (rides db)) db)
                   = set_rides (Rides.deleteStale userId now (rides db)) db).
  { destruct (decide (stale = ∅)) as [He|]; [|done].
    rewrite deleteStale_none by done. by destruct db. }
  rewrite Hclean. clear Hclean stale. cbv zeta.
  set (db1 := set_rides _ db).
  destruct (Rides.has_active_ride userId (rides db1)) eqn:Hact; [by auto|].
  repeat case_match; unfold ret in *; simplify_eq; simpl; try (by auto);
  (do 2 (split; [done|])); right;
    match goal with H : calc ?p ?d = Some ?x |- _ => exists p, d, x end;
    eexists (mkTrip _ _ _ _ _ _);
    match goal with H : Fare.requestFare _ = _ |- _ =>
      unfold Fare.requestFare in H; injection H as <- <- end;
    repeat split; try done.
Qed.

(** ** One call, seen from a stored ride *)

Lemma run_old calc (db : DB) (op : RideOp) (i : RideId) (r r' : Ride) :
  fresh_id db op ->
  rides db !! i = Some r ->
  rides (fst (run calc db op)) !! i = Some r' ->
  r' = r \/ Change r r'.
Proof.
  intros Hf Hi Hi'. destruct (is_request op) eqn:Hreq.
  - destruct op as [userId body now newId| | | | |]; try done. simpl in *.
    destruct (requestRide_outcome calc db userId body now newId)
      as (_ & _ & [[_ E] | (p & d & dist & tr & _ & _ & _ & _ & _ & E)]).
    + rewrite E in Hi'. left.
      destruct (Rides.req_pickup body), (Rides.req_destination body);
        try apply deleteStale_subseteq in Hi'; congruence.
    + rewrite E in Hi'. rewrite lookup_insert_ne in Hi' by congruence.
      apply deleteStale_subseteq in Hi'. left. congruence.
  - destruct (handler_change calc db op Hreq) as [E | (i0 & r0 & r0' & H0 & HC & E)].
    + left. congruence.
    + rewrite E in Hi'. destruct (decide (i0 = i)) as [->|Hne].
      * rewrite lookup_insert_eq in Hi'. right. congruence.
      * rewrite lookup_insert_ne in Hi' by done. left. congruence.
Qed.

Lemma run_new calc (db : DB) (op : RideOp) (i : RideId) (r' : Ride) :
  rides db !! i = None ->
  rides (fst (run calc db op)) !! i = Some r' ->
  exists userId body now,
    op = OpRequest userId body now i
    /\ rider r' = userId /\ status r' = pending /\ driver r' = None
    /\ Rides.has_active_ride userId (Rides.deleteStale userId now (rides db)) = false
    /\ forall j, j <> i ->
         rides (fst (run calc db op)) !! j
         = Rides.deleteStale userId now (rides db) !! j.
Proof.
  intros Hi Hi'. destruct (is_request op) eqn:Hreq.
  - destruct op as [userId body now newId| | | | |]; try done. simpl in *.
    destruct (requestRide_outcome calc db userId body now newId)
      as (_ & _ & [[_ E] | (p & d & dist & tr & _ & Hact & _ & _ & _ & E)]).
    + rewrite E in Hi'.
      destruct (Rides.req_pickup body), (Rides.req_destination body);
        try apply deleteStale_subseteq in Hi'; congruence.
    + rewrite E in Hi'. destruct (decide (newId = i)) as [->|Hne].
      * rewrite lookup_insert_eq in Hi'. injection Hi' as <-.
        exists userId, body, now. repeat split; try done.
        intros j Hj. rewrite E. by rewrite lookup_insert_ne.
      * rewrite lookup_insert_ne in Hi' by done.
        apply deleteStale_subseteq in Hi'. congruence.
  - destruct (handler_change calc db op Hreq) as [E | (i0 & r0 & r0' & H0 & HC & E)].
    + congruence.
    + rewrite E in Hi'. rewrite lookup_insert_ne in Hi' by congruence. congruence.
Qed.

Lemma kept_or_changed (r r' : Ride) :
  r' = r \/ Change r r' ->
  rider r' = rider r
  /\ (Rides.is_active (status r') = true -> Rides.is_active (status r) = true).
Proof.
  intros [->|HC]; [done|]. split; [apply (Change_fixed _ _ HC)|].
  destruct (Change_moves _ _ HC) as [->|Hm]; [done|].
  intros _. by apply moves_from_active with (status r').
Qed.

(** X1. A call of one of the six ride handlers ([requestRide],
    [acceptRide], [startRide], [completeRide], [cancelRide], [rateRide]) that
    runs on its own, with no other call between its first read and its last
    write, leaves a ride that is stored before and after it with its rider,
    trip, request date and payment method, and the ride's status either
    stays or moves along pending -> accepted -> in_progress -> completed or
    from one of the first three to cancelled: such a call neither reopens a
    completed or cancelled ride nor moves a ride backwards.  Calls whose
    steps overlap are not covered. *)
Theorem ride_history_monotone calc (db : DB) (op : RideOp) (i : RideId) (r r' : Ride) :
  fresh_id db op ->
  rides db !! i = Some r ->
  rides (fst (run calc db op)) !! i = Some r' ->
  rider r' = rider r /\ trip r' = trip r /\ requestedAt r' = requestedAt r
  /\ payment_method r' = payment_method r
  /\ (status r' = status r \/ moves (status r) (status r') = true).
Proof.
  intros Hf Hi Hi'. destruct (run_old calc db op i r r' Hf Hi Hi') as [->|HC].
  - repeat split; auto.
  - destruct (Change_fixed _ _ HC) as (? & ? & ? & ?).
    repeat split; try done. by apply Change_moves.
Qed.

Lemma ride_history_monotone_witness :
  rider ride_accepted = 1%positive
  /\ trip ride_accepted = sample_trip
  /\ requestedAt ride_accepted = 0
  /\ payment_method ride_accepted = pm_cash
  /\ (status ride_accepted = pending \/ moves pending (status ride_accepted) = true).
Proof.
  apply (ride_history_monotone sample_distance db_pending (OpAccept 1 2 100) 1
           (sample_ride 1 None pending pm_cash 0) ride_accepted);
    [exact I | reflexivity | reflexivity].
Defined.

(** X2. If no rider has two rides that are pending, accepted or in
    progress, then this still holds after a call of one of the six ride
    handlers that runs on its own, with no other call between its first read
    and its last write (a request being given a fresh id).  Calls whose steps
    overlap are not covered. *)
Theorem one_active_ride_per_rider calc (db : DB) (op : RideOp) :
  fresh_id db op ->
  single_active (rides db) ->
  single_active (rides (fst (run calc db op))).
Proof.
  intros Hf Hinv i j ri' rj' Hi' Hj' Hrider Hai Haj.
  destruct (rides db !! i) as [ri|] eqn:Hi, (rides db !! j) as [rj|] eqn:Hj.
  - destruct (kept_or_changed ri ri' (run_old calc db op i ri ri' Hf Hi Hi')) as [Ei Hbi].
    destruct (kept_or_changed rj rj' (run_old calc db op j rj rj' Hf Hj Hj')) as [Ej Hbj].
    apply (Hinv i j ri rj); auto. congruence.
  - destruct (run_new calc db op j rj' Hj Hj')
      as (userId & body & now & -> & Hr & _ & _ & Hact & Hrest).
    destruct (decide (i = j)) as [|Hne]; [done|]. exfalso.
    rewrite (Hrest i Hne) in Hi'.
    pose proof (has_active_ride_false userId _ i ri' Hact Hi') as Hno.
    rewrite Hno in Hai by congruence. done.
  - destruct (run_new calc db op i ri' Hi Hi')
      as (userId & body & now & -> & Hr & _ & _ & Hact & Hrest).
    destruct (decide (j = i)) as [|Hne]; [done|]. exfalso.
    rewrite (Hrest j Hne) in Hj'.
    pose proof (has_active_ride_false userId _ j rj' Hact Hj') as Hno.
    rewrite Hno in Haj by congruence. done.
  - destruct (run_new calc db op i ri' Hi Hi') as (u1 & b1 & n1 & E1 & _).
    destruct (run_new calc db op j rj' Hj Hj') as (u2 & b2 & n2 & E2 & _).
    congruence.
Qed.

Lemma one_active_ride_per_rider_witness :
  single_active (rides (fst (run sample_distance db_pending (OpAccept 1 2 100)))).
Proof.
  apply (one_active_ride_per_rider sample_distance db_pending (OpAccept 1 2 100));
    [exact I|].
  intros i j ri rj Hi Hj _ _ _. unfold db_pending in Hi, Hj. cbn [rides] in Hi, Hj.
  apply lookup_singleton_Some in Hi as [<- _].
  by apply lookup_singleton_Some in Hj as [<- _].
Defined.

(** X3. The ride handlers keep every stored ride stamped as its status
    says: a pending ride has no driver, an accepted one has a driver and
    [acceptedAt], one in progress has [startedAt] as well, a completed one
    [completedAt] as well, and a cancelled one has [cancelledAt] and
    [cancelledBy]. *)
Theorem timestamps_follow_status calc (db : DB) (op : RideOp) :
  fresh_id db op ->
  map_Forall (fun _ => well_stamped) (rides db) ->
  map_Forall (fun _ => well_stamped) (rides (fst (run calc db op))).
Proof.
  intros Hf Hinv i r' Hi'. destruct (rides db !! i) as [r|] eqn:Hi.
  - destruct (run_old calc db op i r r' Hf Hi Hi') as [->|HC]; [by apply (Hinv i)|].
    apply (Change_stamped r); [done | by apply (Hinv i)].
  - destruct (run_new calc db op i r' Hi Hi') as (u & b & n & _ & _ & Hs & Hd & _).
    unfold well_stamped. by rewrite Hs.
Qed.

Lemma timestamps_follow_status_witness :
  map_Forall (fun _ => well_stamped)
    (rides (fst (run sample_distance db_pending (OpAccept 1 2 100)))).
Proof.
  apply (timestamps_follow_status sample_distance db_pending (OpAccept 1 2 100));
    [exact I|].
  unfold db_pending. cbn [rides]. apply map_Forall_singleton. reflexivity.
Defined.

(** X4. Once a (consistently stamped) ride has a driver, a call of a ride
    handler that runs on its own, with no other call between its first read
    and its last write, neither gives it another driver nor removes the
    driver.  Calls whose steps overlap are not covered. *)
Theorem driver_never_reassigned calc (db : DB) (op : RideOp) (i : RideId)
    (r r' : Ride) (d : UserId) :
  fresh_id db op ->
  well_stamped r ->
  rides db !! i = Some r ->
  driver r = Some d ->
  rides (fst (run calc db op)) !! i = Some r' ->
  driver r' = Some d.
Proof.
  intros Hf Hw Hi Hd Hi'. destruct (run_old calc db op i r r' Hf Hi Hi') as [->|HC]; [done|].
  by apply (Change_driver r).
Qed.

Lemma driver_never_reassigned_witness :
  driver (set_cancellationReason (Some "late"%string)
            (updateStatus cancelled (Some by_rider) 150 ride_accepted))
  = Some 2%positive.
Proof.
  apply (driver_never_reassigned sample_distance db_taken
           (OpCancel 1 1 (Some "late"%string) 150) 1 ride_accepted);
    [exact I | | reflexivity | reflexivity | reflexivity].
  split; by eexists.
Defined.

(** X5. When [acceptRide], [startRide], [completeRide], [cancelRide] or
    [rateRide] answers 400, 403 or 404, the store is exactly as it was.  (A
    500 answer gives no such guarantee: [completeRide], [cancelRide] and
    [rateRide] can fail after the ride was saved; and a refused [requestRide]
    may already have deleted stale rides.) *)
Theorem refused_call_writes_nothing calc (db : DB) (op : RideOp) :
  is_request op = false ->
  res_status (snd (run calc db op)) = 400
  \/ res_status (snd (run calc db op)) = 403
  \/ res_status (snd (run calc db op)) = 404 ->
  fst (run calc db op) = db.
Proof.
  intros Hreq. destruct op as [| rideId userId now | rideId userId now
                               | fault rideId userId now | rideId userId reason now
                               | rideId userId x comment ratedBy now]; try done; simpl.
  - unfold Rides.acceptRide. simpl.
    destruct (rides db !! rideId) as [r|] eqn:Hr; simpl; [|done].
    destruct (bool_decide (status r = pending)); simpl; [|done].
    destruct (users db !! userId) as [u|] eqn:Hu; simpl; [|done].
    destruct (isAvailable u); simpl; [|done].
    rewrite Hr. simpl. rewrite Hu. simpl. intros [|[|]]; done.
  - unfold Rides.startRide. repeat case_match; simpl; try done. intros [|[|]]; done.
  - unfold Rides.completeRide.
    repeat case_match; simpl; try done; intros [|[|]]; done.
  - unfold Rides.cancelRide.
    repeat case_match; simpl; try done; intros [|[|]]; done.
  - unfold Rides.rateRide.
    repeat case_match; simpl; try done; intros [|[|]]; done.
Qed.

Lemma refused_call_writes_nothing_witness :
  fst (run sample_distance db_taken (OpStart 1 3 100)) = db_taken.
Proof.
  apply (refused_call_writes_nothing sample_distance db_taken (OpStart 1 3 100));
    [reflexivity | right; left; reflexivity].
Defined.

Lemma js_le_false (a b : Number) : js_le a b = false -> (b < a)%Q.
Proof.
  intros H. apply Qnot_le_lt. intros Hle. apply js_le_true in Hle. congruence.
Qed.

Lemma estimateDuration_ge_1 (dist : Number) :
  (0 < dist)%Q -> (1 <= Fare.estimateDuration dist)%Q.
Proof.
  intros H. unfold Fare.estimateDuration.
  assert (H0 : (0 < inject_Z (Qceiling (dist * 3)))%Q).
  { apply Qlt_le_trans with (dist * 3)%Q; [lra | apply Qle_ceiling]. }
  change 0%Q with (inject_Z 0) in H0. rewrite <- Zlt_Qlt in H0.
  change 1%Q with (inject_Z 1). rewrite <- Zle_Qle. lia.
Qed.

Lemma requestFare_total (dist : Number) :
  (0 < dist)%Q -> (510 < Fare.total (snd (Fare.requestFare dist)))%Q.
Proof.
  intros H. pose proof (estimateDuration_ge_1 dist H) as Hd.
  unfold Fare.requestFare. cbn [snd Fare.total]. lra.
Qed.

(** X6. A [requestRide] call answered 201 stores, under the new id, a
    pending ride of the caller without driver, requested now, with payment
    pending, a distance above zero, a duration of ceil(3 * distance) >= 1
    minutes and the fare of that distance and duration, above 510; the other
    rides are those left by the clean-up, and users and wallets are
    untouched. *)
Theorem request_stores_priced_ride calc (db : DB) (userId : UserId)
    (body : Rides.RideRequest) (now : Date) (newId : RideId) :
  let db' := fst (Rides.requestRide calc db userId body now newId) in
  res_status (snd (Rides.requestRide calc db userId body now newId)) = 201 ->
  users db' = users db /\ wallets db' = wallets db
  /\ (forall j, j <> newId ->
        rides db' !! j = Rides.deleteStale userId now (rides db) !! j)
  /\ exists r,
       rides db' !! newId = Some r
       /\ rider r = userId /\ driver r = None /\ status r = pending
       /\ requestedAt r = now /\ payment_status r = pay_pending
       /\ payment_method r = default pm_cash (Rides.req_paymentMethod body)
       /\ (0 < distance (trip r))%Q
       /\ duration (trip r) = Fare.estimateDuration (distance (trip r))
       /\ (1 <= duration (trip r))%Q
       /\ fare (trip r) = Fare.calculateFare (distance (trip r)) (duration (trip r))
       /\ (510 < Fare.total (fare (trip r)))%Q.
Proof.
  intros db' Hres. subst db'.
  destruct (requestRide_outcome calc db userId body now newId)
    as (Hu & Hw & [[Hno _] | (p & d & dist & tr & _ & _ & _ & Hpos & Etr & E)]); [done|].
  apply js_le_false in Hpos.
  split; [done|]. split; [done|]. split.
  { intros j Hj. rewrite E. by rewrite lookup_insert_ne. }
  eexists. split; [rewrite E; apply lookup_insert_eq|].
  rewrite Etr. cbn. repeat split; try done.
  - by apply estimateDuration_ge_1.
  - apply (requestFare_total dist Hpos).
Qed.

Lemma request_stores_priced_ride_witness :
  users (fst (Rides.requestRide sample_distance db_stale 1 sample_request 360001 2))
  = users db_stale
  /\ wallets (fst (Rides.requestRide sample_distance db_stale 1 sample_request 360001 2))
     = wallets db_stale
  /\ (forall j, j <> 2%positive ->
        rides (fst (Rides.requestRide sample_distance db_stale 1 sample_request 360001 2)) !! j
        = Rides.deleteStale 1 360001 (rides db_stale) !! j)
  /\ exists r,
       rides (fst (Rides.requestRide sample_distance db_stale 1 sample_request 360001 2))
         !! 2%positive = Some r
       /\ rider r = 1%positive /\ driver r = None /\ status r = pending
       /\ requestedAt r = 360001 /\ payment_status r = pay_pending
       /\ payment_method r = default pm_cash (Rides.req_paymentMethod sample_request)
       /\ (0 < distance (trip r))%Q
       /\ duration (trip r) = Fare.estimateDuration (distance (trip r))
       /\ (1 <= duration (trip r))%Q
       /\ fare (trip r) = Fare.calculateFare (distance (trip r)) (duration (trip r))
       /\ (510 < Fare.total (fare (trip r)))%Q.
Proof.
  apply (request_stores_priced_ride sample_distance db_stale 1 sample_request 360001 2).
  reflexivity.
Defined.

(** X7. [requestRide] never answers "Invalid duration calculation." or
    "Invalid fare calculation.": once the distance has passed its own check
    (a number above zero), the duration is at least 1 and the fare above
    510, so the two later checks cannot fire. *)
Theorem request_duration_fare_checks_dead calc (db : DB) (userId : UserId)
    (body : Rides.RideRequest) (now : Date) (newId : RideId) :
  snd (Rides.requestRide calc db userId body now newId)
  <> bad_request "Invalid duration calculation."
  /\ snd (Rides.requestRide calc db userId body now newId)
     <> bad_request "Invalid fare calculation.".
Proof.
  unfold Rides.requestRide.
  repeat case_match; unfold ret in *; simplify_eq; simpl; try done.
  all: repeat match goal with H : js_le _ 0 = false |- _ => apply js_le_false in H end.
  all: match goal with H : Fare.requestFare ?n = _ |- _ =>
         pose proof (estimateDuration_ge_1 n ltac:(done)) as Hdur;
         pose proof (requestFare_total n ltac:(done)) as Htot;
         rewrite H in Htot; unfold Fare.requestFare in H; injection H as <- <- end.
  all: exfalso.
  all: match goal with H : js_le _ 0 = true |- _ => apply js_le_true in H end.
  all: simpl in *; lra.
Qed.

Lemma has_active_ride_true (userId : UserId) (rs : gmap RideId Ride) :
  Rides.has_active_ride userId rs = true
  <-> exists i r, rs !! i = Some r /\ rider r = userId
                  /\ Rides.is_active (status r) = true.
Proof.
  unfold Rides.has_active_ride. rewrite bool_decide_eq_true. unfold map_Exists.
  split; intros (i & r & H); exists i, r; tauto.
Qed.

(** X8. A request with pickup and destination is refused with "You
    already have an active ride request" exactly when the caller is the rider
    of a stored ride that is pending, accepted or in progress and is not a
    pending ride older than five minutes: stale pending rides never block a
    new request. *)
Theorem request_blocked_iff_fresh_active calc (db : DB) (userId : UserId)
    (body : Rides.RideRequest) (now : Date) (newId : RideId)
    (p d : Rides.PlaceReq) :
  Rides.req_pickup body = Some p ->
  Rides.req_destination body = Some d ->
  snd (Rides.requestRide calc db userId body now newId)
  = bad_request "You already have an active ride request. Please wait or cancel it first."
  <-> exists i r,
        rides db !! i = Some r /\ rider r = userId
        /\ Rides.is_active (status r) = true
        /\ Rides.stale_pending userId now r = false.
Proof.
  intros Hp Hd.
  assert (Hact : Rides.has_active_ride userId (Rides.deleteStale userId now (rides db)) = true
                 <-> exists i r, rides db !! i = Some r /\ rider r = userId
                                 /\ Rides.is_active (status r) = true
                                 /\ Rides.stale_pending userId now r = false).
  { rewrite has_active_ride_true. split.
    - intros (i & r & Hi & Hr & Ha). exists i, r.
      rewrite deleteStale_lookup in Hi.
      destruct (rides db !! i) as [r0|]; [|done]. simpl in Hi.
      destruct (Rides.stale_pending userId now r0) eqn:Hs; [done|].
      by simplify_eq.
    - intros (i & r & Hi & Hr & Ha & Hs). exists i, r.
      rewrite deleteStale_lookup, Hi. simpl. by rewrite Hs. }
  rewrite <- Hact. clear Hact.
  unfold Rides.requestRide. rewrite Hp, Hd.
  set (stale := filter _ (rides db)).
  assert (Hclean : (if decide (stale = ∅) then db
                    else set_rides (Rides.deleteStale userId now (rides db)) db)
                   = set_rides (Rides.deleteStale userId now (rides db)) db).
  { destruct (decide (stale = ∅)) as [He|]; [|done].
    rewrite deleteStale_none by done. by destruct db. }
  rewrite Hclean. clear Hclean stale. cbv zeta. cbn [rides set_rides].
  destruct (Rides.has_active_ride userId _) eqn:Hact; [done|].
  split; [|done].
  repeat case_match; unfold ret in *; simplify_eq; simpl; done.
Qed.

Lemma request_blocked_iff_fresh_active_witness :
  snd (Rides.requestRide sample_distance db_pending 1 sample_request 1000 2)
  = bad_request "You already have an active ride request. Please wait or cancel it first."
  <-> exists i r,
        rides db_pending !! i = Some r /\ rider r = 1%positive
        /\ Rides.is_active (status r) = true
        /\ Rides.stale_pending 1 1000 r = false.
Proof.
  eapply (request_blocked_iff_fresh_active sample_distance db_pending 1 sample_request
            1000 2); reflexivity.
Defined.

Lemma complete_paid (fault : option nat) (db : DB) (rideId : RideId)
    (userId : UserId) (now : Date) (ride : Ride) (drv : User) :
  rides db !! rideId = Some ride ->
  driver ride = Some userId ->
  status ride = in_progress ->
  users db !! userId = Some drv ->
  let db' := fst (Rides.completeRide fault db rideId userId now) in
  snd (Rides.completeRide fault db rideId userId now) = ok "Ride completed successfully"
  /\ users db' = <[userId := set_isAvailable true drv]> (users db)
  /\ exists ps,
       rides db'
       = <[rideId := set_payment_status ps (updateStatus completed None now ride)]> (rides db).
Proof.
  intros Hr Hd Hs Hu. unfold Rides.completeRide. rewrite Hr, Hd.
  rewrite (bool_decide_eq_true_2 _ eq_refl), (bool_decide_eq_true_2 _ Hs). simpl.
  destruct (bool_decide (payment_method ride = pm_wallet)).
  - destruct (Wallets.transferFunds _ _ _ _ _ _ _) as [ws [e|bal]]; simpl;
      rewrite Hu; simpl; rewrite insert_insert_eq; eauto.
  - simpl. rewrite Hu. simpl. rewrite insert_insert_eq. eauto.
Qed.

(** X9. When the assigned driver, whose user record exists, completes a
    ride in progress, the call answers 200, marks the ride completed and the
    driver available, whatever happens to the payment: for a wallet ride the
    payment status is completed and the wallets are those of the transfer
    when [transferFunds] succeeds, and failed with the wallets untouched when
    it throws; for any other method the payment is marked completed and no
    wallet is touched. *)
Theorem complete_settles_payment (fault : option nat) (db : DB) (rideId : RideId)
    (userId : UserId) (now : Date) (ride : Ride) (drv : User) :
  rides db !! rideId = Some ride ->
  driver ride = Some userId ->
  status ride = in_progress ->
  users db !! userId = Some drv ->
  let db' := fst (Rides.completeRide fault db rideId userId now) in
  let paid := Wallets.transferFunds fault (wallets db) (rider ride) userId
                (Fare.total (fare (trip ride))) (Some rideId) now in
  snd (Rides.completeRide fault db rideId userId now) = ok "Ride completed successfully"
  /\ users db' = <[userId := set_isAvailable true drv]> (users db)
  /\ exists ps,
       rides db'
       = <[rideId := set_payment_status ps (updateStatus completed None now ride)]> (rides db)
       /\ match payment_method ride, snd paid with
          | pm_wallet, inr _ => ps = pay_completed /\ wallets db' = fst paid
          | pm_wallet, inl _ => ps = pay_failed /\ wallets db' = wallets db
          | _, _ => ps = pay_completed /\ wallets db' = wallets db
          end.
Proof.
  intros Hr Hd Hs Hu. unfold Rides.completeRide. rewrite Hr, Hd.
  rewrite (bool_decide_eq_true_2 _ eq_refl), (bool_decide_eq_true_2 _ Hs). simpl.
  destruct (decide (payment_method ride = pm_wallet)) as [Hm|Hm].
  - rewrite (bool_decide_eq_true_2 _ Hm), Hm.
    unfold Wallets.transferFunds.
    destruct (Wallets.transfer_session _ _ _ _ _ _ _) as [e|[ws bal]]; simpl;
      rewrite Hu; simpl; rewrite insert_insert_eq; eauto 10.
  - rewrite (bool_decide_eq_false_2 _ Hm). simpl. rewrite Hu. simpl.
    rewrite insert_insert_eq. do 2 (split; [done|]). exists pay_completed.
    split; [done|]. destruct (payment_method ride); try done; by case_match.
Qed.

Lemma complete_settles_payment_witness :
  snd (Rides.completeRide None db_in_progress 1 2 300) = ok "Ride completed successfully"
  /\ users (fst (Rides.completeRide None db_in_progress 1 2 300))
     = <[2%positive := set_isAvailable true (sample_user role_driver false)]>
         (users db_in_progress)
  /\ exists ps,
       rides (fst (Rides.completeRide None db_in_progress 1 2 300))
       = <[1%positive := set_payment_status ps
                           (updateStatus completed None 300 ride_in_progress)]>
           (rides db_in_progress)
       /\ match payment_method ride_in_progress,
                snd (Wallets.transferFunds None (wallets db_in_progress)
                       (rider ride_in_progress) 2
                       (Fare.total (fare (trip ride_in_progress))) (Some 1%positive) 300)
          with
          | pm_wallet, inr _ =>
              ps = pay_completed
              /\ wallets (fst (Rides.completeRide None db_in_progress 1 2 300))
                 = fst (Wallets.transferFunds None (wallets db_in_progress)
                          (rider ride_in_progress) 2
                          (Fare.total (fare (trip ride_in_progress))) (Some 1%positive) 300)
          | pm_wallet, inl _ =>
              ps = pay_failed
              /\ wallets (fst (Rides.completeRide None db_in_progress 1 2 300))
                 = wallets db_in_progress
          | _, _ =>
              ps = pay_completed
              /\ wallets (fst (Rides.completeRide None db_in_progress 1 2 300))
                 = wallets db_in_progress
          end.
Proof.
  apply (complete_settles_payment None db_in_progress 1 2 300 ride_in_progress
           (sample_user role_driver false)); reflexivity.
Defined.

(** X10. On a pending ride and an available driver, [acceptRide], then
    [startRide], then [completeRide] by that driver all answer 200; the
    driver is unavailable from the acceptance until the completion and
    available after it; the ride ends completed with that driver, its rider
    and trip unchanged and the three dates of the three calls; no other ride
    is touched. *)
Theorem ride_lifecycle (fault : option nat) (db : DB) (rideId : RideId)
    (userId : UserId) (t1 t2 t3 : Date) (ride : Ride) (drv : User) :
  rides db !! rideId = Some ride ->
  status ride = pending ->
  users db !! userId = Some drv ->
  isAvailable drv = true ->
  let a := Rides.acceptRide db rideId userId t1 in
  let s := Rides.startRide (fst a) rideId userId t2 in
  let c := Rides.completeRide fault (fst s) rideId userId t3 in
  res_status (snd a) = 200 /\ res_status (snd s) = 200 /\ res_status (snd c) = 200
  /\ isAvailable <$> users (fst a) !! userId = Some false
  /\ isAvailable <$> users (fst s) !! userId = Some false
  /\ isAvailable <$> users (fst c) !! userId = Some true
  /\ (forall j, j <> rideId -> rides (fst c) !! j = rides db !! j)
  /\ exists r,
       rides (fst c) !! rideId = Some r
       /\ status r = completed /\ rider r = rider ride /\ driver r = Some userId
       /\ trip r = trip ride
       /\ acceptedAt r = Some t1 /\ startedAt r = Some t2 /\ completedAt r = Some t3.
Proof.
  intros Hr Hs Hu Ha a s c.
  assert (Ea : a = (set_users (<[userId := set_isAvailable false drv]> (users db))
                     (set_rides (<[rideId := updateStatus accepted None t1
                                               (set_driver userId ride)]> (rides db)) db),
                    Rides.accepted_ok)) by (by apply accept_pending).
  set (r1 := updateStatus accepted None t1 (set_driver userId ride)) in *.
  assert (Es : s = (set_rides (<[rideId := updateStatus in_progress None t2 r1]>
                                 (rides (fst a))) (fst a),
                    ok "Ride started successfully")).
  { subst s. rewrite Ea. unfold Rides.startRide. cbn [fst rides set_rides set_users].
    rewrite lookup_insert_eq. cbn [driver r1 set_driver updateStatus].
    subst r1. simpl. by rewrite (bool_decide_eq_true_2 _ eq_refl). }
  set (r2 := updateStatus in_progress None t2 r1) in *.
  assert (Hr2 : rides (fst s) !! rideId = Some r2).
  { rewrite Es. cbn [fst rides set_rides]. apply lookup_insert_eq. }
  assert (Hu2 : users (fst s) !! userId = Some (set_isAvailable false drv)).
  { rewrite Es, Ea. cbn [fst users set_rides set_users]. apply lookup_insert_eq. }
  destruct (complete_paid fault (fst s) rideId userId t3 r2 (set_isAvailable false drv)
              Hr2 eq_refl eq_refl Hu2) as (Ec & Euc & ps & Erc).
  fold c in Ec, Euc, Erc.
  split; [by rewrite Ea|]. split; [by rewrite Es|]. split; [by rewrite Ec|].
  split; [rewrite Ea; cbn [fst users set_users]; by rewrite lookup_insert_eq|].
  split; [by rewrite Hu2|].
  split; [rewrite Euc; by rewrite lookup_insert_eq|].
  split.
  { intros j Hj. rewrite Erc, lookup_insert_ne by done.
    rewrite Es. cbn [fst rides set_rides]. rewrite lookup_insert_ne by done.
    rewrite Ea. cbn [fst rides set_rides set_users]. by rewrite lookup_insert_ne. }
  eexists. split; [rewrite Erc; apply lookup_insert_eq|]. done.
Qed.

Lemma ride_lifecycle_witness :
  let a := Rides.acceptRide db_pending 1 2 100 in
  let s := Rides.startRide (fst a) 1 2 200 in
  let c := Rides.completeRide None (fst s) 1 2 300 in
  res_status (snd a) = 200 /\ res_status (snd s) = 200 /\ res_status (snd c) = 200
  /\ isAvailable <$> users (fst a) !! 2%positive = Some false
  /\ isAvailable <$> users (fst s) !! 2%positive = Some false
  /\ isAvailable <$> users (fst c) !! 2%positive = Some true
  /\ (forall j, j <> 1%positive -> rides (fst c) !! j = rides db_pending !! j)
  /\ exists r,
       rides (fst c) !! 1%positive = Some r
       /\ status r = completed /\ rider r = rider (sample_ride 1 None pending pm_cash 0)
       /\ driver r = Some 2%positive
       /\ trip r = trip (sample_ride 1 None pending pm_cash 0)
       /\ acceptedAt r = Some 100 /\ startedAt r = Some 200 /\ completedAt r = Some 300.
Proof.
  apply (ride_lifecycle None db_pending 1 2 100 200 300
           (sample_ride 1 None pending pm_cash 0) (sample_user role_driver true));
    reflexivity.
Defined.

Import RideOps.

(** * Sorting and slicing of arrays *)

Section Sorting.

Context {A : Type} (le : A -> A -> bool) (P : A -> Prop).

Hypothesis le_total : forall x y, P x -> P y -> le x y = false -> le y x = true.
Hypothesis le_trans :
  forall x y z, P x -> P y -> P z -> le x y = true -> le y z = true -> le x z = true.

Lemma insert_by_Permutation (x : A) (l : list A) : JsArray.insert_by le x l ≡ₚ x :: l.
Proof.
  induction l as [|y l IH]; simpl; [done|].
  destruct (le x y); [done|]. rewrite IH. apply Permutation_swap.
Qed.

Lemma sort_by_Permutation (l : list A) : JsArray.sort_by le l ≡ₚ l.
Proof.
  induction l as [|x l IH]; simpl; [done|].
  rewrite insert_by_Permutation. by rewrite IH.
Qed.

Lemma insert_by_sorted (x : A) (l : list A) :
  P x -> Forall P l ->
  StronglySorted (fun a b => le a b = true) l ->
  StronglySorted (fun a b => le a b = true) (JsArray.insert_by le x l).
Proof using le_total le_trans.
  intros Hx HP Hs. induction Hs as [|y l Hs IH Hy]; simpl.
  - repeat constructor.
  - apply Forall_cons in HP as [HPy HPl].
    destruct (le x y) eqn:Hxy.
    + constructor; [by constructor|]. constructor; [done|].
      apply Forall_forall. intros z Hz. rewrite Forall_forall in Hy, HPl.
      apply (le_trans x y z); auto.
    + constructor; [by apply IH|].
      rewrite insert_by_Permutation. constructor; [by apply le_total | done].
Qed.

Lemma sort_by_sorted (l : list A) :
  Forall P l -> StronglySorted (fun a b => le a b = true) (JsArray.sort_by le l).
Proof using le_total le_trans.
  induction 1 as [|x l Hx Hl IH]; simpl; [constructor|].
  apply insert_by_sorted; [done | by rewrite sort_by_Permutation | done].
Qed.

End Sorting.

Lemma StronglySorted_lookup {A} (R : A -> A -> Prop) (l : list A) (i j : nat) (a b : A) :
  StronglySorted R l -> (i < j)%nat -> l !! i = Some a -> l !! j = Some b -> R a b.
Proof.
  intros Hs. revert i j. induction Hs as [|x l Hs IH Hx]; intros i j Hij Hi Hj; [done|].
  destruct j as [|j]; [lia|]. simpl in Hj. destruct i as [|i]; simpl in Hi.
  - injection Hi as <-. rewrite Forall_forall in Hx. apply Hx.
    by apply list_elem_of_lookup_2 with j.
  - apply (IH i j); [lia | done | done].
Qed.

(** * Nearby drivers *)

Import Nearby.

(** X11. With latitude and longitude given, [findNearbyDrivers] lists
    exactly the users that are drivers, active, available, have a stored
    location and lie within the radius (10 when none is given) of the search
    point, each once and with its distance, in the order of increasing
    distance; a search point or radius that is not a number lists nobody. *)
Theorem nearby_drivers_exact_and_sorted calc (db : DB) (lat lon : option Number)
    (radius : QueryNumber) :
  exists res,
    findNearbyDrivers calc db (Some lat) (Some lon) radius = inr res
    /\ (forall u dist,
          (u, dist) ∈ res
          <-> exists usr coords d rad,
                users db !! u = Some usr
                /\ role usr = role_driver /\ isActive usr = true
                /\ isAvailable usr = true
                /\ location usr = Some coords
                /\ distance_from calc lon lat coords = Some d
                /\ default (Some 10%Q) radius = Some rad
                /\ (d <= rad)%Q /\ dist = Some d)
    /\ NoDup res.*1
    /\ (forall i j a b,
          (i < j)%nat -> res !! i = Some a -> res !! j = Some b ->
          exists x y, snd a = Some x /\ snd b = Some y /\ (x <= y)%Q).
Proof.
  eexists. split; [reflexivity|].
  set (near := filter _ (filter _ (map_to_list (users db)))).
  set (ds := with_distance calc lon lat <$> near).
  assert (Hnear : forall p, p ∈ near <->
            users db !! fst p = Some (snd p)
            /\ role (snd p) = role_driver /\ isActive (snd p) = true
            /\ nearby calc lon lat (default (Some 10%Q) radius) p = true).
  { intros [u usr]. unfold near. rewrite !list_elem_of_filter, elem_of_map_to_list.
    simpl. tauto. }
  assert (Hnearby : forall p, nearby calc lon lat (default (Some 10%Q) radius) p = true <->
            isAvailable (snd p) = true
            /\ exists coords d rad,
                 location (snd p) = Some coords
                 /\ distance_from calc lon lat coords = Some d
                 /\ default (Some 10%Q) radius = Some rad /\ (d <= rad)%Q).
  { intros p. unfold nearby, within. rewrite andb_true_iff.
    destruct (location (snd p)) as [coords|].
    2:{ split; [by intros [_ ?] | by intros (_ & c & d & rad & ? & _)]. }
    destruct (distance_from calc lon lat coords) as [d|] eqn:Hd.
    2:{ split; [by intros [_ ?] | intros (_ & c & d & rad & [= <-] & ? & _); congruence]. }
    destruct (default (Some 10%Q) radius) as [rad|].
    2:{ split; [by intros [_ ?] | by intros (_ & c & d' & rad & _ & _ & ? & _)]. }
    rewrite js_le_true. split.
    - intros [? ?]. split; [done|]. by exists coords, d, rad.
    - intros (? & c & d' & rad' & [= <-] & ? & [= <-] & ?). split; [done|]. congruence. }
  assert (Hsome : Forall (fun a : UserId * option Number => is_Some (snd a)) ds).
  { apply Forall_forall. intros a Ha. unfold ds in Ha.
    apply list_elem_of_fmap in Ha as (p & -> & Hp).
    apply Hnear in Hp as (_ & _ & _ & Hp). apply Hnearby in Hp as (_ & c & d & rad & Hl & Hd & _).
    unfold with_distance. simpl. rewrite Hl, Hd. eauto. }
  split; [|split].
  - intros u dist. rewrite sort_by_Permutation. unfold ds. rewrite list_elem_of_fmap. split.
    + intros (p & E & Hp). apply Hnear in Hp as (Hu & Hro & Hac & Hp).
      apply Hnearby in Hp as (Hav & c & d & rad & Hl & Hd & Hr & Hle).
      unfold with_distance in E. rewrite Hl, Hd in E. injection E as -> ->.
      exists (snd p), c, d, rad. done.
    + intros (usr & c & d & rad & Hu & Hro & Hac & Hav & Hl & Hd & Hr & Hle & ->).
      exists (u, usr). split.
      * unfold with_distance. simpl. by rewrite Hl, Hd.
      * apply Hnear. simpl. repeat split; try done. apply Hnearby. simpl. eauto 10.
  - rewrite sort_by_Permutation. unfold ds. rewrite <- list_fmap_compose.
    assert (E : (fst ∘ with_distance calc lon lat) <$> near = near.*1) by done.
    rewrite E. unfold near.
    assert (Hsub : forall (l : list (UserId * User)) (f : UserId * User -> Prop)
                     `{!forall x, Decision (f x)}, NoDup l.*1 -> NoDup (filter f l).*1).
    { intros l f ?. induction l as [|x l IH]; [done|]. simpl. intros Hnd.
      apply NoDup_cons in Hnd as [Hx Hl]. rewrite filter_cons.
      destruct (decide (f x)); [|by apply IH]. simpl. apply NoDup_cons. split; [|by apply IH].
      intros Hin. apply Hx. apply list_elem_of_fmap in Hin as (y & -> & Hy).
      apply list_elem_of_filter in Hy as [_ Hy]. apply list_elem_of_fmap. eauto. }
    apply Hsub, Hsub, NoDup_fst_map_to_list.
  - intros i j a b Hij Hi Hj.
    assert (Hs : StronglySorted (fun a b => closer a b = true) (JsArray.sort_by closer ds)).
    { apply (sort_by_sorted closer (fun a => is_Some (snd a))); [| |done].
      - intros x y [x' Hx] [y' Hy]. unfold closer. rewrite Hx, Hy.
        intros H. apply js_le_false in H. apply js_le_true. lra.
      - intros x y z [x' Hx] [y' Hy] [z' Hz]. unfold closer. rewrite Hx, Hy, Hz.
        rewrite !js_le_true. lra. }
    pose proof (StronglySorted_lookup _ _ i j a b Hs Hij Hi Hj) as Hab.
    assert (Ha : is_Some (snd a)).
    { rewrite Forall_forall in Hsome. apply Hsome. rewrite <- (sort_by_Permutation closer).
      by apply list_elem_of_lookup_2 with i. }
    assert (Hb : is_Some (snd b)).
    { rewrite Forall_forall in Hsome. apply Hsome. rewrite <- (sort_by_Permutation closer).
      by apply list_elem_of_lookup_2 with j. }
    destruct a as [ua da], b as [ub dd], Ha as [x Hx], Hb as [y Hy].
    simpl in Hx, Hy. subst da dd. exists x, y. by apply js_le_true in Hab.
Qed.

(** * Read handlers *)

Import RideQueries.

(** X12. The read handlers of a ride serve only its parties: [getRide]
    the rider or the driver, [getRiderLocation] and [getRiderInfo] the
    assigned driver (and what they return is the ride's rider), and
    [getDriverLocation] the rider (and what it returns is the stored location
    of the ride's driver). *)
Theorem reads_served_to_parties_only (db : DB) (rideId : RideId) (userId : UserId) :
  (forall ride, getRide db rideId userId = Served ride ->
     rides db !! rideId = Some ride
     /\ (rider ride = userId \/ driver ride = Some userId))
  /\ (forall riderId loc, getRiderLocation db rideId userId = Served (riderId, loc) ->
        exists ride u,
          rides db !! rideId = Some ride /\ driver ride = Some userId
          /\ rider ride = riderId /\ users db !! riderId = Some u /\ location u = loc)
  /\ (forall coords, getDriverLocation db rideId userId = Served coords ->
        exists ride d u,
          rides db !! rideId = Some ride /\ rider ride = userId
          /\ driver ride = Some d /\ users db !! d = Some u /\ location u = Some coords)
  /\ (forall riderId, getRiderInfo db rideId userId = Served riderId ->
        exists ride,
          rides db !! rideId = Some ride /\ driver ride = Some userId
          /\ rider ride = riderId).
Proof.
  unfold getRide, getRiderLocation, getDriverLocation, getRiderInfo, Rides.populated.
  destruct (rides db !! rideId) as [ride|]; [|by repeat split].
  split; [|split; [|split]].
  - intros ride'. simpl. destruct (users db !! rider ride) eqn:Hu; simpl; [|done].
    destruct (bool_decide (rider ride = userId)) eqn:Hr.
    { apply bool_decide_eq_true in Hr. simpl. intros [= <-]. auto. }
    simpl. destruct (driver ride) as [d|] eqn:Hdr; simpl; [|done].
    destruct (users db !! d); simpl; [|done].
    destruct (bool_decide (d = userId)) eqn:Hd; simpl; [|done].
    apply bool_decide_eq_true in Hd. intros [= <-]. subst. auto.
  - intros riderId loc. case_bool_decide; simpl; [|done].
    destruct (users db !! rider ride) as [u|] eqn:Hu; simpl; [|done].
    rewrite Hu. intros [= <- <-]. by exists ride, u.
  - intros coords. case_bool_decide; simpl; [|done].
    destruct (driver ride) as [d|] eqn:Hdr; simpl; [|done].
    destruct (users db !! d) as [u|] eqn:Hu; simpl; [|done]. rewrite Hu.
    destruct (location u) eqn:Hl; [|done]. intros [= <-]. by exists ride, d, u.
  - intros riderId. destruct (driver ride) as [d|] eqn:Hdr; [|done].
    case_bool_decide; simpl; [|done]. case_bool_decide; simpl; [|done].
    destruct (users db !! rider ride); simpl; [|done]. intros [= <-]. exists ride.
    by subst.
Qed.

(** X13. [getRiderInfo] serves only rides that are accepted or completed:
    its status list names 'started', which no ride ever has, and not
    'in_progress'.  So right after a [startRide] call that answered 200 the
    same driver is refused the rider's contact details with 400. *)
Theorem rider_info_closed_while_in_progress (db : DB) (rideId : RideId) (userId : UserId)
    (now : Date) :
  (forall riderId, getRiderInfo db rideId userId = Served riderId ->
     exists ride, rides db !! rideId = Some ride
                  /\ (status ride = accepted \/ status ride = completed))
  /\ (res_status (snd (Rides.startRide db rideId userId now)) = 200 ->
      getRiderInfo (fst (Rides.startRide db rideId userId now)) rideId userId
      = Refused (bad_request "Rider information only available for accepted rides")).
Proof.
  split.
  - intros riderId. unfold getRiderInfo.
    destruct (rides db !! rideId) as [ride|]; [|done].
    destruct (driver ride) as [d|]; [|done].
    case_bool_decide; simpl; [|done].
    case_bool_decide as Hin; simpl; [|done].
    intros _. exists ride. split; [done|].
    destruct (status ride); auto; exfalso;
      apply (bool_decide_pack _) in Hin; by vm_compute in Hin.
  - unfold Rides.startRide.
    destruct (rides db !! rideId) as [ride|] eqn:Hr; [|done].
    destruct (driver ride) as [d|] eqn:Hd; [|done].
    case_bool_decide as Hu; simpl; [|done].
    case_bool_decide as Hs; simpl; [|done]. intros _.
    unfold getRiderInfo. cbn [fst rides set_rides]. rewrite lookup_insert_eq.
    cbn [driver updateStatus set_status set_startedAt]. simpl. rewrite Hd.
    by rewrite (bool_decide_eq_true_2 _ Hu).
Qed.

Lemma getActiveRide_Some (db : DB) (userId : UserId) (i : RideId) (r : Ride) :
  getActiveRide db userId = Some (i, r) ->
  rides db !! i = Some r /\ party userId r = true /\ Rides.is_active (status r) = true.
Proof.
  unfold getActiveRide. intros H. apply fmap_Some in H as ([k [i' r']] & Hf & E).
  simpl in E. injection E as <- <-.
  apply list_find_Some in Hf as (Hk & Hp & _). simpl in Hp.
  apply andb_true_iff in Hp as [? ?].
  split; [|done]. apply elem_of_map_to_list. by apply list_elem_of_lookup_2 with k.
Qed.

Lemma getActiveRide_None (db : DB) (userId : UserId) :
  getActiveRide db userId = None
  <-> forall i r, rides db !! i = Some r -> party userId r = true ->
                  Rides.is_active (status r) = false.
Proof.
  unfold getActiveRide. rewrite fmap_None, list_find_None, Forall_forall. split.
  - intros H i r Hi Hp. apply elem_of_map_to_list in Hi. apply H in Hi. simpl in Hi.
    rewrite Hp in Hi. simpl in Hi. by destruct (Rides.is_active (status r)).
  - intros H [i r] Hi. apply elem_of_map_to_list in Hi. simpl.
    destruct (party userId r) eqn:Hp; [|done]. simpl. by rewrite (H i r Hi Hp).
Qed.

(** X14. [getActiveRide] answers with a stored ride that is pending,
    accepted or in progress and has the caller as rider or driver; it
    answers null exactly when there is no such ride; and whenever
    [requestRide] refuses the caller for an active ride, [getActiveRide]
    shows one. *)
Theorem active_ride_query calc (db : DB) (userId : UserId)
    (body : Rides.RideRequest) (now : Date) (newId : RideId) :
  (forall i r, getActiveRide db userId = Some (i, r) ->
     rides db !! i = Some r
     /\ (rider r = userId \/ driver r = Some userId)
     /\ Rides.is_active (status r) = true)
  /\ (getActiveRide db userId = None
      <-> forall i r, rides db !! i = Some r ->
                      rider r = userId \/ driver r = Some userId ->
                      Rides.is_active (status r) = false)
  /\ (snd (Rides.requestRide calc db userId body now newId)
      = bad_request "You already have an active ride request. Please wait or cancel it first."
      -> is_Some (getActiveRide db userId)).
Proof.
  assert (Hparty : forall r, party userId r = true
                             <-> rider r = userId \/ driver r = Some userId).
  { intros r. unfold party. rewrite orb_true_iff, !bool_decide_eq_true. done. }
  split; [|split].
  - intros i r H. apply getActiveRide_Some in H as (? & Hp & ?). by rewrite <- Hparty.
  - rewrite getActiveRide_None. by setoid_rewrite Hparty.
  - intros Hres.
    destruct (Rides.req_pickup body) as [p|] eqn:Hp;
      [|by unfold Rides.requestRide in Hres; rewrite Hp in Hres].
    destruct (Rides.req_destination body) as [d|] eqn:Hd;
      [|by unfold Rides.requestRide in Hres; rewrite Hp, Hd in Hres].
    assert (Hex : exists i r, rides db !! i = Some r /\ rider r = userId
                    /\ Rides.is_active (status r) = true
                    /\ Rides.stale_pending userId now r = false).
    { revert Hres. unfold Rides.requestRide. rewrite Hp, Hd.
      set (stale := filter _ (rides db)).
      assert (Hclean : (if decide (stale = ∅) then db
                        else set_rides (Rides.deleteStale userId now (rides db)) db)
                       = set_rides (Rides.deleteStale userId now (rides db)) db).
      { destruct (decide (stale = ∅)) as [He|]; [|done].
        rewrite deleteStale_none by done. by destruct db. }
      rewrite Hclean. clear Hclean stale. cbv zeta. cbn [rides set_rides].
      destruct (Rides.has_active_ride userId _) eqn:Hact.
      - intros _. apply has_active_ride_true in Hact as (i & r & Hi & Hr & Ha).
        exists i, r. rewrite deleteStale_lookup in Hi.
        destruct (rides db !! i) as [r0|]; [|done]. simpl in Hi.
        destruct (Rides.stale_pending userId now r0) eqn:Hs; [done|]. by simplify_eq.
      - repeat case_match; unfold ret in *; simplify_eq; simpl; done. }
    destruct Hex as (i & r & Hi & Hr & Ha & _).
    destruct (getActiveRide db userId) eqn:Hg; [done|]. exfalso.
    rewrite getActiveRide_None in Hg. specialize (Hg i r Hi).
    rewrite Hparty in Hg. rewrite Hg in Ha; [done | by left].
Qed.

(** X15. A completed ride that is stamped as its status says has a
    [durationInMinutes], and that number of minutes is within half a minute
    of the time between [startedAt] and [completedAt]. *)
Theorem duration_in_minutes_rounds (r : Ride) :
  well_stamped r ->
  status r = completed ->
  exists s c m,
    startedAt r = Some s /\ completedAt r = Some c
    /\ durationInMinutes r = Some m
    /\ (60000 * m - 30000 <= c - s < 60000 * m + 30000)%Z.
Proof.
  unfold well_stamped. intros Hw Hs. rewrite Hs in Hw.
  destruct Hw as (_ & _ & [s Es] & [c Ec]).
  unfold durationInMinutes. rewrite Es, Ec.
  set (x := (inject_Z (c - s) / inject_Z (1000 * 60) + (1 # 2))%Q).
  exists s, c, (Qfloor x). repeat split.
  - pose proof (Qfloor_le x) as H.
    assert (H' : (inject_Z (60000 * Qfloor x - 30000) <= inject_Z (c - s))%Q).
    { unfold Z.sub at 1. rewrite inject_Z_plus, inject_Z_mult, inject_Z_opp. subst x.
      change (inject_Z (1000 * 60)) with (60000 # 1)%Q in H.
      change (inject_Z 60000) with (60000 # 1)%Q.
      change (inject_Z 30000) with (30000 # 1)%Q.
      set (q := inject_Z (c - s)) in *. set (f := inject_Z (Qfloor _)) in *.
      clearbody f q. unfold Qdiv in H.
      change (/ (60000 # 1))%Q with (1 # 60000)%Q in H. lra. }
    by rewrite Zle_Qle.
  - pose proof (Qlt_floor x) as H.
    assert (H' : (inject_Z (c - s) < inject_Z (60000 * Qfloor x + 30000))%Q).
    { rewrite inject_Z_plus, inject_Z_mult. rewrite inject_Z_plus in H. subst x.
      change (inject_Z (1000 * 60)) with (60000 # 1)%Q in H.
      change (inject_Z 60000) with (60000 # 1)%Q.
      change (inject_Z 30000) with (30000 # 1)%Q.
      change (inject_Z 1) with 1%Q in H.
      set (q := inject_Z (c - s)) in *. set (f := inject_Z (Qfloor _)) in *.
      clearbody f q. unfold Qdiv in H.
      change (/ (60000 # 1))%Q with (1 # 60000)%Q in H. lra. }
    by rewrite Zlt_Qlt.
Qed.

Lemma duration_in_minutes_rounds_witness :
  exists s c m,
    startedAt ride_done = Some s /\ completedAt ride_done = Some c
    /\ RideQueries.durationInMinutes ride_done = Some m
    /\ (60000 * m - 30000 <= c - s < 60000 * m + 30000)%Z.
Proof.
  apply (duration_in_minutes_rounds ride_done); [|reflexivity].
  repeat split; by eexists.
Defined.

(** * Payment methods *)

Import PaymentMethods.







(** * The transaction listing *)

Lemma slice_page {A} (l : list A) (skip limit : Z) :
  0 <= skip -> 0 <= limit ->
  JsArray.slice l skip (skip + limit) = take (Z.to_nat limit) (drop (Z.to_nat skip) l).
Proof.
  intros Hs Hl. unfold JsArray.slice, JsArray.slice_index.
  rewrite (proj2 (Z.ltb_ge skip 0)) by lia.
  rewrite (proj2 (Z.ltb_ge (skip + limit) 0)) by lia.
  destruct (decide (Z.of_nat (length l) <= skip)) as [Hge|Hlt].
  - rewrite !(drop_ge l) by lia. by rewrite !take_nil.
  - rewrite (Z.min_l skip) by lia.
    destruct (decide (skip + limit <= Z.of_nat (length l))) as [Hin|Hout].
    + rewrite Z.min_l by lia. f_equal. lia.
    + rewrite Z.min_r by lia. rewrite !take_ge; [done | |]; rewrite length_drop; lia.
Qed.

Lemma chunks_concat {A} (c : nat) (l : list A) (n : nat) :
  (length l <= n * c)%nat ->
  concat ((fun k => take c (drop (k * c) l)) <$> seq 0 n) = l.
Proof.
  revert l. induction n as [|n IH]; intros l Hl.
  - simpl in Hl. by rewrite (nil_length_inv l) by lia.
  - cbn [seq]. rewrite <- fmap_S_seq, fmap_cons, <- list_fmap_compose. cbn [concat].
    transitivity (take c l ++ drop c l); [|apply take_drop]. f_equal.
    etransitivity; [|apply (IH (drop c l)); rewrite length_drop; lia].
    f_equal. apply list_fmap_ext. intros _ k _. simpl. by rewrite drop_drop.
Qed.

Lemma ceiling_pages (len lim : Z) :
  0 <= len -> 0 < lim ->
  0 <= Qceiling (inject_Z len / inject_Z lim)
  /\ len <= Qceiling (inject_Z len / inject_Z lim) * lim.
Proof.
  intros Hlen Hlim. set (c := Qceiling _).
  pose proof (Qle_ceiling (inject_Z len / inject_Z lim)) as H. fold c in H.
  assert (Hpos : (0 < inject_Z lim)%Q).
  { change 0%Q with (inject_Z 0). by rewrite <- Zlt_Qlt. }
  assert (H' : (inject_Z len <= inject_Z c * inject_Z lim)%Q).
  { apply (Qmult_le_compat_r _ _ (inject_Z lim)) in H; [|lra].
    assert (E : (inject_Z len / inject_Z lim * inject_Z lim == inject_Z len)%Q)
      by (field; lra).
    by rewrite E in H. }
  rewrite <- inject_Z_mult, <- Zle_Qle in H'. split; [nia | done].
Qed.

Lemma StronglySorted_weaken {A} (R R' : A -> A -> Prop) (l : list A) :
  (forall a b, R a b -> R' a b) -> StronglySorted R l -> StronglySorted R' l.
Proof.
  intros HR. induction 1 as [|x l Hs IH Hx]; constructor; [done|].
  eapply Forall_impl; [exact Hx | auto].
Qed.

(** X17. For a positive page size, the pages 1, 2, ..., [pages] of
    [GET /transactions], one after the other, are exactly the wallet's
    transactions from the newest to the oldest; every page holds at most
    [limit] entries, every later page is empty, and every answer reports the
    same total and page count. *)
Theorem transaction_pages_partition (ws : gmap UserId Wallet) (userId : UserId)
    (w : Wallet) (queryLimit : option Z) :
  ws !! userId = Some w ->
  0 < Listing.parsed_or queryLimit 20 ->
  let page_of (p : Z) :=
    match Listing.transactions_route ws userId (Some p) queryLimit with
    | inr (l, _) => l
    | inl _ => []
    end in
  exists sorted n,
    sorted ≡ₚ transactions w
    /\ StronglySorted (fun a b => tx_createdAt b <= tx_createdAt a) sorted
    /\ (forall p, exists l,
          Listing.transactions_route ws userId p queryLimit
          = inr (l, Listing.mkPagination (Listing.parsed_or p 1)
                      (Listing.parsed_or queryLimit 20)
                      (Z.of_nat (length (transactions w))) (Z.of_nat n)))
    /\ concat ((fun k => page_of (Z.of_nat k)) <$> seq 1 n) = sorted
    /\ (forall p, 1 <= p ->
          (length (page_of p) <= Z.to_nat (Listing.parsed_or queryLimit 20))%nat)
    /\ (forall p, Z.of_nat n < p -> page_of p = []).
Proof.
  intros Hw Hlim page_of. set (lim := Listing.parsed_or queryLimit 20) in *.
  set (sorted := JsArray.sort_by Listing.newer (transactions w)).
  destruct (ceiling_pages (Z.of_nat (length (transactions w))) lim ltac:(lia) Hlim)
    as [Hn0 Hn]. set (c := Qceiling _) in *.
  assert (Hperm : sorted ≡ₚ transactions w) by apply sort_by_Permutation.
  assert (Hlen : length sorted = length (transactions w)) by (by rewrite Hperm).
  assert (Hpage : forall p, 1 <= p ->
            page_of p = take (Z.to_nat lim) (drop (Z.to_nat ((p - 1) * lim)) sorted)).
  { intros p Hp. unfold page_of, Listing.transactions_route. rewrite Hw.
    assert (E : Listing.parsed_or (Some p) 1 = p) by (destruct p; done || lia).
    rewrite E. fold lim sorted. apply slice_page; nia. }
  exists sorted, (Z.to_nat c). split; [done|]. split; [|split; [|split; [|split]]].
  - apply StronglySorted_weaken with (fun a b => Listing.newer a b = true).
    { intros a b. unfold Listing.newer. lia. }
    apply (sort_by_sorted Listing.newer (fun _ => True)).
    + intros x y _ _. unfold Listing.newer. lia.
    + intros x y z _ _ _. unfold Listing.newer. lia.
    + by apply Forall_forall.
  - intros p. unfold Listing.transactions_route. rewrite Hw. eexists. f_equal. f_equal.
    f_equal. fold lim c. lia.
  - etransitivity;
      [|apply (chunks_concat (Z.to_nat lim) sorted (Z.to_nat c)); rewrite Hlen; nia].
    rewrite <- fmap_S_seq, <- list_fmap_compose. f_equal. apply list_fmap_ext.
    intros _ k _. simpl. rewrite Hpage by lia. do 2 f_equal. nia.
  - intros p Hp. rewrite Hpage by done. rewrite length_take. apply Nat.le_min_l.
  - intros p Hp. rewrite Hpage by lia. rewrite drop_ge; [apply take_nil|]. rewrite Hlen.
    assert (c * lim <= (p - 1) * lim) by nia. lia.
Qed.

Lemma transaction_pages_partition_witness :
  let page_of (p : Z) :=
    match Listing.transactions_route ws_three 1 (Some p) (Some 2) with
    | inr (l, _) => l
    | inl _ => []
    end in
  exists sorted n,
    sorted ≡ₚ transactions wallet_three
    /\ StronglySorted (fun a b => tx_createdAt b <= tx_createdAt a) sorted
    /\ (forall p, exists l,
          Listing.transactions_route ws_three 1 p (Some 2)
          = inr (l, Listing.mkPagination (Listing.parsed_or p 1)
                      (Listing.parsed_or (Some 2) 20)
                      (Z.of_nat (length (transactions wallet_three))) (Z.of_nat n)))
    /\ concat ((fun k => page_of (Z.of_nat k)) <$> seq 1 n) = sorted
    /\ (forall p, 1 <= p ->
          (length (page_of p) <= Z.to_nat (Listing.parsed_or (Some 2%Z) 20%Z))%nat)
    /\ (forall p, Z.of_nat n < p -> page_of p = []).
Proof.
  apply (transaction_pages_partition ws_three 1 wallet_three (Some 2)); reflexivity.
Defined.

Import WalletRoutes.
Import Ledger.

(** * Transfers that go through *)

Lemma transfer_goes_through (ws : gmap UserId Wallet) (fromUserId toUserId : UserId)
    (amt : Number) (rideId : option RideId) (now : Date) (fw tw : Wallet) :
  ws !! fromUserId = Some fw ->
  ws !! toUserId = Some tw ->
  Wallets.canWithdraw fw amt = true ->
  js_le 0 amt = true ->
  js_le 0 (balance tw + amt) = true ->
  exists tf tt,
    (tx_type tf = transfer /\ amount tf = amt /\ tx_status tf = tx_completed)
    /\ (tx_type tt = transfer /\ amount tt = amt /\ tx_status tt = tx_completed)
    /\ Wallets.transferFunds None ws fromUserId toUserId amt rideId now
    = (alter (push tt) toUserId
         (alter (push tf) fromUserId
            (alter (set_balance (balance tw + amt)) toUserId
               (alter (set_balance (balance fw - amt)) fromUserId ws))),
       inr ((balance fw - amt)%Q, (balance tw + amt)%Q)).
Proof.
  intros Hf Ht Hcw Hamt Hpos.
  unfold Wallets.transferFunds, Wallets.transfer_session, Wallets.store_op.
  simpl. rewrite Hf, Ht, Hcw. simpl.
  unfold Wallets.canWithdraw in Hcw. apply andb_true_iff in Hcw as [Hge _].
  unfold Wallets.updateBalance. rewrite Hge. simpl.
  assert (Hfb : js_le 0 (balance fw - amt) = true).
  { apply js_le_true. apply js_ge_true in Hge. lra. }
  rewrite Hfb. simpl. rewrite Hpos. simpl.
  unfold Wallets.save_pushed, Wallets.tx_valid, Wallets.store_op. simpl.
  rewrite Hamt. simpl. eexists _, _. split; [|split; [|reflexivity]]; done.
Qed.

(** X18. With no failure of the store, [transferFunds] succeeds exactly
    when both wallets exist, the sender's wallet is active and holds at
    least the amount, the amount is not negative, and the receiver's balance
    does not become negative. *)
Theorem transfer_succeeds_iff_funded (ws : gmap UserId Wallet)
    (fromUserId toUserId : UserId) (amt : Number) (rideId : option RideId) (now : Date) :
  (exists balances,
     snd (Wallets.transferFunds None ws fromUserId toUserId amt rideId now) = inr balances)
  <-> exists fw tw,
        ws !! fromUserId = Some fw /\ ws !! toUserId = Some tw
        /\ wallet_isActive fw = true
        /\ (0 <= amt)%Q /\ (amt <= balance fw)%Q /\ (0 <= balance tw + amt)%Q.
Proof.
  split.
  - intros [[bf bt] H].
    destruct (Wallets.transferFunds None ws fromUserId toUserId amt rideId now)
      as [ws' r] eqn:E. simpl in H. subst r.
    apply transfer_success in E
      as (fw & tw & tf & tt & Hf & Ht & Hcw & Hpos & Hamt & _).
    exists fw, tw. unfold Wallets.canWithdraw in Hcw.
    apply andb_true_iff in Hcw as [Hge Hact].
    apply js_ge_true in Hge. apply js_le_true in Hpos. apply js_le_true in Hamt. done.
  - intros (fw & tw & Hf & Ht & Hact & Hamt & Hge & Hpos).
    destruct (transfer_goes_through ws fromUserId toUserId amt rideId now fw tw Hf Ht)
      as (tf & tt & _ & _ & E).
    + unfold Wallets.canWithdraw. rewrite Hact, andb_true_r. by apply js_ge_true.
    + by apply js_le_true.
    + by apply js_le_true.
    + rewrite E. eauto.
Qed.

(** X19. A transfer to oneself is not refused: [POST /transfer] with the
    caller as recipient, an active wallet and a positive amount within the
    balance answers 200, and the wallet ends with its balance raised by the
    amount and two more transfer entries; the debit written from the first
    copy of the document is overwritten by the credit computed on the
    second. *)
Theorem self_transfer_credits (db : DB) (userId : UserId) (amt : Number)
    (rideId : option RideId) (now : Date) (usr : User) (w : Wallet) :
  users db !! userId = Some usr ->
  wallets db !! userId = Some w ->
  wallet_isActive w = true ->
  (0 < amt)%Q -> (amt <= balance w)%Q ->
  let out := transfer_route db userId (Some userId) amt rideId now None in
  snd out = ok "Transfer successful"
  /\ exists w' tf tt,
       wallets (fst out) !! userId = Some w'
       /\ balance w' = (balance w + amt)%Q
       /\ transactions w' = transactions w ++ [tf; tt]
       /\ (tx_type tf = transfer /\ amount tf = amt /\ tx_status tf = tx_completed)
       /\ (tx_type tt = transfer /\ amount tt = amt /\ tx_status tt = tx_completed)
       /\ (forall v, v <> userId -> wallets (fst out) !! v = wallets db !! v).
Proof.
  intros Hu Hw Hact Hamt Hge. unfold transfer_route.
  assert (Hbad : bad_amount amt = false).
  { unfold bad_amount. apply orb_false_iff. split.
    - apply not_true_iff_false. intros H. apply Qeq_bool_iff in H. lra.
    - apply not_true_iff_false. intros H. apply js_le_true in H. lra. }
  rewrite Hbad, Hu.
  destruct (transfer_goes_through (wallets db) userId userId amt rideId now w w Hw Hw)
    as (tf & tt & Htf & Htt & E).
  { unfold Wallets.canWithdraw. rewrite Hact, andb_true_r. by apply js_ge_true. }
  { apply js_le_true. lra. }
  { apply js_le_true. lra. }
  rewrite E. simpl. split; [done|]. eexists _, tf, tt.
  split; [|split; [|split; [|split; [|split]]]]; try done.
  - rewrite !lookup_alter_eq, Hw. reflexivity.
  - done.
  - simpl. by rewrite <- app_assoc.
  - intros v Hv. by rewrite !lookup_alter_ne.
Qed.

Lemma self_transfer_credits_witness :
  let out := WalletRoutes.transfer_route db_three 1 (Some 1%positive) 4 None 40 None in
  snd out = ok "Transfer successful"
  /\ exists w' tf tt,
       wallets (fst out) !! 1%positive = Some w'
       /\ balance w' = (balance wallet_three + 4)%Q
       /\ transactions w' = transactions wallet_three ++ [tf; tt]
       /\ (tx_type tf = transfer /\ amount tf = 4%Q /\ tx_status tf = tx_completed)
       /\ (tx_type tt = transfer /\ amount tt = 4%Q /\ tx_status tt = tx_completed)
       /\ (forall v, v <> 1%positive -> wallets (fst out) !! v = wallets db_three !! v).
Proof.
  apply (self_transfer_credits db_three 1 4 None 40 (sample_user role_rider true)
           wallet_three); [reflexivity | reflexivity | reflexivity | lra | simpl; lra].
Defined.

(** * A deposit and its confirmation *)

Lemma pending_tx_metadata (ty : TxType) (amt : Number)
    (descr paymentMethod phoneNumber ref : string) (now : Date) :
  metadata (pending_tx ty amt descr paymentMethod phoneNumber ref now)
  = {[ "paymentMethod" := MStr paymentMethod ]}.
Proof.
  unfold pending_tx, strict. simpl.
  rewrite map_filter_insert_True by (apply (bool_decide_unpack _); by vm_compute).
  rewrite map_filter_insert_False by (apply (bool_decide_unpack _); by vm_compute).
  rewrite delete_insert_ne by done.
  rewrite map_filter_insert_False by (apply (bool_decide_unpack _); by vm_compute).
  by rewrite !delete_empty, map_filter_empty.
Qed.

(** X20. A deposit accepted by the gateway leaves the balance as it was
    and appends a pending deposit entry whose stored metadata is the payment
    method alone: the phone number and the external reference are not paths
    of the schema.  A webhook delivered afterwards for the reference issued
    to the deposit, whatever its status and amount, is answered 404
    "Transaction not found" and changes nothing: the entry stays pending and
    the balance is not raised.  No other wallet changes. *)
Theorem accepted_deposit_stays_pending (ws : gmap UserId Wallet) (userId : UserId)
    (userRole : Role) (amt amt' : Number) (paymentMethod phoneNumber : string)
    (now now' : Date) (paymentId gatewayStatus st : string) :
  let ref := externalReference "DEP_" now userId in
  let initiated :=
    deposit_route ws userId userRole amt paymentMethod phoneNumber now
      (GatewayAccepted paymentId gatewayStatus) in
  let settled := campay_webhook (fst initiated) ref st amt' now' in
  res_status (snd initiated) = 200 ->
  settled = (fst initiated, not_found "Transaction not found")
  /\ exists w0 t0,
       (ws !! userId = Some w0
        \/ (ws !! userId = None /\ w0 = mkWallet userRole 0 true []))
       /\ fst settled !! userId = Some (push t0 w0)
       /\ balance (push t0 w0) = balance w0
       /\ tx_type t0 = deposit /\ amount t0 = amt
       /\ tx_status t0 = tx_pending /\ tx_completedAt t0 = None
       /\ metadata t0 = {[ "paymentMethod" := MStr paymentMethod ]}
       /\ forall v, v <> userId -> fst settled !! v = ws !! v.
Proof.
  intros ref initiated settled. subst settled.
  rewrite campay_webhook_not_found. cbn [fst]. subst initiated.
  unfold deposit_route.
  destruct (bad_amount amt) eqn:Hamt; [done|].
  destruct (decide (phoneNumber = EmptyString)); [done|].
  destruct (Wallets.findOrCreate userId userRole ws) as [e|[ws1 w0]] eqn:Hfc; [done|].
  destruct (negb _) eqn:Hvalid; [done|]. intros _. cbn [fst snd].
  rewrite note_gateway_push, insert_insert_eq.
  split; [done|].
  pose proof (findOrCreate_inr _ _ _ _ _ Hfc) as [Hw0 Hcase].
  eexists w0, _. split.
  { destruct Hcase as [-> | (? & ? & _)]; auto. }
  split; [apply lookup_insert_eq|].
  split; [done|]. split; [done|]. split; [done|]. split; [done|]. split; [done|].
  split; [apply pending_tx_metadata|].
  intros v Hv. rewrite lookup_insert_ne by done.
  destruct Hcase as [-> | (_ & _ & ->)]; [done | by rewrite lookup_insert_ne].
Qed.

Lemma accepted_deposit_stays_pending_witness :
  let initiated :=
    WalletRoutes.deposit_route ∅ 1 role_rider 1000 "mtn_momo" "677000000" 0
      (WalletRoutes.GatewayAccepted "pay-1" "PENDING") in
  WalletRoutes.campay_webhook (fst initiated)
    (WalletRoutes.externalReference "DEP_" 0 1) "SUCCESSFUL" 1000 10
  = (fst initiated, not_found "Transaction not found").
Proof.
  apply (accepted_deposit_stays_pending ∅ 1 role_rider 1000 1000 "mtn_momo"
           "677000000" 0 10 "pay-1" "PENDING" "SUCCESSFUL").
  reflexivity.
Defined.

(** * Availability of drivers *)

Lemma set_isAvailable_same (u : User) : set_isAvailable (isAvailable u) u = u.
Proof. by destruct u. Qed.

Lemma set_users_id (db : DB) : set_users (users db) db = db.
Proof. by destruct db. Qed.

(** X21. For a driver, [toggleAvailability] does what [updateDriverStatus]
    does with the opposite of the current flag, and toggling twice gives
    back the store as it was. *)
Theorem toggle_twice_restores (db : DB) (userId : UserId) (usr : User) :
  users db !! userId = Some usr ->
  role usr = role_driver ->
  let once := Drivers.toggleAvailability db userId in
  let twice := Drivers.toggleAvailability (fst once) userId in
  once = Drivers.updateDriverStatus db userId (Some (negb (isAvailable usr)))
  /\ isAvailable <$> users (fst once) !! userId = Some (negb (isAvailable usr))
  /\ res_status (snd once) = 200 /\ res_status (snd twice) = 200
  /\ fst twice = db.
Proof.
  intros Hu Hr. unfold Drivers.toggleAvailability, Drivers.updateDriverStatus.
  rewrite Hu, (bool_decide_eq_true_2 _ Hr). cbn [negb fst snd users set_users].
  rewrite lookup_insert_eq. cbn [role set_isAvailable].
  rewrite (bool_decide_eq_true_2 _ Hr). cbn [negb fst snd users set_users].
  rewrite insert_insert_eq. cbn [isAvailable set_isAvailable]. rewrite negb_involutive.
  repeat split; try done.
  assert (E : set_isAvailable (isAvailable usr)
                (set_isAvailable (negb (isAvailable usr)) usr) = usr) by (by destruct usr).
  rewrite E. destruct db as [rs us ws]. simpl in *. unfold set_users. simpl.
  by rewrite insert_id.
Qed.

Lemma toggle_twice_restores_witness :
  let once := Drivers.toggleAvailability db_pending 2 in
  let twice := Drivers.toggleAvailability (fst once) 2 in
  once = Drivers.updateDriverStatus db_pending 2
           (Some (negb (isAvailable (sample_user role_driver true))))
  /\ isAvailable <$> users (fst once) !! 2%positive
     = Some (negb (isAvailable (sample_user role_driver true)))
  /\ res_status (snd once) = 200 /\ res_status (snd twice) = 200
  /\ fst twice = db_pending.
Proof.
  apply (toggle_twice_restores db_pending 2 (sample_user role_driver true)); reflexivity.
Defined.

(** X22. The availability flag is the only thing that keeps a driver from
    a second ride: after accepting one pending ride, a driver is refused
    another ("You are not available for rides"), but after toggling
    themselves available they can accept the other ride too, and both rides
    are then accepted with that driver. *)
Theorem driver_can_hold_two_rides (db : DB) (i j : RideId) (userId : UserId)
    (t1 t2 : Date) (ri rj : Ride) (usr : User) :
  i <> j ->
  rides db !! i = Some ri -> status ri = pending ->
  rides db !! j = Some rj -> status rj = pending ->
  users db !! userId = Some usr -> role usr = role_driver -> isAvailable usr = true ->
  let a := Rides.acceptRide db i userId t1 in
  let t := Drivers.toggleAvailability (fst a) userId in
  let b := Rides.acceptRide (fst t) j userId t2 in
  res_status (snd a) = 200
  /\ snd (Rides.acceptRide (fst a) j userId t2)
     = bad_request "You are not available for rides"
  /\ res_status (snd t) = 200
  /\ res_status (snd b) = 200
  /\ exists ri' rj',
       rides (fst b) !! i = Some ri' /\ rides (fst b) !! j = Some rj'
       /\ status ri' = accepted /\ driver ri' = Some userId
       /\ status rj' = accepted /\ driver rj' = Some userId.
Proof.
  intros Hij Hi Hsi Hj Hsj Hu Hr Ha a t b.
  assert (Ea : a = (set_users (<[userId := set_isAvailable false usr]> (users db))
                     (set_rides (<[i := updateStatus accepted None t1
                                          (set_driver userId ri)]> (rides db)) db),
                    Rides.accepted_ok)) by (by apply accept_pending).
  assert (Hj1 : rides (fst a) !! j = Some rj).
  { rewrite Ea. cbn [fst rides set_users set_rides]. by rewrite lookup_insert_ne. }
  assert (Hu1 : users (fst a) !! userId = Some (set_isAvailable false usr)).
  { rewrite Ea. cbn [fst users set_users]. apply lookup_insert_eq. }
  assert (Et : t = (set_users (<[userId := set_isAvailable true (set_isAvailable false usr)]>
                                 (users (fst a))) (fst a),
                    ok "Driver available")).
  { subst t. unfold Drivers.toggleAvailability. rewrite Hu1.
    cbn [role set_isAvailable]. by rewrite (bool_decide_eq_true_2 _ Hr). }
  assert (Hj2 : rides (fst t) !! j = Some rj) by (by rewrite Et).
  assert (Hu2 : users (fst t) !! userId
                = Some (set_isAvailable true (set_isAvailable false usr))).
  { rewrite Et. cbn [fst users set_users]. apply lookup_insert_eq. }
  pose proof (accept_pending (fst t) j userId t2 rj _ Hj2 Hsj Hu2 eq_refl) as Eb.
  fold b in Eb.
  split; [by rewrite Ea|]. split.
  { unfold Rides.acceptRide. simpl. rewrite Hj1. simpl.
    rewrite (bool_decide_eq_true_2 _ Hsj). simpl. by rewrite Hu1. }
  split; [by rewrite Et|]. split; [by rewrite Eb|].
  eexists _, _. split; [|split; [rewrite Eb; cbn [fst rides set_users set_rides];
                                 apply lookup_insert_eq|]].
  - rewrite Eb. cbn [fst rides set_users set_rides]. rewrite lookup_insert_ne by done.
    rewrite Et. cbn [fst rides set_users set_rides]. rewrite Ea.
    cbn [fst rides set_users set_rides]. apply lookup_insert_eq.
  - done.
Qed.

Lemma driver_can_hold_two_rides_witness :
  let a := Rides.acceptRide db_two_pending 1 2 100 in
  let t := Drivers.toggleAvailability (fst a) 2 in
  let b := Rides.acceptRide (fst t) 2 2 120 in
  res_status (snd a) = 200
  /\ snd (Rides.acceptRide (fst a) 2 2 120)
     = bad_request "You are not available for rides"
  /\ res_status (snd t) = 200
  /\ res_status (snd b) = 200
  /\ exists ri' rj',
       rides (fst b) !! 1%positive = Some ri' /\ rides (fst b) !! 2%positive = Some rj'
       /\ status ri' = accepted /\ driver ri' = Some 2%positive
       /\ status rj' = accepted /\ driver rj' = Some 2%positive.
Proof.
  apply (driver_can_hold_two_rides db_two_pending 1 2 2 100 120
           (sample_ride 1 None pending pm_cash 0) (sample_ride 4 None pending pm_cash 0)
           (sample_user role_driver true)); done.
Defined.

(** * Distances *)

Section MoreDistance.

Local Open Scope R_scope.

Lemma asin_nonneg (x : R) : 0 <= x <= 1 -> 0 <= asin x.
Proof.
  intros [H0 H1]. destruct (Rle_lt_or_eq_dec x 1 H1) as [Hlt | ->].
  - rewrite asin_atan by lra.
    assert (Hs : 0 < sqrt (1 - x²)).
    { apply sqrt_lt_R0. unfold Rsqr. nra. }
    assert (Hq : 0 <= x / sqrt (1 - x²)).
    { apply Rmult_le_pos; [done|]. left. by apply Rinv_0_lt_compat. }
    destruct Hq as [Hq | <-]; [|rewrite atan_0; lra].
    rewrite <- atan_0. left. by apply atan_increasing.
  - rewrite asin_1. pose proof PI_RGT_0. lra.
Qed.

(** X23. [calculateDistance] gives the same result for two points in
    either order ([NaN] included). *)
Theorem distance_symmetric (point1 point2 : list R) :
  Geo.calculateDistance point1 point2 = Geo.calculateDistance point2 point1.
Proof.
  destruct point1 as [|lon1 [|lat1 [|]]], point2 as [|lon2 [|lat2 [|]]]; try done.
  unfold Geo.calculateDistance. do 5 f_equal.
  - replace ((lat1 - lat2) * PI / 180 / 2) with (- ((lat2 - lat1) * PI / 180 / 2)) by lra.
    replace ((lon1 - lon2) * PI / 180 / 2) with (- ((lon2 - lon1) * PI / 180 / 2)) by lra.
    rewrite !sin_neg. ring.
  - replace ((lat1 - lat2) * PI / 180 / 2) with (- ((lat2 - lat1) * PI / 180 / 2)) by lra.
    replace ((lon1 - lon2) * PI / 180 / 2) with (- ((lon2 - lon1) * PI / 180 / 2)) by lra.
    rewrite !sin_neg. ring.
Qed.

Lemma distance_of_numbers (point1 point2 : list R) :
  (forall d, Geo.calculateDistance point1 point2 = Some d ->
             0 <= d <= PI * Geo.R_earth)
  /\ (forall lon lat, Geo.calculateDistance [lon; lat] [lon; lat] = Some 0)
  /\ (Geo.calculateDistance point1 point2 = None
      <-> length point1 <> 2%nat \/ length point2 <> 2%nat).
Proof.
  split; [|split].
  - intros d.
    destruct point1 as [|lon1 [|lat1 [|]]], point2 as [|lon2 [|lat2 [|]]]; try done.
    rewrite calculateDistance_haversine. intros [= <-].
    unfold Geo.haversine, Geo.hav, Geo.R_earth, Rsqr.
    set (p1 := lat1 * PI / 180). set (p2 := lat2 * PI / 180).
    set (dl := lon2 * PI / 180 - lon1 * PI / 180).
    pose proof (hav_range p1 p2 dl) as Hr.
    replace (cos p1 * cos p2 * (sin (dl / 2) * sin (dl / 2)))
      with (cos p1 * cos p2 * sin (dl / 2) * sin (dl / 2)) by ring.
    set (h := _ + _) in *.
    assert (Hs : 0 <= sqrt h <= 1).
    { split; [apply sqrt_pos|]. rewrite <- sqrt_1. apply sqrt_le_1_alt. lra. }
    pose proof (asin_nonneg _ Hs) as Hlo.
    pose proof (asin_bound (sqrt h)) as [_ Hhi].
    split; nra.
  - intros lon lat. rewrite calculateDistance_haversine. f_equal.
    unfold Geo.haversine, Geo.hav, Rsqr.
    replace (lat * PI / 180 - lat * PI / 180) with 0 by lra.
    replace (lon * PI / 180 - lon * PI / 180) with 0 by lra.
    replace (0 / 2) with 0 by lra. rewrite sin_0.
    replace (0 * 0 + cos (lat * PI / 180) * cos (lat * PI / 180) * (0 * 0)) with 0 by ring.
    rewrite sqrt_0, asin_0. ring.
  - destruct point1 as [|lon1 [|lat1 [|]]], point2 as [|lon2 [|lat2 [|]]]; simpl;
      split; try done; try (intros _; (by left) || (by right)); intros [|]; done.
Qed.

(** On coordinates that are all numbers the two readings of
    [calculateDistance] agree. *)
Lemma calculateDistance_numbers (point1 point2 : list R) :
  JsDistance.calculateDistance (Some <$> point1) (Some <$> point2)
  = Geo.calculateDistance point1 point2.
Proof.
  destruct point1 as [|lon1 [|lat1 [|]]], point2 as [|lon2 [|lat2 [|]]]; reflexivity.
Qed.

Lemma calculateDistance_NaN (point1 point2 : list JsDistance.JsNumber) :
  JsDistance.calculateDistance point1 point2 = None
  <-> length point1 <> 2%nat \/ length point2 <> 2%nat
      \/ None ∈ point1 \/ None ∈ point2.
Proof.
  destruct point1 as [|lon1 [|lat1 [|]]], point2 as [|lon2 [|lat2 [|]]];
    try (split; [intros _; simpl; (by left) || (right; by left) | done]).
  destruct lon1 as [lon1|], lat1 as [lat1|], lon2 as [lon2|], lat2 as [lat2|];
    (split;
     [ intros H; first [discriminate H
                       | right; right; left; rewrite !elem_of_cons; by auto
                       | right; right; right; rewrite !elem_of_cons; by auto]
     | intros [H|[H|[H|H]]]; first [done | reflexivity | exfalso];
       rewrite !elem_of_cons, elem_of_nil in H; by intuition discriminate ]).
Qed.

(** X24. On arrays whose coordinates may be [NaN]: a distance computed by
    [calculateDistance] that is a number lies between 0 and half the
    circumference, pi * 6371 km; it is 0 from a point with two numeric
    coordinates to itself; the result is [NaN] exactly when one of the
    points does not have two coordinates or has a coordinate that is not a
    number; and on points whose coordinates are all numbers the function is
    the one stated over the reals. *)
Theorem distance_range (point1 point2 : list JsDistance.JsNumber) :
  (forall d, JsDistance.calculateDistance point1 point2 = Some d ->
             0 <= d <= PI * Geo.R_earth)
  /\ (forall lon lat,
        JsDistance.calculateDistance [Some lon; Some lat] [Some lon; Some lat] = Some 0)
  /\ (JsDistance.calculateDistance point1 point2 = None
      <-> length point1 <> 2%nat \/ length point2 <> 2%nat
          \/ None ∈ point1 \/ None ∈ point2)
  /\ (forall p1 p2 : list R,
        JsDistance.calculateDistance (Some <$> p1) (Some <$> p2)
        = Geo.calculateDistance p1 p2).
Proof.
  split; [|split; [|split]].
  - intros d Hd.
    destruct point1 as [|[lon1|] [|[lat1|] [|]]], point2 as [|[lon2|] [|[lat2|] [|]]];
      try discriminate Hd.
    change (Geo.calculateDistance [lon1; lat1] [lon2; lat2] = Some d) in Hd.
    by apply (distance_of_numbers [lon1; lat1] [lon2; lat2]).
  - intros lon lat. apply (distance_of_numbers [lon; lat] [lon; lat]).
  - apply calculateDistance_NaN.
  - apply calculateDistance_numbers.
Qed.

End MoreDistance.

Import RideOps.

(** * Requests in sequence *)

(** X25. After a request answered 201, a second request of the same rider
    made within five minutes (with pickup and destination) is refused as
    already active, and the store is left as the first request left it. *)
Theorem second_request_refused calc (db : DB) (userId : UserId)
    (body body' : Rides.RideRequest) (now now' : Date) (newId newId' : RideId)
    (p d : Rides.PlaceReq) :
  res_status (snd (Rides.requestRide calc db userId body now newId)) = 201 ->
  Rides.req_pickup body' = Some p ->
  Rides.req_destination body' = Some d ->
  now' - Rides.stale_after <= now ->
  Rides.requestRide calc (fst (Rides.requestRide calc db userId body now newId))
    userId body' now' newId'
  = (fst (Rides.requestRide calc db userId body now newId),
     bad_request "You already have an active ride request. Please wait or cancel it first.").
Proof.
  intros Hres Hp Hd Hnow.
  destruct (requestRide_outcome calc db userId body now newId)
    as (_ & _ & [[Hno _] | (p0 & d0 & dist & tr & _ & Hact0 & _ & _ & _ & E)]); [done|].
  set (db1 := fst (Rides.requestRide calc db userId body now newId)) in *.
  set (r := mkRide userId None pending tr _ _ _ _ _ _ _ _ _ _ _) in E.
  assert (Hr : rides db1 !! newId = Some r) by (rewrite E; apply lookup_insert_eq).
  assert (Hfresh : Rides.stale_pending userId now' r = false).
  { unfold Rides.stale_pending. simpl. rewrite !bool_decide_eq_true_2 by done. simpl.
    apply Z.ltb_ge. done. }
  assert (Hnone : filter (fun p : RideId * Ride =>
                     Rides.stale_pending userId now' (snd p) = true) (rides db1) = ∅
                  -> Rides.deleteStale userId now' (rides db1) = rides db1)
    by apply deleteStale_none.
  unfold Rides.requestRide at 1. rewrite Hp, Hd.
  set (stale := filter _ (rides db1)) in *.
  assert (Hact : forall rs, rs !! newId = Some r -> Rides.has_active_ride userId rs = true).
  { intros rs Hrs. apply has_active_ride_true. by exists newId, r. }
  destruct (decide (stale = ∅)) as [He|Hne].
  - by rewrite (Hact _ Hr).
  - cbn [rides set_rides].
    assert (Hin : Rides.deleteStale userId now' (rides db1) !! newId = Some r).
    { rewrite deleteStale_lookup, Hr. simpl. by rewrite Hfresh. }
    rewrite (Hact _ Hin). f_equal.
    (* nothing of this rider is stale *)
    exfalso. apply Hne. apply map_eq. intros k. rewrite lookup_empty.
    apply map_lookup_filter_None. right. intros rk Hk. simpl. intros Hst.
    destruct (decide (k = newId)) as [->|Hkn]; [congruence|].
    rewrite E, lookup_insert_ne in Hk by done.
    unfold Rides.stale_pending in Hst.
    apply andb_true_iff in Hst as [Hst _]. apply andb_true_iff in Hst as [Hrd Hpd].
    apply bool_decide_eq_true in Hrd. apply bool_decide_eq_true in Hpd.
    pose proof (has_active_ride_false userId _ k rk Hact0 Hk Hrd) as Hno'.
    by rewrite Hpd in Hno'.
Qed.

Lemma second_request_refused_witness :
  Rides.requestRide sample_distance
    (fst (Rides.requestRide sample_distance db_stale 1 sample_request 360001 2))
    1 sample_request 400000 3
  = (fst (Rides.requestRide sample_distance db_stale 1 sample_request 360001 2),
     bad_request "You already have an active ride request. Please wait or cancel it first.").
Proof.
  eapply (second_request_refused sample_distance db_stale 1 sample_request sample_request
            360001 400000 2 3); [reflexivity | reflexivity | reflexivity | done].
Defined.

Lemma blocked_has_active calc (db : DB) (userId : UserId) (body : Rides.RideRequest)
    (now : Date) (newId : RideId) :
  snd (Rides.requestRide calc db userId body now newId)
  = bad_request "You already have an active ride request. Please wait or cancel it first." ->
  exists i r, rides db !! i = Some r /\ rider r = userId
              /\ Rides.is_active (status r) = true.
Proof.
  intros Hres.
  destruct (Rides.req_pickup body) as [p|] eqn:Hp;
    [|by unfold Rides.requestRide in Hres; rewrite Hp in Hres].
  destruct (Rides.req_destination body) as [d|] eqn:Hd;
    [|by unfold Rides.requestRide in Hres; rewrite Hp, Hd in Hres].
  revert Hres. unfold Rides.requestRide. rewrite Hp, Hd.
  set (stale := filter _ (rides db)).
  assert (Hclean : (if decide (stale = ∅) then db
                    else set_rides (Rides.deleteStale userId now (rides db)) db)
                   = set_rides (Rides.deleteStale userId now (rides db)) db).
  { destruct (decide (stale = ∅)) as [He|]; [|done].
    rewrite deleteStale_none by done. by destruct db. }
  rewrite Hclean. clear Hclean stale. cbv zeta. cbn [rides set_rides].
  destruct (Rides.has_active_ride userId _) eqn:Hact.
  - intros _. apply has_active_ride_true in Hact as (i & r & Hi & Hr & Ha).
    exists i, r. apply deleteStale_subseteq in Hi. done.
  - repeat case_match; unfold ret in *; simplify_eq; simpl; done.
Qed.

(** X26. When no rider has two active rides and a rider's [cancelRide]
    call on their ride answers 200, a following request of that rider is not
    refused for an active ride. *)
Theorem cancel_unblocks_request calc (db : DB) (rideId : RideId) (userId : UserId)
    (reason : option string) (now : Date) (body : Rides.RideRequest) (now' : Date)
    (newId : RideId) (r : Ride) :
  single_active (rides db) ->
  rides db !! rideId = Some r ->
  rider r = userId ->
  res_status (snd (Rides.cancelRide db rideId userId reason now)) = 200 ->
  snd (Rides.requestRide calc (fst (Rides.cancelRide db rideId userId reason now))
         userId body now' newId)
  <> bad_request "You already have an active ride request. Please wait or cancel it first.".
Proof.
  intros Hinv Hr Hrider Hok Hblocked.
  apply blocked_has_active in Hblocked as (k & rk & Hk & Hrk & Hak).
  assert (Hrides : exists r', rides (fst (Rides.cancelRide db rideId userId reason now))
                              = <[rideId := r']> (rides db)
                              /\ status r' = cancelled
                              /\ Rides.is_active (status r) = true).
  { revert Hok. unfold Rides.cancelRide. rewrite Hr.
    destruct (negb _ && negb _); [done|].
    destruct (bool_decide (status r = completed) || bool_decide (status r = cancelled))
      eqn:Hterm; [done|].
    assert (Hact : Rides.is_active (status r) = true).
    { apply orb_false_iff in Hterm as [H1 H2].
      apply bool_decide_eq_false in H1. apply bool_decide_eq_false in H2.
      by destruct (status r). }
    simpl. destruct (bool_decide (driver r = Some userId)); simpl.
    - destruct (users db !! userId); simpl; [|done]. intros _. eauto.
    - intros _. eauto. }
  destruct Hrides as (r' & E & Hs' & Hact).
  rewrite E in Hk. destruct (decide (k = rideId)) as [->|Hne].
  - rewrite lookup_insert_eq in Hk. injection Hk as <-. by rewrite Hs' in Hak.
  - rewrite lookup_insert_ne in Hk by done.
    apply Hne. apply (Hinv k rideId rk r); try done. congruence.
Qed.

Lemma cancel_unblocks_request_witness :
  single_active (rides db_pending)
  /\ snd (Rides.requestRide sample_distance
            (fst (Rides.cancelRide db_pending 1 1 None 50)) 1 sample_request 60 2)
     <> bad_request "You already have an active ride request. Please wait or cancel it first.".
Proof.
  assert (H : single_active (rides db_pending)).
  { intros i j ri rj Hi Hj _ _ _. unfold db_pending in Hi, Hj. cbn [rides] in Hi, Hj.
    apply lookup_singleton_Some in Hi as [<- _].
    by apply lookup_singleton_Some in Hj as [<- _]. }
  split; [exact H|].
  apply (cancel_unblocks_request sample_distance db_pending 1 1 None 50 sample_request 60 2
           (sample_ride 1 None pending pm_cash 0) H); reflexivity.
Defined.

(** * What the ride handlers leave alone *)

Lemma users_step (us : gmap UserId User) (u : UserId) (usr : User) (b : bool) :
  us !! u = Some usr ->
  forall v, (fun x => (role x, isActive x, location x)) <$> <[u := set_isAvailable b usr]> us !! v
            = (fun x => (role x, isActive x, location x)) <$> us !! v.
Proof.
  intros Hu v. destruct (decide (u = v)) as [<-|Hne].
  - by rewrite lookup_insert_eq, Hu.
  - by rewrite lookup_insert_ne.
Qed.

(** X27. The six ride handlers never add or remove a user and never
    change a user's role, activity or location (only the availability flag
    moves); and they leave the wallets alone, except that [completeRide] of
    a wallet ride leaves the wallets of its [transferFunds] call. *)
Theorem ride_calls_frame calc (db : DB) (op : RideOp) :
  let db' := fst (run calc db op) in
  (forall v, (fun x => (role x, isActive x, location x)) <$> users db' !! v
             = (fun x => (role x, isActive x, location x)) <$> users db !! v)
  /\ (wallets db' = wallets db
      \/ exists fault rideId userId now ride,
           op = OpComplete fault rideId userId now
           /\ rides db !! rideId = Some ride
           /\ payment_method ride = pm_wallet
           /\ wallets db'
              = fst (Wallets.transferFunds fault (wallets db) (rider ride) userId
                       (Fare.total (fare (trip ride))) (Some rideId) now)).
Proof.
  destruct op as [userId body now newId | rideId userId now | rideId userId now
                  | fault rideId userId now | rideId userId reason now
                  | rideId userId x comment ratedBy now]; simpl.
  - destruct (requestRide_outcome calc db userId body now newId) as (-> & -> & _). auto.
  - unfold Rides.acceptRide. simpl.
    destruct (rides db !! rideId) as [r|] eqn:Hr; simpl; [|auto].
    destruct (bool_decide (status r = pending)); simpl; [|auto].
    destruct (users db !! userId) as [u|] eqn:Hu; simpl; [|auto].
    destruct (isAvailable u); simpl; [|auto].
    rewrite Hr. simpl. rewrite Hu. simpl. split; [by apply users_step | auto].
  - unfold Rides.startRide. repeat case_match; simpl; auto.
  - unfold Rides.completeRide.
    destruct (rides db !! rideId) as [r|] eqn:Hr; [|auto].
    destruct (driver r) as [d|] eqn:Hd; [|auto].
    destruct (negb (bool_decide (d = userId))); [auto|].
    destruct (negb (bool_decide (status r = in_progress))); [auto|]. simpl.
    destruct (decide (payment_method r = pm_wallet)) as [Hm|Hm].
    + rewrite (bool_decide_eq_true_2 _ Hm).
      destruct (Wallets.transferFunds _ _ _ _ _ _ _) as [ws [e|bal]] eqn:Et; simpl;
        destruct (users db !! userId) as [u|] eqn:Hu; simpl;
        (split; [by (apply users_step || done)|]); right;
        exists fault, rideId, userId, now, r; by rewrite Et.
    + rewrite (bool_decide_eq_false_2 _ Hm). simpl.
      destruct (users db !! userId) as [u|] eqn:Hu; simpl;
        (split; [by (apply users_step || done)|]); auto.
  - unfold Rides.cancelRide.
    destruct (rides db !! rideId) as [r|] eqn:Hr; [|auto].
    destruct (negb _ && negb _); [auto|].
    destruct (_ || _); [auto|]. simpl.
    destruct (bool_decide (driver r = Some userId)); simpl; [|auto].
    destruct (users db !! userId) as [u|] eqn:Hu; simpl; [|auto].
    split; [by apply users_step | auto].
  - unfold Rides.rateRide. repeat case_match; simpl; auto.
Qed.

Import WalletRoutes.
Import WalletOps.
Import Audit.

(** * The wallet collection as a history *)

Lemma same_record_refl (t : Transaction) : same_record t t.
Proof. by repeat split. Qed.

Lemma same_record_trans (t1 t2 t3 : Transaction) :
  same_record t1 t2 -> same_record t2 t3 -> same_record t1 t3.
Proof. unfold same_record. intros (? & ? & ? & ?) (? & ? & ? & ?). repeat split; congruence. Qed.

Lemma same_records_refl (l : list Transaction) : Forall2 same_record l l.
Proof. induction l; constructor; [apply same_record_refl | done]. Qed.

Lemma extends_refl (w : Wallet) : extends w w.
Proof.
  split; [done|]. exists (transactions w), []. split; [by rewrite app_nil_r|].
  apply same_records_refl.
Qed.

Lemma extends_trans (w1 w2 w3 : Wallet) : extends w1 w2 -> extends w2 w3 -> extends w1 w3.
Proof.
  intros [Hr1 (k1 & a1 & E1 & F1)] [Hr2 (k2 & a2 & E2 & F2)]. split; [congruence|].
  rewrite E1 in F2. apply Forall2_app_inv_l in F2 as (k2a & k2b & Fa & Fb & ->).
  exists k2a, (k2b ++ a2). split; [by rewrite E2, app_assoc|].
  clear -F1 Fa. revert k2a Fa. induction F1 as [|x y l k Hxy _ IH]; intros k2a Fa.
  - by apply Forall2_nil_inv_l in Fa as ->.
  - apply Forall2_cons_inv_l in Fa as (z & k' & Hyz & Fa & ->).
    constructor; [by apply same_record_trans with y | by apply IH].
Qed.

Lemma extends_push (t : Transaction) (w : Wallet) : extends w (push t w).
Proof.
  split; [done|]. exists (transactions w), [t]. split; [done | apply same_records_refl].
Qed.

Lemma extends_set_balance (b : Number) (w : Wallet) : extends w (set_balance b w).
Proof.
  split; [done|]. exists (transactions w), []. split; [by rewrite app_nil_r|].
  apply same_records_refl.
Qed.

Lemma extends_set_transaction (i : nat) (t t' : Transaction) (w : Wallet) :
  transactions w !! i = Some t -> same_record t t' ->
  extends w (set_transaction i t' w).
Proof.
  intros Hi Ht. split; [done|]. exists (<[i := t']> (transactions w)), [].
  split; [by rewrite app_nil_r|]. simpl.
  generalize dependent i. induction (transactions w) as [|x l IH]; intros i Hi; [done|].
  destruct i as [|i]; simpl in *.
  - injection Hi as ->. constructor; [done | apply same_records_refl].
  - constructor; [apply same_record_refl | by apply IH].
Qed.

Lemma log_kept_refl (ws : gmap UserId Wallet) : log_kept ws ws.
Proof. intros u w Hu. exists w. split; [done | apply extends_refl]. Qed.

Lemma log_kept_trans (ws1 ws2 ws3 : gmap UserId Wallet) :
  log_kept ws1 ws2 -> log_kept ws2 ws3 -> log_kept ws1 ws3.
Proof.
  intros H1 H2 u w Hu. destruct (H1 u w Hu) as (w2 & Hu2 & E1).
  destruct (H2 u w2 Hu2) as (w3 & Hu3 & E2). exists w3. split; [done|].
  by apply extends_trans with w2.
Qed.

Lemma log_kept_insert (ws : gmap UserId Wallet) (u : UserId) (w' : Wallet) :
  (forall w, ws !! u = Some w -> extends w w') -> log_kept ws (<[u := w']> ws).
Proof.
  intros H v w Hv. destruct (decide (u = v)) as [<-|Hne].
  - exists w'. split; [apply lookup_insert_eq | by apply H].
  - exists w. split; [by rewrite lookup_insert_ne | apply extends_refl].
Qed.

Lemma log_kept_alter (ws : gmap UserId Wallet) (u : UserId) (f : Wallet -> Wallet) :
  (forall w, extends w (f w)) -> log_kept ws (alter f u ws).
Proof.
  intros H v w Hv. destruct (decide (u = v)) as [<-|Hne].
  - exists (f w). split; [by rewrite lookup_alter_eq, Hv | apply H].
  - exists w. split; [by rewrite lookup_alter_ne | apply extends_refl].
Qed.

Lemma log_kept_findOrCreate (u : UserId) (r : Role) (ws ws1 : gmap UserId Wallet)
    (w : Wallet) :
  Wallets.findOrCreate u r ws = inr (ws1, w) -> log_kept ws ws1.
Proof.
  intros H. apply findOrCreate_inr in H as [_ [-> | (Hnone & _ & ->)]].
  - apply log_kept_refl.
  - apply log_kept_insert. intros w0 Hw0. congruence.
Qed.

Lemma same_record_meta (k : string) (v : MetaValue) (t : Transaction) :
  same_record t (set_meta k v t).
Proof. by repeat split. Qed.

(** X28. No wallet operation (deposit, withdraw, transfer, ride payment,
    webhook) touches rides or users, removes a wallet, changes a wallet's
    role, removes a recorded transaction, or changes the type, amount,
    description or creation date of a recorded transaction: the log only
    grows at its end, and only the status, completion date and metadata of
    an entry are ever rewritten. *)
Theorem wallet_history_kept (db : DB) (op : WalletOp) :
  let db' := fst (run db op) in
  rides db' = rides db /\ users db' = users db
  /\ log_kept (wallets db) (wallets db').
Proof.
  destruct op as [u r amt pm phone now gw | u amt pm phone now gw
                  | u to amt rideId now fault | u r rideId driverId amt now
                  | ref st amt now]; simpl; (split; [|split]).
  - done.
  - done.
  - unfold deposit_route. destruct (bad_amount amt); [apply log_kept_refl|].
    destruct (decide (phone = EmptyString)); [apply log_kept_refl|].
    destruct (Wallets.findOrCreate u r (wallets db)) as [e|[ws1 w]] eqn:Hfc;
      [apply log_kept_refl|].
    pose proof (log_kept_findOrCreate _ _ _ _ _ Hfc) as H1.
    apply findOrCreate_inr in Hfc as [Hw _].
    destruct (negb _); [done|].
    assert (Hstep : forall w', extends w w' -> log_kept (wallets db) (<[u := w']> ws1)).
    { intros w' Hw'. apply log_kept_trans with ws1; [done|].
      apply log_kept_insert. intros w0 Hw0. congruence. }
    destruct gw as [pid gst|msg]; simpl.
    + rewrite note_gateway_push, insert_insert_eq.
      apply Hstep, extends_push.
    + rewrite complete_in_test_mode_push.
      destruct (js_le 0 _); simpl.
      * rewrite insert_insert_eq. apply Hstep.
        apply extends_trans with (push
          (set_tx_completedAt now
             (set_tx_status tx_completed
                (pending_tx deposit amt ("Deposit via " +:+ pm) pm phone
                   (externalReference "DEP_" now u) now))) w);
          [apply extends_push | apply extends_set_balance].
      * apply Hstep, extends_push.
  - done.
  - done.
  - unfold withdraw_route. destruct (bad_amount amt); [apply log_kept_refl|].
    destruct (decide (phone = EmptyString)); [apply log_kept_refl|].
    destruct (wallets db !! u) as [w|] eqn:Hw; [|apply log_kept_refl].
    destruct (negb (Wallets.canWithdraw w amt)); [apply log_kept_refl|].
    destruct (negb _); [apply log_kept_refl|].
    assert (Hstep : forall w', extends w w' -> log_kept (wallets db) (<[u := w']> (wallets db))).
    { intros w' Hw'. apply log_kept_insert. intros w0 Hw0. congruence. }
    destruct gw as [pid gst|msg]; simpl.
    + rewrite note_gateway_push, insert_insert_eq.
      apply Hstep, extends_push.
    + rewrite complete_in_test_mode_push.
      destruct (js_le 0 _); simpl.
      * rewrite insert_insert_eq. apply Hstep.
        apply extends_trans with (push
          (set_tx_completedAt now
             (set_tx_status tx_completed
                (pending_tx withdrawal amt ("Withdrawal to " +:+ pm) pm phone
                   (externalReference "WIT_" now u) now))) w);
          [apply extends_push | apply extends_set_balance].
      * apply Hstep, extends_push.
  - unfold transfer_route. repeat case_match; done.
  - unfold transfer_route. repeat case_match; done.
  - unfold transfer_route. destruct to as [to|]; [|apply log_kept_refl].
    destruct (bad_amount amt); [apply log_kept_refl|].
    destruct (users db !! to); [|apply log_kept_refl].
    destruct (Wallets.transferFunds _ _ _ _ _ _ _) as [ws' [e|[bf bt]]] eqn:E; simpl.
    + apply transfer_failure_restores in E as ->. apply log_kept_refl.
    + apply transfer_success in E as (fw & tw & tf & tt & _ & _ & _ & _ & _ & _ & _ & _
        & _ & _ & _ & _ & _ & _ & _ & _ & _ & ->).
      repeat (eapply log_kept_trans; [|apply log_kept_alter;
                intros w; (apply extends_push || apply extends_set_balance)]).
      apply log_kept_refl.
  - unfold pay_ride_route. repeat case_match; done.
  - unfold pay_ride_route. repeat case_match; done.
  - unfold pay_ride_route.
    destruct rideId as [rid|]; [|apply log_kept_refl].
    destruct driverId as [did|]; [|apply log_kept_refl].
    destruct (bad_amount amt); [apply log_kept_refl|].
    destruct (negb (bool_decide (r = role_rider))); [apply log_kept_refl|].
    destruct (users db !! did) as [drv|]; [|apply log_kept_refl].
    destruct (negb (bool_decide (role drv = role_driver))); [apply log_kept_refl|].
    destruct (wallets db !! u) as [rw|]; [|apply log_kept_refl].
    destruct (js_lt (balance rw) amt); [apply log_kept_refl|].
    destruct (Wallets.findOrCreate did role_driver (wallets db)) as [e|[ws1 dw]] eqn:Hfc;
      [apply log_kept_refl|].
    pose proof (log_kept_findOrCreate _ _ _ _ _ Hfc) as H1.
    assert (Hsave : forall v doc t ws ws', save_paid v doc t ws = inr ws' -> log_kept ws ws').
    { intros v doc t ws ws' H. unfold save_paid in H.
      invert_bind H as [] _. invert_bind H as [] _. injection H as <-.
      apply log_kept_alter. intros w.
      apply extends_trans with (set_balance (balance doc) w);
        [apply extends_set_balance | apply extends_push]. }
    set (s1 := save_paid u _ _ ws1).
    destruct s1 as [e1|ws2] eqn:E1; subst s1.
    + set (s2 := save_paid did _ _ ws1).
      destruct s2 as [e2|ws3] eqn:E2; subst s2; simpl; [done|].
      apply log_kept_trans with ws1; [done | by eapply Hsave].
    + set (s2 := save_paid did _ _ ws2).
      apply Hsave in E1.
      destruct s2 as [e2|ws3] eqn:E2; subst s2; simpl.
      * by apply log_kept_trans with ws1.
      * apply Hsave in E2. apply log_kept_trans with ws1; [done|].
        by apply log_kept_trans with ws2.
  - done.
  - done.
  - rewrite campay_webhook_not_found. apply log_kept_refl.
Qed.

(** * Routes that are never reached *)

Lemma dispatch_Some (m : Router.Method) (path : list string) (r : Router.Route) :
  Router.dispatch m path = Some r ->
  exists i, Router.routes !! i = Some r
            /\ Router.route_matches m path r = true
            /\ forall j r', Router.routes !! j = Some r' -> (j < i)%nat ->
                            Router.route_matches m path r' = false.
Proof.
  unfold Router.dispatch. intros H. apply fmap_Some in H as ([i r'] & Hf & ->).
  apply list_find_Some in Hf as (Hi & Hm & Hfirst). exists i. split; [done|].
  split; [done|]. intros j r'' Hj Hlt. apply not_true_is_false. by apply (Hfirst j).
Qed.

Lemma lower_nonempty (s l : string) :
  Router.lower s = Router.lower l -> l <> EmptyString -> s <> EmptyString.
Proof. intros H Hl ->. by destruct l. Qed.

Lemma dispatch_not_shadowed (m : Router.Method) (path : list string) (r : Router.Route) :
  Router.dispatch m path = Some r ->
  ~ (Router.line r ∈ [1101; 1104; 1107; 1135]%nat)
  /\ (Router.protect r = true \/ Router.handler r = Router.testDistance).
Proof.
  intros H. apply dispatch_Some in H as (i & Hi & Hm & Hfirst).
  assert (Hcatch : (10 < i)%nat -> forall s, path = [s] -> s <> EmptyString ->
                   m = Router.GET -> False).
  { intros Hlt s -> Hs ->.
    specialize (Hfirst 10%nat _ eq_refl Hlt). unfold Router.route_matches in Hfirst.
    simpl in Hfirst. by rewrite (bool_decide_eq_false_2 _ Hs) in Hfirst. }
  do 20 (destruct i as [|i];
    [injection Hi as <-; first
       [ by split; [apply (bool_decide_unpack _); vm_compute | auto]
       | exfalso; unfold Router.route_matches in Hm;
         apply andb_true_iff in Hm as [Hmeth Hpath];
         apply bool_decide_eq_true in Hmeth;
         cbn [Router.method Router.pattern Router.path_matches] in Hmeth, Hpath;
         destruct path as [|s [|s' path]];
         cbn [Router.path_matches Router.segment_matches] in Hpath;
         rewrite ?andb_false_r in Hpath; try done;
         rewrite andb_true_r in Hpath; apply bool_decide_eq_true in Hpath;
         apply (Hcatch ltac:(lia) s eq_refl); [|done];
         by apply (lower_nonempty _ _ Hpath) ]|]).
  done.
Qed.

(** X29. In the route table of the rides router, the routes registered
    after [GET /:id] with a one-segment path, [/test-nearby-drivers],
    [/nearby], [/test-user] and [/test-ride-requests], are never reached:
    such a request is served by [getRide]; every other route is reached by
    some request; and every request that is served at all passes [protect],
    except [POST /test-distance]. *)
Theorem shadowed_routes :
  (forall m path r,
     Router.dispatch m path = Some r ->
     ~ (Router.line r ∈ [1101; 1104; 1107; 1135]%nat)
     /\ (Router.protect r = true \/ Router.handler r = Router.testDistance))
  /\ Forall (fun r => Router.line r ∈ [1101; 1104; 1107; 1135]%nat
                      \/ exists path, Router.dispatch (Router.method r) path = Some r)
            Router.routes
  /\ Forall (fun s => Router.handler <$> Router.dispatch Router.GET [s]
                      = Some Router.getRide)
            ["test-nearby-drivers"; "nearby"; "test-user"; "test-ride-requests"].
Proof.
  split; [apply dispatch_not_shadowed|]. split.
  - unfold Router.routes.
    repeat (apply Forall_cons; split;
      [first [ right; exists ["request"]; vm_compute; reflexivity
             | right; exists ["nearby-drivers"]; vm_compute; reflexivity
             | right; exists ["nearby-requests"]; vm_compute; reflexivity
             | right; exists ["active"]; vm_compute; reflexivity
             | right; exists ["my-rides"]; vm_compute; reflexivity
             | right; exists ["test-distance"]; vm_compute; reflexivity
             | right; exists ["42"]; vm_compute; reflexivity
             | right; exists ["42"; "driver-location"]; vm_compute; reflexivity
             | right; exists ["42"; "accept"]; vm_compute; reflexivity
             | right; exists ["42"; "start"]; vm_compute; reflexivity
             | right; exists ["42"; "complete"]; vm_compute; reflexivity
             | right; exists ["42"; "cancel"]; vm_compute; reflexivity
             | right; exists ["42"; "rider-location"]; vm_compute; reflexivity
             | right; exists ["42"; "rate"]; vm_compute; reflexivity
             | right; exists ["42"; "rider-info"]; vm_compute; reflexivity
             | left; apply (bool_decide_unpack _); vm_compute; exact I ]|]).
    apply Forall_nil_2.
  - repeat (apply Forall_cons; split; [vm_compute; reflexivity|]). apply Forall_nil_2.
Qed.
